(** * The LEGO Mindstorms EV3 UART sensor line discipline

    A shallow embedding of [drivers/legoev3/legoev3_uart.c]: the message
    codec, the receive path ([legoev3_uart_receive_buf]) with its sync
    scanner, framer and per-message state machine, the keep-alive timer
    callback and the sysfs value reader.

    Conventions.  A [u8] is a [Z] in [0, 256); the driver's [unsigned]
    counters are [Z] with their wrap-around written out.  C arrays are lists
    indexed through [byte_at]; the 256-byte receive buffer keeps its stale
    contents beyond [write_ptr], exactly as the C array does.  [goto]s are
    the constructors of [flow]; the two delayed work items and the
    keep-alive tasklet are fields of the port record that hold what is
    queued, and the timer callback returns its restart verdict. *)

From Stdlib Require Import ZArith List Bool Lia String.
From stdpp Require Import base list.
Import ListNotations.
Local Open Scope Z_scope.

(** ** Constants of legoev3_uart.c *)

Definition LEGOEV3_UART_BUFFER_SIZE : Z := 256.
Definition LEGOEV3_UART_SENSOR_DATA_SIZE : Z := 32.

Definition LEGOEV3_UART_MSG_TYPE_MASK : Z := 0xC0.
Definition LEGOEV3_UART_CMD_SIZE (byte : Z) : Z :=
  Z.shiftl 1 (Z.land (Z.shiftr byte 3) 0x7).
Definition LEGOEV3_UART_MSG_CMD_MASK : Z := 0x07.
Definition LEGOEV3_UART_MAX_DATA_ERR : Z := 6.

Definition LEGOEV3_UART_TYPE_UNKNOWN : Z := 125.
Definition LEGOEV3_UART_SPEED_MIN : Z := 2400.
Definition LEGOEV3_UART_SPEED_MAX : Z := 460800.

Definition LEGOEV3_UART_SEND_ACK_DELAY : Z := 10.
Definition LEGOEV3_UART_SET_BITRATE_DELAY : Z := 10.
Definition LEGOEV3_UART_DATA_KEEP_ALIVE_TIMEOUT : Z := 100.

Definition LEGOEV3_UART_MSG_TYPE_SYS : Z := 0x00.
Definition LEGOEV3_UART_MSG_TYPE_CMD : Z := 0x40.
Definition LEGOEV3_UART_MSG_TYPE_INFO : Z := 0x80.
Definition LEGOEV3_UART_MSG_TYPE_DATA : Z := 0xC0.

Definition LEGOEV3_UART_SYS_SYNC : Z := 0x0.
Definition LEGOEV3_UART_SYS_NACK : Z := 0x2.
Definition LEGOEV3_UART_SYS_ACK : Z := 0x4.
Definition LEGOEV3_UART_SYS_ESC : Z := 0x6.

Definition LEGOEV3_UART_CMD_TYPE : Z := 0x0.
Definition LEGOEV3_UART_CMD_MODES : Z := 0x1.
Definition LEGOEV3_UART_CMD_SPEED : Z := 0x2.
Definition LEGOEV3_UART_CMD_SELECT : Z := 0x3.
Definition LEGOEV3_UART_CMD_WRITE : Z := 0x4.

Definition LEGOEV3_UART_INFO_NAME : Z := 0x00.
Definition LEGOEV3_UART_INFO_RAW : Z := 0x01.
Definition LEGOEV3_UART_INFO_PCT : Z := 0x02.
Definition LEGOEV3_UART_INFO_SI : Z := 0x03.
Definition LEGOEV3_UART_INFO_UNITS : Z := 0x04.
Definition LEGOEV3_UART_INFO_FORMAT : Z := 0x80.

Definition LEGOEV3_UART_INFO_BIT_CMD_TYPE : Z := 0.
Definition LEGOEV3_UART_INFO_BIT_CMD_MODES : Z := 1.
Definition LEGOEV3_UART_INFO_BIT_CMD_SPEED : Z := 2.
Definition LEGOEV3_UART_INFO_BIT_INFO_NAME : Z := 3.
Definition LEGOEV3_UART_INFO_BIT_INFO_RAW : Z := 4.
Definition LEGOEV3_UART_INFO_BIT_INFO_PCT : Z := 5.
Definition LEGOEV3_UART_INFO_BIT_INFO_SI : Z := 6.
Definition LEGOEV3_UART_INFO_BIT_INFO_UNITS : Z := 7.
Definition LEGOEV3_UART_INFO_BIT_INFO_FORMAT : Z := 8.

Definition BIT (n : Z) : Z := Z.shiftl 1 n.

Definition LEGOEV3_UART_INFO_FLAG_CMD_TYPE : Z := BIT LEGOEV3_UART_INFO_BIT_CMD_TYPE.
Definition LEGOEV3_UART_INFO_FLAG_CMD_MODES : Z := BIT LEGOEV3_UART_INFO_BIT_CMD_MODES.
Definition LEGOEV3_UART_INFO_FLAG_CMD_SPEED : Z := BIT LEGOEV3_UART_INFO_BIT_CMD_SPEED.
Definition LEGOEV3_UART_INFO_FLAG_INFO_NAME : Z := BIT LEGOEV3_UART_INFO_BIT_INFO_NAME.
Definition LEGOEV3_UART_INFO_FLAG_INFO_RAW : Z := BIT LEGOEV3_UART_INFO_BIT_INFO_RAW.
Definition LEGOEV3_UART_INFO_FLAG_INFO_PCT : Z := BIT LEGOEV3_UART_INFO_BIT_INFO_PCT.
Definition LEGOEV3_UART_INFO_FLAG_INFO_SI : Z := BIT LEGOEV3_UART_INFO_BIT_INFO_SI.
Definition LEGOEV3_UART_INFO_FLAG_INFO_UNITS : Z := BIT LEGOEV3_UART_INFO_BIT_INFO_UNITS.
Definition LEGOEV3_UART_INFO_FLAG_INFO_FORMAT : Z := BIT LEGOEV3_UART_INFO_BIT_INFO_FORMAT.
Definition LEGOEV3_UART_INFO_FLAG_ALL_INFO : Z :=
  Z.lor LEGOEV3_UART_INFO_FLAG_INFO_NAME
 (Z.lor LEGOEV3_UART_INFO_FLAG_INFO_RAW
 (Z.lor LEGOEV3_UART_INFO_FLAG_INFO_PCT
 (Z.lor LEGOEV3_UART_INFO_FLAG_INFO_SI
 (Z.lor LEGOEV3_UART_INFO_FLAG_INFO_UNITS
        LEGOEV3_UART_INFO_FLAG_INFO_FORMAT)))).
Definition LEGOEV3_UART_INFO_FLAG_REQUIRED : Z :=
  Z.lor LEGOEV3_UART_INFO_FLAG_CMD_TYPE
 (Z.lor LEGOEV3_UART_INFO_FLAG_CMD_MODES
 (Z.lor LEGOEV3_UART_INFO_FLAG_INFO_NAME
        LEGOEV3_UART_INFO_FLAG_INFO_FORMAT)).

Definition ENXIO : Z := 6.
Definition EINVAL : Z := 22.

(** Modelled from the spec: [legoev3_uart.h] is not among the sources.  The
    mode table has 8 slots ([LEGOEV3_UART_MODE_MAX + 1]), a mode name holds
    about 11 bytes, and [format] is one of S8, S16, S32, FLOAT in that
    order (the handshake of the spec's first scenario sends format byte 0
    for S8). *)
Definition LEGOEV3_UART_MODE_MAX : Z := 7.
Definition LEGOEV3_UART_NAME_SIZE : Z := 11.
Definition LEGOEV3_UART_DATA_8 : Z := 0.
Definition LEGOEV3_UART_DATA_16 : Z := 1.
Definition LEGOEV3_UART_DATA_32 : Z := 2.
Definition LEGOEV3_UART_DATA_FLOAT : Z := 3.

(** What the driver takes from its build target and from a header that is
    not among the sources: the largest sensor type id
    ([LEGOEV3_UART_TYPE_MAX]) and the size of a units string
    ([LEGOEV3_UART_UNITS_SIZE]) of [legoev3_uart.h], and
    [sizeof(unsigned long)] (4 on the EV3's 32-bit ARM9). *)
Class Target := {
  LEGOEV3_UART_TYPE_MAX : Z;
  LEGOEV3_UART_UNITS_SIZE : Z;
  sizeof_unsigned_long : Z
}.

(** ** Bytes and arrays *)

(** [a[i]] for a C array held in a list. *)
Definition byte_at (a : list Z) (i : Z) : Z := default 0 (a !! Z.to_nat i).

(** [a[i] = v]. *)
Definition store_at (a : list Z) (i : Z) (v : Z) : list Z := <[Z.to_nat i := v]> a.

(** [*(unsigned * )(a + off)] on the little-endian ARM9 of the EV3. *)
Definition load_u32 (a : list Z) (off : Z) : Z :=
  Z.lor (byte_at a off)
 (Z.lor (Z.shiftl (byte_at a (off + 1)) 8)
 (Z.lor (Z.shiftl (byte_at a (off + 2)) 16)
        (Z.shiftl (byte_at a (off + 3)) 24))).

Definition load_u16 (a : list Z) (off : Z) : Z :=
  Z.lor (byte_at a off) (Z.shiftl (byte_at a (off + 1)) 8).

(** Reading a [w]-bit pattern as a signed integer ([s8], [s16], [s32], [int]). *)
Definition to_signed (w : Z) (x : Z) : Z :=
  if x <? 2 ^ (w - 1) then x else x - 2 ^ w.

(** The bytes of the C string starting at [a]: up to the first NUL. *)
Fixpoint c_string (a : list Z) : list Z :=
  match a with
  | [] => []
  | c :: a' => if c =? 0 then [] else c :: c_string a'
  end.

(** [strlen]. *)
Definition strlen (a : list Z) : Z := Z.of_nat (length (c_string a)).

(** [snprintf(dst, size, "%s", src)]: at most [size - 1] characters and a NUL. *)
Definition snprintf_s (size : Z) (src : list Z) : list Z :=
  take (Z.to_nat (size - 1)) (c_string src).

(** [memcpy(dst, src, n)] for [n] within [dst]. *)
Definition memcpy (dst src : list Z) (n : Z) : list Z :=
  take (Z.to_nat n) src ++ drop (Z.to_nat n) dst.

(** ** Codec *)

(** Modelled from the kernel's bitops contract: [find_last_bit]
    (lib/find_last_bit.c) is not among the sources.  For a bitmap held in a
    single word and [size] bits to search, it masks the word to its low
    [size] bits and returns the index of the most significant set bit
    ([__fls]), or [size] when none of them is set. *)
Definition find_last_bit (word size : Z) : Z :=
  let tmp := Z.land word (Z.ones size) in
  if tmp =? 0 then size else Z.log2 tmp.

Definition legoev3_uart_set_msg_hdr `{Target} (type size cmd : Z) : Z :=
  let size_code :=
    Z.shiftl (Z.land (find_last_bit size sizeof_unsigned_long) 0x7) 3 in
  Z.lor (Z.lor (Z.land type LEGOEV3_UART_MSG_TYPE_MASK) size_code)
        (Z.land cmd LEGOEV3_UART_MSG_CMD_MASK).

Definition legoev3_uart_msg_size (header : Z) : Z :=
  if Z.land header LEGOEV3_UART_MSG_TYPE_MASK =? 0 then 1
  else
    let size := LEGOEV3_UART_CMD_SIZE header in
    let size := size + 2 in
    if Z.land header LEGOEV3_UART_MSG_TYPE_MASK =? LEGOEV3_UART_MSG_TYPE_INFO
    then size + 1 else size.

(** How [legoev3_uart_receive_buf] takes a header byte apart: message type,
    payload size and command (or mode). *)
Definition decode_header (header : Z) : Z * Z * Z :=
  (Z.land header LEGOEV3_UART_MSG_TYPE_MASK,
   LEGOEV3_UART_CMD_SIZE header,
   Z.land header LEGOEV3_UART_MSG_CMD_MASK).

(** [chksum = 0xFF; for (i = 0; i < n; i++) chksum ^= a[i];] *)
Fixpoint chksum_loop (n : nat) (i : Z) (chksum : Z) (a : list Z) : Z :=
  match n with
  | O => chksum
  | S n' => chksum_loop n' (i + 1) (Z.lxor chksum (byte_at a i)) a
  end.

Definition msg_chksum (a : list Z) (n : Z) : Z := chksum_loop (Z.to_nat n) 0 0xFF a.

(** ** Data model *)

(** [struct legoev3_uart_mode_info].  Modelled from the spec: the struct is
    declared in [legoev3_uart.h], which is not among the sources; the fields
    are the ones the driver reads and writes, [raw_data] is
    [LEGOEV3_UART_SENSOR_DATA_SIZE] bytes long.  The scaling fields hold the
    raw 32-bit words of the floats. *)
Record mode_info_t := MkModeInfo {
  name : list Z;
  raw_min : Z; raw_max : Z;
  pct_min : Z; pct_max : Z;
  si_min : Z; si_max : Z;
  units : list Z;
  data_sets : Z;
  format : Z;
  figures : Z;
  decimals : Z;
  raw_data : list Z
}.

Definition legoev3_uart_default_mode_info : mode_info_t :=
  {| name := []; raw_min := 0; raw_max := 0x447fc000;
     pct_min := 0; pct_max := 0x42c80000;
     si_min := 0; si_max := 0x3f800000;
     units := []; data_sets := 0; format := 0; figures := 4; decimals := 0;
     raw_data := replicate (Z.to_nat LEGOEV3_UART_SENSOR_DATA_SIZE) 0 |}.

Definition set_name v (m : mode_info_t) :=
  MkModeInfo v (raw_min m) (raw_max m) (pct_min m) (pct_max m) (si_min m) (si_max m)
    (units m) (data_sets m) (format m) (figures m) (decimals m) (raw_data m).
Definition set_raw v w (m : mode_info_t) :=
  MkModeInfo (name m) v w (pct_min m) (pct_max m) (si_min m) (si_max m)
    (units m) (data_sets m) (format m) (figures m) (decimals m) (raw_data m).
Definition set_pct v w (m : mode_info_t) :=
  MkModeInfo (name m) (raw_min m) (raw_max m) v w (si_min m) (si_max m)
    (units m) (data_sets m) (format m) (figures m) (decimals m) (raw_data m).
Definition set_si v w (m : mode_info_t) :=
  MkModeInfo (name m) (raw_min m) (raw_max m) (pct_min m) (pct_max m) v w
    (units m) (data_sets m) (format m) (figures m) (decimals m) (raw_data m).
Definition set_units v (m : mode_info_t) :=
  MkModeInfo (name m) (raw_min m) (raw_max m) (pct_min m) (pct_max m) (si_min m) (si_max m)
    v (data_sets m) (format m) (figures m) (decimals m) (raw_data m).
Definition set_data_sets v (m : mode_info_t) :=
  MkModeInfo (name m) (raw_min m) (raw_max m) (pct_min m) (pct_max m) (si_min m) (si_max m)
    (units m) v (format m) (figures m) (decimals m) (raw_data m).
Definition set_format v (m : mode_info_t) :=
  MkModeInfo (name m) (raw_min m) (raw_max m) (pct_min m) (pct_max m) (si_min m) (si_max m)
    (units m) (data_sets m) v (figures m) (decimals m) (raw_data m).
Definition set_figures v (m : mode_info_t) :=
  MkModeInfo (name m) (raw_min m) (raw_max m) (pct_min m) (pct_max m) (si_min m) (si_max m)
    (units m) (data_sets m) (format m) v (decimals m) (raw_data m).
Definition set_decimals v (m : mode_info_t) :=
  MkModeInfo (name m) (raw_min m) (raw_max m) (pct_min m) (pct_max m) (si_min m) (si_max m)
    (units m) (data_sets m) (format m) (figures m) v (raw_data m).
Definition set_raw_data v (m : mode_info_t) :=
  MkModeInfo (name m) (raw_min m) (raw_max m) (pct_min m) (pct_max m) (si_min m) (si_max m)
    (units m) (data_sets m) (format m) (figures m) (decimals m) v.

(** [struct legoev3_uart_port_data].  [send_ack_work] and
    [change_bitrate_work] hold the delay (in ms) of the queued work item, if
    any; [keep_alive_tasklet] tells whether the tasklet is scheduled;
    [last_err] is [None] for the NULL pointer left by [kzalloc]. *)
Record port_data := MkPort {
  send_ack_work : option Z;
  change_bitrate_work : option Z;
  keep_alive_tasklet : bool;
  mode_info : list mode_info_t;
  type : Z;
  num_modes : Z;
  num_view_modes : Z;
  mode : Z;
  new_baud_rate : Z;
  info_flags : Z;
  buffer : list Z;
  write_ptr : Z;
  last_err : option string;
  num_data_err : Z;
  synced : bool;
  info_done : bool;
  data_rec : bool
}.

Definition set_send_ack_work v (p : port_data) :=
  MkPort v (change_bitrate_work p) (keep_alive_tasklet p) (mode_info p) (type p)
    (num_modes p) (num_view_modes p) (mode p) (new_baud_rate p) (info_flags p) (buffer p)
    (write_ptr p) (last_err p) (num_data_err p) (synced p) (info_done p) (data_rec p).
Definition set_change_bitrate_work v (p : port_data) :=
  MkPort (send_ack_work p) v (keep_alive_tasklet p) (mode_info p) (type p)
    (num_modes p) (num_view_modes p) (mode p) (new_baud_rate p) (info_flags p) (buffer p)
    (write_ptr p) (last_err p) (num_data_err p) (synced p) (info_done p) (data_rec p).
Definition set_keep_alive_tasklet v (p : port_data) :=
  MkPort (send_ack_work p) (change_bitrate_work p) v (mode_info p) (type p)
    (num_modes p) (num_view_modes p) (mode p) (new_baud_rate p) (info_flags p) (buffer p)
    (write_ptr p) (last_err p) (num_data_err p) (synced p) (info_done p) (data_rec p).
Definition set_mode_info v (p : port_data) :=
  MkPort (send_ack_work p) (change_bitrate_work p) (keep_alive_tasklet p) v (type p)
    (num_modes p) (num_view_modes p) (mode p) (new_baud_rate p) (info_flags p) (buffer p)
    (write_ptr p) (last_err p) (num_data_err p) (synced p) (info_done p) (data_rec p).
Definition set_type v (p : port_data) :=
  MkPort (send_ack_work p) (change_bitrate_work p) (keep_alive_tasklet p) (mode_info p) v
    (num_modes p) (num_view_modes p) (mode p) (new_baud_rate p) (info_flags p) (buffer p)
    (write_ptr p) (last_err p) (num_data_err p) (synced p) (info_done p) (data_rec p).
Definition set_num_modes v (p : port_data) :=
  MkPort (send_ack_work p) (change_bitrate_work p) (keep_alive_tasklet p) (mode_info p) (type p)
    v (num_view_modes p) (mode p) (new_baud_rate p) (info_flags p) (buffer p)
    (write_ptr p) (last_err p) (num_data_err p) (synced p) (info_done p) (data_rec p).
Definition set_num_view_modes v (p : port_data) :=
  MkPort (send_ack_work p) (change_bitrate_work p) (keep_alive_tasklet p) (mode_info p) (type p)
    (num_modes p) v (mode p) (new_baud_rate p) (info_flags p) (buffer p)
    (write_ptr p) (last_err p) (num_data_err p) (synced p) (info_done p) (data_rec p).
Definition set_mode v (p : port_data) :=
  MkPort (send_ack_work p) (change_bitrate_work p) (keep_alive_tasklet p) (mode_info p) (type p)
    (num_modes p) (num_view_modes p) v (new_baud_rate p) (info_flags p) (buffer p)
    (write_ptr p) (last_err p) (num_data_err p) (synced p) (info_done p) (data_rec p).
Definition set_new_baud_rate v (p : port_data) :=
  MkPort (send_ack_work p) (change_bitrate_work p) (keep_alive_tasklet p) (mode_info p) (type p)
    (num_modes p) (num_view_modes p) (mode p) v (info_flags p) (buffer p)
    (write_ptr p) (last_err p) (num_data_err p) (synced p) (info_done p) (data_rec p).
Definition set_info_flags v (p : port_data) :=
  MkPort (send_ack_work p) (change_bitrate_work p) (keep_alive_tasklet p) (mode_info p) (type p)
    (num_modes p) (num_view_modes p) (mode p) (new_baud_rate p) v (buffer p)
    (write_ptr p) (last_err p) (num_data_err p) (synced p) (info_done p) (data_rec p).
Definition set_buffer v (p : port_data) :=
  MkPort (send_ack_work p) (change_bitrate_work p) (keep_alive_tasklet p) (mode_info p) (type p)
    (num_modes p) (num_view_modes p) (mode p) (new_baud_rate p) (info_flags p) v
    (write_ptr p) (last_err p) (num_data_err p) (synced p) (info_done p) (data_rec p).
Definition set_write_ptr v (p : port_data) :=
  MkPort (send_ack_work p) (change_bitrate_work p) (keep_alive_tasklet p) (mode_info p) (type p)
    (num_modes p) (num_view_modes p) (mode p) (new_baud_rate p) (info_flags p) (buffer p)
    v (last_err p) (num_data_err p) (synced p) (info_done p) (data_rec p).
Definition set_last_err (v : string) (p : port_data) :=
  MkPort (send_ack_work p) (change_bitrate_work p) (keep_alive_tasklet p) (mode_info p) (type p)
    (num_modes p) (num_view_modes p) (mode p) (new_baud_rate p) (info_flags p) (buffer p)
    (write_ptr p) (Some v) (num_data_err p) (synced p) (info_done p) (data_rec p).
Definition set_num_data_err v (p : port_data) :=
  MkPort (send_ack_work p) (change_bitrate_work p) (keep_alive_tasklet p) (mode_info p) (type p)
    (num_modes p) (num_view_modes p) (mode p) (new_baud_rate p) (info_flags p) (buffer p)
    (write_ptr p) (last_err p) v (synced p) (info_done p) (data_rec p).
Definition set_synced v (p : port_data) :=
  MkPort (send_ack_work p) (change_bitrate_work p) (keep_alive_tasklet p) (mode_info p) (type p)
    (num_modes p) (num_view_modes p) (mode p) (new_baud_rate p) (info_flags p) (buffer p)
    (write_ptr p) (last_err p) (num_data_err p) v (info_done p) (data_rec p).
Definition set_info_done v (p : port_data) :=
  MkPort (send_ack_work p) (change_bitrate_work p) (keep_alive_tasklet p) (mode_info p) (type p)
    (num_modes p) (num_view_modes p) (mode p) (new_baud_rate p) (info_flags p) (buffer p)
    (write_ptr p) (last_err p) (num_data_err p) (synced p) v (data_rec p).
Definition set_data_rec v (p : port_data) :=
  MkPort (send_ack_work p) (change_bitrate_work p) (keep_alive_tasklet p) (mode_info p) (type p)
    (num_modes p) (num_view_modes p) (mode p) (new_baud_rate p) (info_flags p) (buffer p)
    (write_ptr p) (last_err p) (num_data_err p) (synced p) (info_done p) v.

(** [port->mode_info[m]] and an update of that slot. *)
Definition mode_info_at (p : port_data) (m : Z) : mode_info_t :=
  default legoev3_uart_default_mode_info (mode_info p !! Z.to_nat m).

Definition upd_mode_info (m : Z) (f : mode_info_t -> mode_info_t) (p : port_data) :=
  set_mode_info (<[Z.to_nat m := f (mode_info_at p m)]> (mode_info p)) p.

(** [unsigned] arithmetic of [num_data_err], [u8] arithmetic of the counts. *)
Definition u32 (x : Z) : Z := x mod 2 ^ 32.
Definition u8 (x : Z) : Z := x mod 2 ^ 8.

(** [schedule_delayed_work]: a work item that is already queued stays as it is. *)
Definition schedule_delayed_work (w : option Z) (delay : Z) : option Z :=
  match w with
  | Some d => Some d
  | None => Some delay
  end.

(** [test_bit] and [set_bit] on [info_flags]; [test_and_set_bit] is the pair. *)
Definition test_bit (nr : Z) (flags : Z) : bool := Z.testbit flags nr.
Definition set_bit (nr : Z) (flags : Z) : Z := Z.lor flags (BIT nr).

(** The port as [legoev3_uart_open] leaves it: zeroed by [kzalloc], then
    [type] and [new_baud_rate] assigned. *)
Definition legoev3_uart_open : port_data :=
  {| send_ack_work := None; change_bitrate_work := None; keep_alive_tasklet := false;
     mode_info := replicate (Z.to_nat (LEGOEV3_UART_MODE_MAX + 1))
                    (MkModeInfo [] 0 0 0 0 0 0 [] 0 0 0 0
                       (replicate (Z.to_nat LEGOEV3_UART_SENSOR_DATA_SIZE) 0));
     type := LEGOEV3_UART_TYPE_UNKNOWN;
     num_modes := 0; num_view_modes := 0; mode := 0;
     new_baud_rate := LEGOEV3_UART_SPEED_MIN;
     info_flags := 0;
     buffer := replicate (Z.to_nat LEGOEV3_UART_BUFFER_SIZE) 0;
     write_ptr := 0; last_err := None; num_data_err := 0;
     synced := false; info_done := false; data_rec := false |}.

(** ** The receive path: [legoev3_uart_receive_buf] *)

(** Where control goes after the body of one pass of the message loop. *)
Inductive flow :=
| Next (p : port_data) (msg_size : Z)   (* falls to [err_bad_data_msg_checksum:] *)
| Skip (p : port_data) (msg_size : Z)   (* [goto err_split_sync_checksum] *)
| Invalid (p : port_data)               (* [goto err_invalid_state] *)
| Overrun.                              (* [memcpy] past the end of [raw_data] *)

(** What a call of [legoev3_uart_receive_buf] ends in.  [Done] is a call
    that returns without having written outside an array.  [Fault] is a
    call that copied a DATA payload of more than 32 bytes: the C function
    returns from it too, with whatever lies behind [raw_data] overwritten
    (see [msg_data]); no state is given for it here. *)
Inductive result :=
| Done (p : port_data)
| Fault       (* a write outside [raw_data]: undefined behaviour *)
| OutOfFuel.  (* never returned, see [receive_buf_total] *)

(** The assignments made when the TYPE command is found. *)
Definition sync_found (type' : Z) (p : port_data) : port_data :=
  let p := set_num_modes 1 p in
  let p := set_num_view_modes 1 p in
  let p := set_mode_info (replicate (Z.to_nat (LEGOEV3_UART_MODE_MAX + 1))
                            legoev3_uart_default_mode_info) p in
  let p := set_type type' p in
  let p := set_info_flags LEGOEV3_UART_INFO_FLAG_CMD_TYPE p in
  let p := set_synced true p in
  let p := set_info_done false p in
  let p := set_write_ptr 0 p in
  let p := set_data_rec false p in
  set_num_data_err 0 p.

(** [while (!port->synced)] for a port that is not synced.  The list is what
    is left of the delivery, [cp + i], so its length is [count - i]; the
    loop returns from the function ([None]) when [i + 2 >= count], and leaves
    with the synced port and the bytes after the triplet otherwise. *)
Fixpoint sync_scan `{Target} (p : port_data) (cp : list Z) : option (port_data * list Z) :=
  match cp with
  | cmd :: cp' =>
    match cp' with
    | type' :: chk :: rest =>
      if negb (cmd =? Z.lor LEGOEV3_UART_MSG_TYPE_CMD LEGOEV3_UART_CMD_TYPE)
      then sync_scan p cp'
      else if (type' =? 0) || (type' >? LEGOEV3_UART_TYPE_MAX)
      then sync_scan p cp'
      else
        let chksum := Z.lxor (Z.lxor 0xFF cmd) type' in
        if negb (chk =? chksum) then sync_scan p cp'
        else Some (sync_found type' p, rest)
    | _ => None
    end
  | [] => None
  end.

(** [err_invalid_state:] *)
Definition err_invalid_state (p : port_data) : port_data :=
  let p := set_synced false p in
  let p := set_new_baud_rate LEGOEV3_UART_SPEED_MIN p in
  set_change_bitrate_work
    (schedule_delayed_work (change_bitrate_work p) LEGOEV3_UART_SET_BITRATE_DELAY) p.

(** [while (i < count)]: append what is left of the delivery to the buffer;
    [inr] is the jump to [err_invalid_state] when the buffer is full. *)
Fixpoint append_loop (p : port_data) (cp : list Z) : port_data + port_data :=
  match cp with
  | [] => inl p
  | c :: cp' =>
    if write_ptr p >=? LEGOEV3_UART_BUFFER_SIZE then inr p
    else append_loop
           (set_write_ptr (write_ptr p + 1)
              (set_buffer (store_at (buffer p) (write_ptr p) c) p)) cp'
  end.

(** [port->last_err = msg; goto err_invalid_state;] *)
Definition invalid_state (msg : string) (p : port_data) : flow :=
  Invalid (set_last_err msg p).

Definition required_complete (p : port_data) : bool :=
  Z.land (info_flags p) LEGOEV3_UART_INFO_FLAG_REQUIRED =? LEGOEV3_UART_INFO_FLAG_REQUIRED.

(** [case LEGOEV3_UART_MSG_TYPE_SYS:] *)
Definition msg_sys (p : port_data) (cmd cmd2 msg_size : Z) : flow :=
  if cmd =? LEGOEV3_UART_SYS_SYNC then
    if (msg_size >? 1) && (Z.lxor cmd cmd2 =? 0xFF)
    then Next p (u8 (msg_size + 1))
    else Next p msg_size
  else if cmd =? LEGOEV3_UART_SYS_ACK then
    if num_modes p =? 0 then invalid_state "Received ACK before all mode INFO." p
    else if negb (required_complete p) then invalid_state "Did not receive all required INFO." p
    else
      let p := set_send_ack_work
                 (schedule_delayed_work (send_ack_work p) LEGOEV3_UART_SEND_ACK_DELAY) p in
      Next (set_info_done true p) msg_size
  else Next p msg_size.

(** [case LEGOEV3_UART_MSG_TYPE_CMD:] *)
Definition msg_cmd (p : port_data) (cmd cmd2 msg_size : Z) : flow :=
  if cmd =? LEGOEV3_UART_CMD_MODES then
    let dup := test_bit LEGOEV3_UART_INFO_BIT_CMD_MODES (info_flags p) in
    let p := set_info_flags (set_bit LEGOEV3_UART_INFO_BIT_CMD_MODES (info_flags p)) p in
    if dup then invalid_state "Received duplicate modes INFO." p
    else if (cmd2 =? 0) || (cmd2 >? LEGOEV3_UART_MODE_MAX)
    then invalid_state "Number of modes is out of range." p
    else
      let p := set_num_modes (u8 (cmd2 + 1)) p in
      let p := if msg_size >? 3
               then set_num_view_modes (u8 (byte_at (buffer p) 2 + 1)) p
               else set_num_view_modes (num_modes p) p in
      Next p msg_size
  else if cmd =? LEGOEV3_UART_CMD_SPEED then
    let dup := test_bit LEGOEV3_UART_INFO_BIT_CMD_SPEED (info_flags p) in
    let p := set_info_flags (set_bit LEGOEV3_UART_INFO_BIT_CMD_SPEED (info_flags p)) p in
    if dup then invalid_state "Received duplicate speed INFO." p
    else
      let speed := to_signed 32 (load_u32 (buffer p) 1) in
      if (speed <? LEGOEV3_UART_SPEED_MIN) || (speed >? LEGOEV3_UART_SPEED_MAX)
      then invalid_state "Speed is out of range." p
      else Next (set_new_baud_rate speed p) msg_size
  else invalid_state "Unknown command." p.

(** [case LEGOEV3_UART_INFO_NAME:] *)
Definition info_name (p : port_data) (mode' msg_size : Z) : flow :=
  let p := set_info_flags
             (Z.land (info_flags p) (Z.lnot LEGOEV3_UART_INFO_FLAG_ALL_INFO)) p in
  if (byte_at (buffer p) 2 <? 65) || (byte_at (buffer p) 2 >? 122)
  then invalid_state "Invalid name INFO." p
  else
    let p := set_buffer (store_at (buffer p) (msg_size - 1) 0) p in
    if strlen (drop 2 (buffer p)) >? LEGOEV3_UART_NAME_SIZE
    then invalid_state "Name is too long." p
    else
      let p := upd_mode_info mode'
                 (set_name (snprintf_s (LEGOEV3_UART_NAME_SIZE + 1) (drop 2 (buffer p)))) p in
      let p := set_mode mode' p in
      let p := set_info_flags (Z.lor (info_flags p) LEGOEV3_UART_INFO_FLAG_INFO_NAME) p in
      Next p msg_size.

(** The common shape of [case LEGOEV3_UART_INFO_RAW:], [..._PCT:] and
    [..._SI:]: the mode check, [test_and_set_bit], and the two words stored. *)
Definition info_scaling (bit : Z) (dup_msg : string)
    (store : Z -> Z -> mode_info_t -> mode_info_t)
    (p : port_data) (mode' msg_size : Z) : flow :=
  if negb (mode p =? mode') then invalid_state "Received INFO for incorrect mode." p
  else
    let dup := test_bit bit (info_flags p) in
    let p := set_info_flags (set_bit bit (info_flags p)) p in
    if dup then invalid_state dup_msg p
    else
      Next (upd_mode_info mode'
              (store (load_u32 (buffer p) 2) (load_u32 (buffer p) 6)) p) msg_size.

Definition info_raw :=
  info_scaling LEGOEV3_UART_INFO_BIT_INFO_RAW "Received duplicate raw scaling INFO." set_raw.
Definition info_pct :=
  info_scaling LEGOEV3_UART_INFO_BIT_INFO_PCT "Received duplicate percent scaling INFO." set_pct.
Definition info_si :=
  info_scaling LEGOEV3_UART_INFO_BIT_INFO_SI "Received duplicate SI scaling INFO." set_si.

(** [case LEGOEV3_UART_INFO_UNITS:] *)
Definition info_units `{Target} (p : port_data) (mode' msg_size : Z) : flow :=
  if negb (mode p =? mode') then invalid_state "Received INFO for incorrect mode." p
  else
    let dup := test_bit LEGOEV3_UART_INFO_BIT_INFO_UNITS (info_flags p) in
    let p := set_info_flags (set_bit LEGOEV3_UART_INFO_BIT_INFO_UNITS (info_flags p)) p in
    if dup then invalid_state "Received duplicate SI units INFO." p
    else
      let p := set_buffer (store_at (buffer p) (msg_size - 1) 0) p in
      Next (upd_mode_info mode'
              (set_units (snprintf_s (LEGOEV3_UART_UNITS_SIZE + 1) (drop 2 (buffer p)))) p)
           msg_size.

(** [case LEGOEV3_UART_INFO_FORMAT:] *)
Definition info_format (p : port_data) (mode' msg_size : Z) : flow :=
  if negb (mode p =? mode') then invalid_state "Received INFO for incorrect mode." p
  else
    let dup := test_bit LEGOEV3_UART_INFO_BIT_INFO_FORMAT (info_flags p) in
    let p := set_info_flags (set_bit LEGOEV3_UART_INFO_BIT_INFO_FORMAT (info_flags p)) p in
    if dup then invalid_state "Received duplicate format INFO." p
    else
      let p := upd_mode_info mode' (set_data_sets (byte_at (buffer p) 2)) p in
      if data_sets (mode_info_at p mode') =? 0 then invalid_state "Invalid number of data sets." p
      else if msg_size <? 7 then invalid_state "Invalid format message size." p
      else if negb (required_complete p) then invalid_state "Did not receive all required INFO." p
      else
        let p := upd_mode_info mode' (set_format (byte_at (buffer p) 3)) p in
        let p :=
          if negb (mode p =? 0) then
            let p := set_mode (mode p - 1) p in
            let p := upd_mode_info mode' (set_figures (byte_at (buffer p) 4)) p in
            upd_mode_info mode' (set_decimals (byte_at (buffer p) 5)) p
          else p in
        Next p msg_size.

(** [case LEGOEV3_UART_MSG_TYPE_INFO:] *)
Definition msg_info `{Target} (p : port_data) (mode' cmd2 msg_size : Z) : flow :=
  if cmd2 =? LEGOEV3_UART_INFO_NAME then info_name p mode' msg_size
  else if cmd2 =? LEGOEV3_UART_INFO_RAW then info_raw p mode' msg_size
  else if cmd2 =? LEGOEV3_UART_INFO_PCT then info_pct p mode' msg_size
  else if cmd2 =? LEGOEV3_UART_INFO_SI then info_si p mode' msg_size
  else if cmd2 =? LEGOEV3_UART_INFO_UNITS then info_units p mode' msg_size
  else if cmd2 =? LEGOEV3_UART_INFO_FORMAT then info_format p mode' msg_size
  else Next p msg_size.

(** [case LEGOEV3_UART_MSG_TYPE_DATA:].  The source copies [msg_size - 2]
    bytes into the 32-byte [raw_data] without looking at the length.  A
    payload of 64 or 128 bytes runs over the end of the field, into the
    slots that follow and, from the last slots, into [type], [num_modes],
    [mode], [new_baud_rate], [info_flags] and [buffer] behind the table;
    the C code then sets [data_rec], lowers the error count and goes on
    with the port as overwritten.  Which bytes land where depends on the
    layout of [struct legoev3_uart_mode_info], declared in a header that is
    not among the sources.  The test on the length below is not in the
    source: it marks that copy, and the model stops there with [Overrun]
    instead of inventing the overwritten port.  Every statement about the
    states a port goes through is therefore about the calls without such a
    copy; [process_msg_overrun] and [receive_buf_done_or_overrun] say
    which those are. *)
Definition msg_data (p : port_data) (mode' msg_size : Z) : flow :=
  if negb (info_done p) then invalid_state "Received DATA before INFO was complete." p
  else
    let p := set_mode mode' p in
    if msg_size - 2 >? LEGOEV3_UART_SENSOR_DATA_SIZE then Overrun
    else
      let p := upd_mode_info mode'
                 (fun m => set_raw_data
                             (memcpy (raw_data m) (drop 1 (buffer p)) (msg_size - 2)) m) p in
      let p := set_data_rec true p in
      let p := if negb (num_data_err p =? 0)
               then set_num_data_err (num_data_err p - 1) p else p in
      Next p msg_size.

(** The checksum test of the message loop: the message is refused when its
    last byte differs from the computed checksum and the sensor type is not
    29 and the first byte is not [0xDC]. *)
Definition chksum_refused (p : port_data) (msg_size : Z) : bool :=
  (msg_size >? 1)
  && negb (msg_chksum (buffer p) (msg_size - 1) =? byte_at (buffer p) (msg_size - 1))
  && negb (type p =? 29)
  && negb (byte_at (buffer p) 0 =? 0xDC).

(** One pass of the message loop, up to the label
    [err_bad_data_msg_checksum]. *)
Definition process_msg `{Target} (p : port_data) (msg_size : Z) : flow :=
  if byte_at (buffer p) 0 =? 0xFF then Skip p 1
  else
    let msg_type := Z.land (byte_at (buffer p) 0) LEGOEV3_UART_MSG_TYPE_MASK in
    let cmd := Z.land (byte_at (buffer p) 0) LEGOEV3_UART_MSG_CMD_MASK in
    let mode' := cmd in
    let cmd2 := byte_at (buffer p) 1 in
    if chksum_refused p msg_size then
      let p := set_last_err "Bad checksum." p in
      if info_done p then Next (set_num_data_err (u32 (num_data_err p + 1)) p) msg_size
      else Invalid p
    else if msg_type =? LEGOEV3_UART_MSG_TYPE_SYS then msg_sys p cmd cmd2 msg_size
    else if msg_type =? LEGOEV3_UART_MSG_TYPE_CMD then msg_cmd p cmd cmd2 msg_size
    else if msg_type =? LEGOEV3_UART_MSG_TYPE_INFO then msg_info p mode' cmd2 msg_size
    else msg_data p mode' msg_size.

(** [for (i = 0; i + msg_size < port->write_ptr; i++)
       port->buffer[i] = port->buffer[i + msg_size];]
    run for [n] passes from index [i]. *)
Fixpoint shift_loop (n : nat) (i msg_size : Z) (buf : list Z) : list Z :=
  match n with
  | O => buf
  | S n' => shift_loop n' (i + 1) msg_size (store_at buf i (byte_at buf (i + msg_size)))
  end.

(** [err_split_sync_checksum:] the loop above makes [write_ptr - msg_size]
    passes (none when that is negative) and [write_ptr] takes the final [i]. *)
Definition drop_msg (p : port_data) (msg_size : Z) : port_data :=
  let n := Z.to_nat (write_ptr p - msg_size) in
  set_write_ptr (Z.of_nat n) (set_buffer (shift_loop n 0 msg_size (buffer p)) p).

Definition over_threshold (p : port_data) : bool :=
  info_done p && (num_data_err p >? LEGOEV3_UART_MAX_DATA_ERR).

(** [while ((msg_size = legoev3_uart_msg_size(port->buffer[0])) <= port->write_ptr)] *)
Fixpoint process_loop `{Target} (fuel : nat) (p : port_data) : result :=
  match fuel with
  | O => OutOfFuel
  | S fuel' =>
    let msg_size := legoev3_uart_msg_size (byte_at (buffer p) 0) in
    if msg_size <=? write_ptr p then
      match process_msg p msg_size with
      | Next p' msg_size' =>
        if over_threshold p' then Done (err_invalid_state p')
        else process_loop fuel' (drop_msg p' msg_size')
      | Skip p' msg_size' => process_loop fuel' (drop_msg p' msg_size')
      | Invalid p' => Done (err_invalid_state p')
      | Overrun => Fault
      end
    else Done p
  end.

(** [legoev3_uart_receive_buf(tty, cp, fp, count)] on the port of [tty]. *)
Definition legoev3_uart_receive_buf `{Target} (p : port_data) (cp : list Z) : result :=
  match (if synced p then Some (p, cp) else sync_scan p cp) with
  | None => Done p
  | Some (p, rest) =>
    match append_loop p rest with
    | inr p => Done (err_invalid_state p)
    | inl p => process_loop (S (Z.to_nat (write_ptr p))) p
    end
  end.

(** A sequence of deliveries, one call of the receive callback each. *)
Fixpoint receive_all `{Target} (p : port_data) (deliveries : list (list Z)) : result :=
  match deliveries with
  | [] => Done p
  | cp :: more =>
    match legoev3_uart_receive_buf p cp with
    | Done p' => receive_all p' more
    | r => r
    end
  end.

(** ** The keep-alive timer *)

Inductive hrtimer_restart := HRTIMER_NORESTART | HRTIMER_RESTART.

Definition legoev3_uart_keep_alive_timer_callback (p : port_data)
  : port_data * hrtimer_restart :=
  if negb (synced p) || negb (info_done p) then (p, HRTIMER_NORESTART)
  else
    let p := if negb (data_rec p)
             then set_num_data_err (u32 (num_data_err p + 1))
                    (set_last_err "No data since last keep-alive." p)
             else p in
    let p := set_data_rec false p in
    let p := set_keep_alive_tasklet true p in
    (p, if num_data_err p >? LEGOEV3_UART_MAX_DATA_ERR
        then HRTIMER_NORESTART else HRTIMER_RESTART).

(** ** The sysfs attributes *)

(** What a [show] or [store] callback returns: the text it printed (here
    the integer printed with ["%d\n"]) or [-errno]. *)
Inductive shown :=
| Printed (v : Z)
| Errno (e : Z).

Definition legoev3_uart_get_mode (p : port_data) : Z := mode p.

Definition legoev3_uart_raw_s8_value (p : port_data) (index : Z) : Z :=
  let mode' := legoev3_uart_get_mode p in
  to_signed 8 (byte_at (raw_data (mode_info_at p mode')) index).

Definition legoev3_uart_raw_s16_value (p : port_data) (index : Z) : Z :=
  let mode' := legoev3_uart_get_mode p in
  to_signed 16 (load_u16 (raw_data (mode_info_at p mode')) (index * 2)).

Definition legoev3_uart_raw_s32_value (p : port_data) (index : Z) : Z :=
  let mode' := legoev3_uart_get_mode p in
  to_signed 32 (load_u32 (raw_data (mode_info_at p mode')) (index * 4)).

(** [legoev3_uart_ftoi] is defined in a file that is not among the sources;
    the value reader takes it as an argument. *)
Definition legoev3_uart_raw_float_value (ftoi : Z -> Z -> Z) (p : port_data) (index : Z) : Z :=
  let mode' := legoev3_uart_get_mode p in
  ftoi (load_u32 (raw_data (mode_info_at p mode')) (index * 4))
       (decimals (mode_info_at p mode')).

Definition legoev3_uart_show_value (ftoi : Z -> Z -> Z) (p : port_data) (index : Z) : shown :=
  if index >=? data_sets (mode_info_at p (mode p)) then Errno ENXIO
  else
    let fmt := format (mode_info_at p (mode p)) in
    if fmt =? LEGOEV3_UART_DATA_8 then Printed (legoev3_uart_raw_s8_value p index)
    else if fmt =? LEGOEV3_UART_DATA_16 then Printed (legoev3_uart_raw_s16_value p index)
    else if fmt =? LEGOEV3_UART_DATA_32 then Printed (legoev3_uart_raw_s32_value p index)
    else if fmt =? LEGOEV3_UART_DATA_FLOAT
    then Printed (legoev3_uart_raw_float_value ftoi p index)
    else Errno ENXIO.

(** [legoev3_uart_set_mode] for a tty that is there: the bytes handed to
    the tty's [write], or [-EINVAL] when nothing is handed over.  What the
    call returns after the write (0, or the negative result of [write]) and
    the [-ENODEV] of a missing tty are in [Tty.legoev3_uart_set_mode]. *)
Definition legoev3_uart_set_mode `{Target} (p : port_data) (mode' : Z) : list Z + Z :=
  let data_size := 3 in
  if mode' >=? num_modes p then inr EINVAL
  else
    let d0 := legoev3_uart_set_msg_hdr LEGOEV3_UART_MSG_TYPE_CMD (data_size - 2)
                LEGOEV3_UART_CMD_SELECT in
    let d1 := mode' in
    let d2 := Z.lxor (Z.lxor 0xFF d0) d1 in
    inl [d0; d1; d2].

(** [legoev3_uart_write_bin_data]: the bytes handed to the tty's [write]
    (none for an empty write), or [-EINVAL] when nothing is handed over.
    The value returned after the write, [count] or the negative result of
    [write], is not part of this definition. *)
Definition legoev3_uart_write_bin_data `{Target} (buf : list Z) (off : Z) : list Z + Z :=
  let count := Z.of_nat (length buf) in
  if negb (off =? 0) || (count >? 32) then inr EINVAL
  else if count =? 0 then inl []
  else
    let data := 0 :: memcpy (replicate 32 0) buf count ++ [0] in
    let size := if count <=? 2 then count
                else if count <=? 4 then 4
                else if count <=? 8 then 8
                else if count <=? 16 then 16
                else 32 in
    let data := store_at data 0
                  (legoev3_uart_set_msg_hdr LEGOEV3_UART_MSG_TYPE_CMD size
                     LEGOEV3_UART_CMD_WRITE) in
    let data := store_at data (size + 1) (msg_chksum data (size + 1)) in
    inl (take (Z.to_nat (size + 2)) data).

(** ** Sessions *)

(** The driver keeps no phase; the spec's Running is a synced port whose
    handshake was acknowledged. *)
Definition running (p : port_data) : bool := synced p && info_done p.

(** The states a port goes through: from [legoev3_uart_open], by
    deliveries to the receive callback and by keep-alive ticks, as long as
    no call copies a DATA payload of more than 32 bytes over the end of
    [raw_data] (a call that does so is [Fault], not [Done]; the port it
    leaves behind is not among these states). *)
Inductive reachable `{Target} : port_data -> Prop :=
| reach_open : reachable legoev3_uart_open
| reach_receive p cp p' :
    reachable p -> legoev3_uart_receive_buf p cp = Done p' -> reachable p'
| reach_tick p :
    reachable p -> reachable (fst (legoev3_uart_keep_alive_timer_callback p)).

(** ** A sensor on the wire *)

(** The EV3 itself: the 4-byte [unsigned long] of its ARM9, and for the
    two constants of the missing header the values of the EV3 firmware
    (sensor types up to 101, units of 4 characters).  What is stated at
    this instance below needs no more of them than that the sensor types 16
    and 29 are admissible. *)
Definition ev3 : Target :=
  {| LEGOEV3_UART_TYPE_MAX := 101;
     LEGOEV3_UART_UNITS_SIZE := 4;
     sizeof_unsigned_long := 4 |}.

(** The same sensor constants on a build with an 8-byte [unsigned long]. *)
Definition lp64 : Target :=
  {| LEGOEV3_UART_TYPE_MAX := 101;
     LEGOEV3_UART_UNITS_SIZE := 4;
     sizeof_unsigned_long := 8 |}.

(** A frame: the bytes followed by their checksum. *)
Definition with_chksum (bytes : list Z) : list Z :=
  bytes ++ [msg_chksum bytes (Z.of_nat (length bytes))].

(** The handshake of a sensor of type [t] with two modes, named T and U,
    each with one S8 value, 5 figures and 2 decimals: TYPE, MODES, SPEED
    (57600 baud), then NAME and FORMAT for mode 1 and for mode 0, then ACK. *)
Definition handshake (t : Z) : list (list Z) :=
  [ with_chksum [0x40; t];
    with_chksum [0x49; 1; 1];
    with_chksum [0x52; 0x00; 0xE1; 0x00; 0x00];
    with_chksum [0x81; 0x00; 0x55];
    with_chksum [0x91; 0x80; 1; 0; 5; 2];
    with_chksum [0x80; 0x00; 0x54];
    with_chksum [0x90; 0x80; 1; 0; 5; 2];
    [0x04] ].

(** The port when the handshake has gone through. *)
Definition after_handshake (t : Z) : result :=
  @receive_all ev3 legoev3_uart_open (handshake t).

Definition port_of (r : result) : port_data :=
  match r with
  | Done p => p
  | _ => legoev3_uart_open
  end.

(** A DATA frame of mode 0 carrying the value 42, with its checksum, and
    the same frame with the last byte wrong. *)
Definition good_data : list Z := with_chksum [0xC0; 42].
Definition bad_data : list Z := [0xC0; 42; 0x00].

(** A DATA frame of mode 4 with eight payload bytes (header [0xDC]) and a
    wrong last byte. *)
Definition bad_data_dc : list Z := [0xDC; 1; 2; 3; 4; 5; 6; 7; 8; 0x00].

(** A DATA frame of mode 0 with 64 payload bytes (size exponent 6), with
    its checksum. *)
Definition long_data : list Z := with_chksum (0xF0 :: replicate 64 0x11).

(** A DATA frame with mode bits 5, with its checksum. *)
Definition data_mode_5 : list Z := with_chksum [0xC5; 42].

(** A statement about the port a call returns. *)
Definition ends_with (r : result) (P : port_data -> Prop) : Prop :=
  match r with
  | Done q => P q
  | _ => False
  end.

(** ** Notions used in the statements *)

(** The current mode is an index of the mode table. *)
Definition valid_mode (p : port_data) : Prop := 0 <= mode p <= LEGOEV3_UART_MODE_MAX.

(** The port a pass of the message loop hands on. *)
Definition flow_port (f : flow) : option port_data :=
  match f with
  | Next p _ | Skip p _ | Invalid p => Some p
  | Overrun => None
  end.

(** The port as the message loop finds it after the append loop has put
    the delivery [f] into an empty buffer. *)
Definition framed (p : port_data) (f : list Z) : port_data :=
  set_write_ptr (Z.of_nat (length f))
    (set_buffer (f ++ drop (length f) (buffer p)) p).

(** Nothing is buffered, and the buffer is the 256-byte array. *)
Definition empty_buffer (p : port_data) : Prop :=
  write_ptr p = 0 /\ length (buffer p) = Z.to_nat LEGOEV3_UART_BUFFER_SIZE.

(** The delivery is one message, as long as its header announces. *)
Definition whole_message (f : list Z) : Prop :=
  Z.of_nat (length f) = legoev3_uart_msg_size (byte_at f 0).

(** A complete DATA frame whose last byte is not its checksum, other than
    the two headers the message loop lets through (0xFF and 0xDC). *)
Definition wrong_chksum_data (f : list Z) : bool :=
  let header := byte_at f 0 in
  let size := legoev3_uart_msg_size header in
  (Z.land header LEGOEV3_UART_MSG_TYPE_MASK =? LEGOEV3_UART_MSG_TYPE_DATA)
  && (Z.of_nat (length f) =? size)
  && negb (msg_chksum f (size - 1) =? byte_at f (size - 1))
  && negb (header =? 0xFF) && negb (header =? 0xDC).

(** The spec's bad data events: a DATA frame with a wrong checksum
    delivered whole, or a keep-alive tick that finds no data received. *)
Inductive bad_event :=
| BadData (f : list Z)
| KeepAliveMiss.

(** The frame of a [BadData] event is a wrong-checksum DATA frame. *)
Definition is_bad_event (e : bad_event) : bool :=
  match e with
  | BadData f => wrong_chksum_data f
  | KeepAliveMiss => true
  end.

(** An event is a call of the receive callback or of the timer callback. *)
Definition apply_event `{Target} (p : port_data) (e : bad_event) : result :=
  match e with
  | BadData f => legoev3_uart_receive_buf p f
  | KeepAliveMiss => Done (fst (legoev3_uart_keep_alive_timer_callback p))
  end.

(** Events one after the other. *)
Fixpoint run_events `{Target} (p : port_data) (es : list bad_event) : result :=
  match es with
  | [] => Done p
  | e :: es' =>
    match apply_event p e with
    | Done p' => run_events p' es'
    | r => r
    end
  end.

(** A running session between messages, with [n] data errors counted, no
    data seen since the last tick, and a sensor other than type 29. *)
Definition errs (n : Z) (p : port_data) : Prop :=
  running p = true /\ empty_buffer p /\ type p <> 29
  /\ data_rec p = false /\ num_data_err p = n.

(** What a bad data event below the threshold leaves untouched. *)
Definition same_link (p q : port_data) : Prop :=
  new_baud_rate q = new_baud_rate p
  /\ change_bitrate_work q = change_bitrate_work p.

(** A SYS, CMD or INFO message. *)
Definition control_header (header : Z) : Prop :=
  Z.land header LEGOEV3_UART_MSG_TYPE_MASK = LEGOEV3_UART_MSG_TYPE_SYS
  \/ Z.land header LEGOEV3_UART_MSG_TYPE_MASK = LEGOEV3_UART_MSG_TYPE_CMD
  \/ Z.land header LEGOEV3_UART_MSG_TYPE_MASK = LEGOEV3_UART_MSG_TYPE_INFO.

(** A complete DATA frame that gets past the checksum test on port [p]:
    its checksum is right, or the sensor type is 29, or its header is
    [0xDC]. *)
Definition data_through (p : port_data) (f : list Z) : bool :=
  let header := byte_at f 0 in
  let size := legoev3_uart_msg_size header in
  (Z.land header LEGOEV3_UART_MSG_TYPE_MASK =? LEGOEV3_UART_MSG_TYPE_DATA)
  && (Z.of_nat (length f) =? size)
  && negb (header =? 0xFF)
  && ((msg_chksum f (size - 1) =? byte_at f (size - 1))
      || (type p =? 29) || (header =? 0xDC)).

(** Such a frame whose payload fits [raw_data]. *)
Definition accepted_data (p : port_data) (f : list Z) : bool :=
  data_through p f
  && (legoev3_uart_msg_size (byte_at f 0) - 2 <=? LEGOEV3_UART_SENSOR_DATA_SIZE).

(** The TYPE command of a sensor of type [t]. *)
Definition type_triplet (t : Z) : list Z :=
  [Z.lor LEGOEV3_UART_MSG_TYPE_CMD LEGOEV3_UART_CMD_TYPE; t;
   Z.lxor (Z.lxor 0xFF (Z.lor LEGOEV3_UART_MSG_TYPE_CMD LEGOEV3_UART_CMD_TYPE)) t].

(** A delivery that holds a whole TYPE command of an admissible type. *)
Definition has_triplet `{Target} (cp : list Z) : Prop :=
  exists pre t post,
    cp = pre ++ type_triplet t ++ post /\ t <> 0 /\ t <= LEGOEV3_UART_TYPE_MAX.

(** A pass of the message loop at which the copy of the DATA case runs
    over the end of [raw_data]: a DATA header, past the checksum test, with
    the handshake done and more than 32 bytes of payload announced. *)
Definition oversized_data (p : port_data) (msg_size : Z) : Prop :=
  byte_at (buffer p) 0 <> 0xFF
  /\ chksum_refused p msg_size = false
  /\ Z.land (byte_at (buffer p) 0) LEGOEV3_UART_MSG_TYPE_MASK = LEGOEV3_UART_MSG_TYPE_DATA
  /\ info_done p = true
  /\ LEGOEV3_UART_SENSOR_DATA_SIZE < msg_size - 2.

(** The port on which the message loop of a call starts: after the sync
    scan, if the port was not synced, and the append loop; none when the
    call returns or gives the session up before the message loop. *)
Definition loop_entry `{Target} (p : port_data) (cp : list Z) : option port_data :=
  match (if synced p then Some (p, cp) else sync_scan p cp) with
  | None => None
  | Some (p1, rest) =>
    match append_loop p1 rest with
    | inl p2 => Some p2
    | inr _ => None
    end
  end.

(** [loop_pass p q]: the message loop started on [p] begins a pass on
    [q]. *)
Inductive loop_pass `{Target} : port_data -> port_data -> Prop :=
| pass_first p :
    legoev3_uart_msg_size (byte_at (buffer p) 0) <= write_ptr p ->
    loop_pass p p
| pass_next p p' ms' q :
    legoev3_uart_msg_size (byte_at (buffer p) 0) <= write_ptr p ->
    process_msg p (legoev3_uart_msg_size (byte_at (buffer p) 0)) = Next p' ms' ->
    over_threshold p' = false ->
    loop_pass (drop_msg p' ms') q -> loop_pass p q
| pass_skip p p' ms' q :
    legoev3_uart_msg_size (byte_at (buffer p) 0) <= write_ptr p ->
    process_msg p (legoev3_uart_msg_size (byte_at (buffer p) 0)) = Skip p' ms' ->
    loop_pass (drop_msg p' ms') q -> loop_pass p q.

(** ** The port on a real wire *)

(** What the tty hands to the receive callback: unsigned chars. *)
Definition is_byte (b : Z) : Prop := 0 <= b < 256.

(** The same as a test, for one delivery and for a list of them. *)
Definition all_bytes (cp : list Z) : bool :=
  forallb (fun b => (0 <=? b) && (b <? 256)) cp.

Definition all_deliveries (ds : list (list Z)) : bool := forallb all_bytes ds.

(** The states a port goes through when every delivery is made of bytes,
    as long as no call copies a DATA payload of more than 32 bytes over the
    end of [raw_data]: such a call is [Fault], not [Done], and what the C
    code overwrites in it depends on the memory layout (see [msg_data]).
    By [on_wire_next] that is all these states leave out: a delivery of
    bytes to one of them ends in another, unless a pass of its message
    loop accepts such a frame. *)
Inductive on_wire `{Target} : port_data -> Prop :=
| wire_open : on_wire legoev3_uart_open
| wire_receive p cp p' :
    on_wire p -> Forall is_byte cp ->
    legoev3_uart_receive_buf p cp = Done p' -> on_wire p'
| wire_tick p :
    on_wire p -> on_wire (fst (legoev3_uart_keep_alive_timer_callback p)).

(** The arrays of the port have the sizes of their C declarations and the
    receive buffer holds bytes. *)
Definition well_shaped (p : port_data) : Prop :=
  length (buffer p) = Z.to_nat LEGOEV3_UART_BUFFER_SIZE
  /\ Forall is_byte (buffer p)
  /\ 0 <= write_ptr p <= LEGOEV3_UART_BUFFER_SIZE
  /\ length (mode_info p) = Z.to_nat (LEGOEV3_UART_MODE_MAX + 1)
  /\ Forall (fun m => length (raw_data m) = Z.to_nat LEGOEV3_UART_SENSOR_DATA_SIZE)
       (mode_info p).

(** The port [p], whose buffer was empty, after the bytes [pre] have been
    appended to it. *)
Definition buffered (p : port_data) (pre : list Z) : port_data :=
  set_write_ptr (Z.of_nat (length pre))
    (set_buffer (pre ++ drop (length pre) (buffer p)) p).


(** ** More sysfs attributes *)

(** [legoev3_uart_read_bin_data(file, kobj, attr, buf, off, count)]: the
    caller's buffer afterwards and the value returned.  [attr->size] is the
    [.size] of [dev_bin_attr_bin_data], [LEGOEV3_UART_SENSOR_DATA_SIZE].
    The copy goes to [buf + off] and starts at the first byte of
    [raw_data]. *)
Definition legoev3_uart_read_bin_data (p : port_data) (buf : list Z) (off count : Z)
  : list Z * Z :=
  let size := LEGOEV3_UART_SENSOR_DATA_SIZE in
  if (off >=? size) || (count =? 0) then (buf, 0)
  else
    let size := size - off in
    let size := if count <? size then count else size in
    (take (Z.to_nat off) buf
       ++ memcpy (drop (Z.to_nat off) buf) (raw_data (mode_info_at p (mode p))) size,
     size).

(** [legoev3_uart_show_bin_data_format]: the text printed with ["%s\n"],
    or [-errno]. *)
Definition legoev3_uart_show_bin_data_format (p : port_data) : string + Z :=
  let fmt := format (mode_info_at p (mode p)) in
  if fmt =? LEGOEV3_UART_DATA_8 then inl "s8"%string
  else if fmt =? LEGOEV3_UART_DATA_16 then inl "s16"%string
  else if fmt =? LEGOEV3_UART_DATA_32 then inl "s32"%string
  else if fmt =? LEGOEV3_UART_DATA_FLOAT then inl "float"%string
  else inr ENXIO.

(** [for (i = 0; i < port->num_modes; i++)] of [legoev3_uart_show_mode], for
    [n] passes from index [i]; [out] is what has been printed to [buf] so
    far, so [count] is its length. *)
Fixpoint show_mode_loop (n : nat) (i : Z) (p : port_data) (out : list Z) : list Z :=
  match n with
  | O => out
  | S n' =>
    let out := if i =? mode p then out ++ [91] else out in
    let out := out ++ name (mode_info_at p i) in
    let out := if i =? mode p then out ++ [93] else out in
    let out := out ++ [32] in
    show_mode_loop n' (i + 1) p out
  end.

(** [legoev3_uart_show_mode]: the characters printed (their number is the
    value returned), or [-errno]. *)
Definition legoev3_uart_show_mode (p : port_data) : list Z + Z :=
  let out := show_mode_loop (Z.to_nat (num_modes p)) 0 p [] in
  let count := Z.of_nat (length out) in
  if count =? 0 then inr ENXIO
  else inl (store_at out (count - 1) 10).

Definition ENODEV : Z := 19.

Module Tty.

(** [legoev3_uart_set_mode(tty, mode)], the whole call: the frames handed
    to the tty's [write] and the value returned.  [tty] tells whether the
    pointer is not NULL; [write] is what [tty->ops->write] returns for the
    bytes it is given (the tty driver is not among the sources). *)
Definition legoev3_uart_set_mode `{Target} (tty : bool) (write : list Z -> Z)
    (p : port_data) (mode' : Z) : list (list Z) * Z :=
  let data_size := 3 in
  if negb tty then ([], - ENODEV)
  else if mode' >=? num_modes p then ([], - EINVAL)
  else
    let d0 := legoev3_uart_set_msg_hdr LEGOEV3_UART_MSG_TYPE_CMD (data_size - 2)
                LEGOEV3_UART_CMD_SELECT in
    let d1 := mode' in
    let d2 := Z.lxor (Z.lxor 0xFF d0) d1 in
    let ret := write [d0; d1; d2] in
    ([[d0; d1; d2]], if ret <? 0 then ret else 0).

End Tty.

(** [for (i = 0; i < port->num_modes; i++)] of [legoev3_uart_store_mode],
    for [n] passes from index [i]: the frames handed to the tty's [write]
    and the value returned.  [tty] and [write] are those of
    [Tty.legoev3_uart_set_mode], [tty] standing for [port->tty].
    [sysfs_streq] (lib/string.c) is not among the sources; the loop takes
    it as an argument. *)
Fixpoint store_mode_loop `{Target} (streq : list Z -> list Z -> bool)
    (tty : bool) (write : list Z -> Z)
    (n : nat) (i : Z) (p : port_data) (buf : list Z) (count : Z) : list (list Z) * Z :=
  match n with
  | O => ([], - EINVAL)
  | S n' =>
    if streq buf (name (mode_info_at p i)) then
      let (sent, err) := Tty.legoev3_uart_set_mode tty write p i in
      (sent, if err =? 0 then count else err)
    else store_mode_loop streq tty write n' (i + 1) p buf count
  end.

(** [legoev3_uart_store_mode(dev, attr, buf, count)]. *)
Definition legoev3_uart_store_mode `{Target} (streq : list Z -> list Z -> bool)
    (tty : bool) (write : list Z -> Z)
    (p : port_data) (buf : list Z) (count : Z) : list (list Z) * Z :=
  store_mode_loop streq tty write (Z.to_nat (num_modes p)) 0 p buf count.

(** The SPEED command that carries [s] as a little-endian 32-bit word, with
    its checksum. *)
Definition speed_frame (s : Z) : list Z :=
  with_chksum [0x52; Z.land s 255; Z.land (Z.shiftr s 8) 255;
               Z.land (Z.shiftr s 16) 255; Z.land (Z.shiftr s 24) 255].

(** What a port on the wire owes to its handshake: while it is synced, the
    flag of the MODES command stands for 2 to 8 modes; and once [info_done]
    is set, there are 2 to 8 modes, the flags of the TYPE and of the MODES
    command are set and the acknowledge work has been scheduled. *)
Definition handshake_kept (p : port_data) : Prop :=
  (synced p = true ->
   forall k, k = LEGOEV3_UART_INFO_BIT_CMD_MODES -> Z.testbit (info_flags p) k = true ->
   2 <= num_modes p <= 8)
  /\ (info_done p = true ->
      2 <= num_modes p <= 8
      /\ (forall k, 0 <= k <= 1 -> Z.testbit (info_flags p) k = true)
      /\ send_ack_work p <> None).

(** * Properties *)

(** Case analysis over every path through the body of the message loop. *)
Ltac unfold_handlers :=
  unfold process_msg, msg_sys, msg_cmd, msg_info, msg_data, info_name,
    info_raw, info_pct, info_si, info_scaling, info_units, info_format,
    invalid_state in *.

Ltac flow_paths :=
  unfold_handlers;
  repeat match goal with
         | H : context [if ?b then _ else _] |- _ => destruct b eqn:?
         end;
  try discriminate;
  repeat match goal with
         | H : Next _ _ = Next _ _ |- _ => injection H as <- <-
         | H : Skip _ _ = Skip _ _ |- _ => injection H as <- <-
         | H : Invalid _ = Invalid _ |- _ => injection H as <-
         end.

(** ** Header bytes and message sizes *)

Lemma land_7_range (x : Z) : 0 <= Z.land x 0x7 <= 7.
Proof.
  change (Z.land x 0x7) with (Z.land x (Z.ones 3)).
  rewrite Z.land_ones by lia. change (2 ^ 3) with 8.
  pose proof (Z.mod_pos_bound x 8). lia.
Qed.

Lemma cmd_size_range (header : Z) : 1 <= LEGOEV3_UART_CMD_SIZE header <= 128.
Proof.
  unfold LEGOEV3_UART_CMD_SIZE.
  pose proof (land_7_range (Z.shiftr header 3)) as Hr.
  rewrite Z.shiftl_mul_pow2 by lia.
  assert (2 ^ 0 <= 2 ^ Z.land (Z.shiftr header 3) 7 <= 2 ^ 7)
    by (split; apply Z.pow_le_mono_r; lia).
  change (2 ^ 0) with 1 in *. change (2 ^ 7) with 128 in *. lia.
Qed.

Lemma msg_size_range (header : Z) : 1 <= legoev3_uart_msg_size header <= 131.
Proof.
  unfold legoev3_uart_msg_size. pose proof (cmd_size_range header).
  repeat case_match; lia.
Qed.

(** A SYS header announces a one-byte message. *)
Lemma msg_size_sys (header : Z) :
  Z.land header LEGOEV3_UART_MSG_TYPE_MASK = LEGOEV3_UART_MSG_TYPE_SYS ->
  legoev3_uart_msg_size header = 1.
Proof. unfold legoev3_uart_msg_size. intros ->. reflexivity. Qed.

(** ** One pass of the message loop *)

(** The body never moves [write_ptr]; it hands on the message size it was
    given, one more after a SYNC with its checksum, or 1 for a stray 0xFF. *)
Lemma process_msg_next `{Target} (p p' : port_data) (ms ms' : Z) :
  process_msg p ms = Next p' ms' ->
  write_ptr p' = write_ptr p /\ (ms' = ms \/ ms' = u8 (ms + 1)).
Proof. intros Hm. flow_paths; simpl; auto. Qed.

Lemma process_msg_skip `{Target} (p p' : port_data) (ms ms' : Z) :
  process_msg p ms = Skip p' ms' -> write_ptr p' = write_ptr p /\ ms' = 1.
Proof. intros Hm. flow_paths; simpl; auto. Qed.

(** ** The current mode is an index of the mode table *)

Lemma process_msg_valid_mode `{Target} (p q : port_data) (ms : Z) :
  flow_port (process_msg p ms) = Some q -> valid_mode p -> valid_mode q.
Proof.
  unfold valid_mode, LEGOEV3_UART_MODE_MAX. intros Hm Hp.
  pose proof (land_7_range (byte_at (buffer p) 0)) as Hr.
  unfold LEGOEV3_UART_MSG_CMD_MASK in *.
  flow_paths; simpl in Hm; try discriminate; injection Hm as <-; simpl;
    try assumption; try lia.
  all: rewrite ?negb_true_iff, ?Z.eqb_neq in *; simpl in *; lia.
Qed.

Lemma drop_msg_mode (p : port_data) (ms : Z) : mode (drop_msg p ms) = mode p.
Proof. reflexivity. Qed.

Lemma err_invalid_state_mode (p : port_data) : mode (err_invalid_state p) = mode p.
Proof. reflexivity. Qed.

Lemma process_loop_valid_mode `{Target} (fuel : nat) (p q : port_data) :
  process_loop fuel p = Done q -> valid_mode p -> valid_mode q.
Proof.
  revert p. induction fuel as [|fuel IH]; intros p; simpl; [discriminate|].
  destruct (_ <=? _); [|intros [= <-]; auto].
  destruct (process_msg p _) as [p' ms'|p' ms'|p'|] eqn:Hm; intros Hd Hp;
    try discriminate;
    assert (valid_mode p') by (eapply process_msg_valid_mode; [rewrite Hm|]; eauto).
  - destruct (over_threshold p'); [injection Hd as <-; assumption|].
    eapply IH; eauto.
  - eapply IH; eauto.
  - injection Hd as <-. assumption.
Qed.

Lemma append_loop_mode (cp : list Z) (p q : port_data) :
  append_loop p cp = inl q \/ append_loop p cp = inr q -> mode q = mode p.
Proof.
  revert p. induction cp as [|c cp IH]; intros p; simpl.
  - intros [[= <-]|[=]]. reflexivity.
  - destruct (_ >=? _); [intros [[=]|[= <-]]; reflexivity|].
    intros Hq. rewrite (IH _ Hq). reflexivity.
Qed.

Lemma sync_scan_some `{Target} (cp rest : list Z) (p q : port_data) :
  sync_scan p cp = Some (q, rest) ->
  exists t, q = sync_found t p.
Proof.
  induction cp as [|cmd cp IH]; simpl; [discriminate|].
  destruct cp as [|t [|chk rest']]; try discriminate.
  repeat case_match; auto.
  intros [= <- <-]. exists t. reflexivity.
Qed.

Lemma receive_buf_valid_mode `{Target} (p q : port_data) (cp : list Z) :
  legoev3_uart_receive_buf p cp = Done q -> valid_mode p -> valid_mode q.
Proof.
  unfold legoev3_uart_receive_buf. intros Hr Hp.
  assert (forall p1 rest, valid_mode p1 ->
            match append_loop p1 rest with
            | inl p2 => process_loop (S (Z.to_nat (write_ptr p2))) p2
            | inr p2 => Done (err_invalid_state p2)
            end = Done q -> valid_mode q) as Htail.
  { intros p1 rest Hp1.
    destruct (append_loop p1 rest) as [p2|p2] eqn:Ha; intros Hq.
    - eapply process_loop_valid_mode; [exact Hq|].
      unfold valid_mode. rewrite (append_loop_mode rest p1 p2); auto.
    - injection Hq as <-. unfold valid_mode.
      rewrite err_invalid_state_mode, (append_loop_mode rest p1 p2); auto. }
  destruct (synced p).
  - eapply Htail; eauto.
  - destruct (sync_scan p cp) as [[p1 rest]|] eqn:Hs.
    + destruct (sync_scan_some _ _ _ _ Hs) as (t & ->).
      eapply Htail; [|exact Hr]. exact Hp.
    + injection Hr as <-. exact Hp.
Qed.

Lemma keep_alive_mode (p : port_data) :
  mode (fst (legoev3_uart_keep_alive_timer_callback p)) = mode p.
Proof.
  unfold legoev3_uart_keep_alive_timer_callback.
  repeat case_match; reflexivity.
Qed.

(** ** The receive callback returns *)

Lemma drop_msg_write_ptr (p : port_data) (ms : Z) :
  write_ptr (drop_msg p ms) = Z.of_nat (Z.to_nat (write_ptr p - ms)).
Proof. reflexivity. Qed.

Lemma process_loop_total `{Target} (fuel : nat) (p : port_data) :
  (Z.to_nat (write_ptr p) < fuel)%nat -> process_loop fuel p <> OutOfFuel.
Proof.
  revert p. induction fuel as [|fuel IH]; intros p Hf; [lia|]. simpl.
  pose proof (msg_size_range (byte_at (buffer p) 0)) as Hms.
  destruct (Z.leb_spec (legoev3_uart_msg_size (byte_at (buffer p) 0)) (write_ptr p));
    [|discriminate].
  destruct (process_msg p _) as [p' ms'|p' ms'|p'|] eqn:Hm; try discriminate.
  - destruct (over_threshold p'); [discriminate|].
    apply process_msg_next in Hm as [Hw Hs]. apply IH.
    rewrite drop_msg_write_ptr, Hw.
    assert (1 <= ms') by (destruct Hs as [->| ->]; unfold u8; [lia|];
      rewrite Z.mod_small; lia).
    lia.
  - apply process_msg_skip in Hm as [Hw ->]. apply IH.
    rewrite drop_msg_write_ptr, Hw. lia.
Qed.

(** The fuel given to the message loop always suffices. *)
Lemma receive_buf_total `{Target} (p : port_data) (cp : list Z) :
  legoev3_uart_receive_buf p cp <> OutOfFuel.
Proof.
  unfold legoev3_uart_receive_buf.
  destruct (if synced p then _ else _) as [[p1 rest]|]; [|discriminate].
  destruct (append_loop p1 rest); [|discriminate].
  apply process_loop_total. lia.
Qed.

(** ** Reachable states *)

Lemma receive_all_reachable `{Target} (ds : list (list Z)) (p q : port_data) :
  reachable p -> receive_all p ds = Done q -> reachable q.
Proof.
  revert p. induction ds as [|cp ds IH]; intros p Hp; simpl.
  - intros [= <-]. exact Hp.
  - destruct (legoev3_uart_receive_buf p cp) as [p'| |] eqn:Hr; try discriminate.
    apply IH. eapply reach_receive; eauto.
Qed.

Lemma open_valid_mode : valid_mode legoev3_uart_open.
Proof. unfold valid_mode. simpl. unfold LEGOEV3_UART_MODE_MAX. lia. Qed.

(** ** Framing *)

Lemma byte_at_app_l (a b : list Z) (i : Z) :
  0 <= i < Z.of_nat (length a) -> byte_at (a ++ b) i = byte_at a i.
Proof. intros Hi. unfold byte_at. rewrite lookup_app_l by lia. reflexivity. Qed.

Lemma store_at_length (a : list Z) (i v : Z) : length (store_at a i v) = length a.
Proof. apply length_insert. Qed.

Lemma shift_loop_length (n : nat) (i ms : Z) (buf : list Z) :
  length (shift_loop n i ms buf) = length buf.
Proof.
  revert i buf. induction n as [|n IH]; intros i buf; simpl; [reflexivity|].
  rewrite IH. apply store_at_length.
Qed.

Lemma chksum_loop_app (n : nat) (i c : Z) (a b : list Z) :
  0 <= i -> i + Z.of_nat n <= Z.of_nat (length a) ->
  chksum_loop n i c (a ++ b) = chksum_loop n i c a.
Proof.
  revert i c. induction n as [|n IH]; intros i c Hi Hn; simpl; [reflexivity|].
  rewrite byte_at_app_l by lia. apply IH; lia.
Qed.

(** The append loop writes the delivery over the bytes that follow
    [write_ptr], as long as it fits. *)
Lemma append_loop_fits (cp pre old post : list Z) (p : port_data) :
  buffer p = pre ++ old ++ post ->
  length old = length cp ->
  write_ptr p = Z.of_nat (length pre) ->
  Z.of_nat (length pre + length cp) <= LEGOEV3_UART_BUFFER_SIZE ->
  append_loop p cp
  = inl (set_write_ptr (Z.of_nat (length pre + length cp))
           (set_buffer (pre ++ cp ++ post) p)).
Proof.
  unfold LEGOEV3_UART_BUFFER_SIZE.
  revert pre old p. induction cp as [|c cp IH]; intros pre old p Hb Ho Hw Hfit.
  - destruct old; [|discriminate]. destruct p; simpl in *; subst.
    rewrite Nat.add_0_r. reflexivity.
  - destruct old as [|o old]; [discriminate|]. simpl in Ho, Hfit.
    cbn [append_loop]. unfold LEGOEV3_UART_BUFFER_SIZE.
    destruct (Z.geb_spec (write_ptr p) 256); [lia|].
    erewrite (IH (pre ++ [c]) old).
    + rewrite length_app, <- !app_assoc. simpl.
      unfold set_write_ptr, set_buffer. simpl. do 2 f_equal. lia.
    + simpl. unfold store_at. rewrite Hb, Hw, Nat2Z.id.
      replace (length pre) with (length pre + 0)%nat at 1 by lia.
      rewrite insert_app_r, <- app_assoc. reflexivity.
    + lia.
    + simpl. rewrite Hw, length_app. simpl. lia.
    + rewrite length_app. simpl. lia.
Qed.

(** A delivery into an empty buffer. *)
Lemma append_loop_empty (cp : list Z) (p : port_data) :
  write_ptr p = 0 ->
  length (buffer p) = Z.to_nat LEGOEV3_UART_BUFFER_SIZE ->
  Z.of_nat (length cp) <= LEGOEV3_UART_BUFFER_SIZE ->
  append_loop p cp
  = inl (set_write_ptr (Z.of_nat (length cp))
           (set_buffer (cp ++ drop (length cp) (buffer p)) p)).
Proof.
  intros Hw Hl Hfit.
  apply (append_loop_fits cp [] (take (length cp) (buffer p))).
  - simpl. rewrite take_drop. reflexivity.
  - rewrite length_take. unfold LEGOEV3_UART_BUFFER_SIZE in *. lia.
  - exact Hw.
  - simpl. lia.
Qed.

Lemma process_loop_unfold `{Target} (fuel : nat) (p : port_data) :
  process_loop (S fuel) p =
  let msg_size := legoev3_uart_msg_size (byte_at (buffer p) 0) in
  if msg_size <=? write_ptr p then
    match process_msg p msg_size with
    | Next p' msg_size' =>
      if over_threshold p' then Done (err_invalid_state p')
      else process_loop fuel (drop_msg p' msg_size')
    | Skip p' msg_size' => process_loop fuel (drop_msg p' msg_size')
    | Invalid p' => Done (err_invalid_state p')
    | Overrun => Fault
    end
  else Done p.
Proof. reflexivity. Qed.

(** With nothing buffered the message loop stops at once. *)
Lemma process_loop_empty `{Target} (fuel : nat) (p : port_data) :
  write_ptr p = 0 -> process_loop (S fuel) p = Done p.
Proof.
  intros Hw. rewrite process_loop_unfold. cbv zeta.
  pose proof (msg_size_range (byte_at (buffer p) 0)).
  destruct (Z.leb_spec (legoev3_uart_msg_size (byte_at (buffer p) 0)) (write_ptr p));
    [lia|reflexivity].
Qed.

Lemma whole_message_byte0 (p : port_data) (f : list Z) :
  whole_message f -> byte_at (buffer (framed p f)) 0 = byte_at f 0.
Proof.
  unfold whole_message. intros Hf. pose proof (msg_size_range (byte_at f 0)).
  simpl. apply byte_at_app_l. lia.
Qed.

Lemma drop_msg_length (p : port_data) (ms : Z) :
  length (buffer (drop_msg p ms)) = length (buffer p).
Proof. simpl. apply shift_loop_length. Qed.

Lemma receive_whole_message `{Target} (p : port_data) (f : list Z) :
  synced p = true -> empty_buffer p -> whole_message f ->
  (forall q ms, process_msg (framed p f) (Z.of_nat (length f)) = Next q ms ->
     legoev3_uart_receive_buf p f
     = Done (if over_threshold q then err_invalid_state q else drop_msg q ms)
     /\ write_ptr (drop_msg q ms) = 0)
  /\ (forall q, process_msg (framed p f) (Z.of_nat (length f)) = Invalid q ->
        legoev3_uart_receive_buf p f = Done (err_invalid_state q))
  /\ (process_msg (framed p f) (Z.of_nat (length f)) = Overrun ->
        legoev3_uart_receive_buf p f = Fault).
Proof.
  intros Hs [Hw Hl] Hf.
  pose proof (msg_size_range (byte_at f 0)) as Hr.
  assert (legoev3_uart_receive_buf p f
          = process_loop (S (Z.to_nat (Z.of_nat (length f)))) (framed p f)) as ->.
  { unfold legoev3_uart_receive_buf. rewrite Hs.
    rewrite append_loop_empty; auto.
    unfold whole_message, LEGOEV3_UART_BUFFER_SIZE in *. lia. }
  rewrite process_loop_unfold. cbv zeta.
  rewrite whole_message_byte0 by assumption. rewrite <- Hf.
  replace (write_ptr (framed p f)) with (Z.of_nat (length f)) by reflexivity.
  rewrite Z.leb_refl.
  split; [|split].
  - intros q ms Hq. rewrite Hq.
    destruct (process_msg_next _ _ _ _ Hq) as [Hwq Hms].
    assert (write_ptr (drop_msg q ms) = 0) as Hz.
    { rewrite drop_msg_write_ptr, Hwq. simpl.
      destruct Hms as [->| ->]; [lia|].
      unfold u8. unfold whole_message in Hf. rewrite Z.mod_small; lia. }
    split; [|exact Hz].
    destruct (over_threshold q); [reflexivity|].
    destruct (Z.to_nat (Z.of_nat (length f))) eqn:Hn;
      [unfold whole_message in Hf; lia|].
    apply process_loop_empty. exact Hz.
  - intros q Hq. rewrite Hq. reflexivity.
  - intros Hq. rewrite Hq. reflexivity.
Qed.

(** ** Data errors *)

Lemma wrong_chksum_data_whole (f : list Z) :
  wrong_chksum_data f = true -> whole_message f.
Proof.
  unfold wrong_chksum_data, whole_message. rewrite !andb_true_iff. lia.
Qed.

Lemma data_msg_size (header : Z) :
  Z.land header LEGOEV3_UART_MSG_TYPE_MASK = LEGOEV3_UART_MSG_TYPE_DATA ->
  legoev3_uart_msg_size header = LEGOEV3_UART_CMD_SIZE header + 2.
Proof. unfold legoev3_uart_msg_size. intros ->. reflexivity. Qed.

(** The message loop counts such a frame as a data error when the sensor
    is not of type 29. *)
Lemma process_wrong_chksum_data `{Target} (p : port_data) (f : list Z) :
  wrong_chksum_data f = true -> type p <> 29 -> info_done p = true ->
  process_msg (framed p f) (Z.of_nat (length f))
  = Next (set_num_data_err (u32 (num_data_err p + 1))
            (set_last_err "Bad checksum." (framed p f))) (Z.of_nat (length f)).
Proof.
  intros Hb Ht Hd. pose proof (wrong_chksum_data_whole f Hb) as Hf.
  unfold wrong_chksum_data in Hb. rewrite !andb_true_iff, !negb_true_iff in Hb.
  destruct Hb as ((((Hty & Hlen) & Hck) & Hff) & Hdc).
  apply Z.eqb_eq in Hty, Hlen.
  pose proof (cmd_size_range (byte_at f 0)) as Hr.
  pose proof (data_msg_size _ Hty) as Hsz.
  unfold process_msg. rewrite whole_message_byte0 by assumption. rewrite Hff.
  assert (chksum_refused (framed p f) (Z.of_nat (length f)) = true) as ->.
  { unfold chksum_refused. rewrite whole_message_byte0 by assumption.
    rewrite Hdc. replace (type (framed p f)) with (type p) by reflexivity.
    apply Z.eqb_neq in Ht. rewrite Ht.
    destruct (Z.gtb_spec (Z.of_nat (length f)) 1); [|lia]. simpl.
    rewrite !andb_true_r, negb_true_iff. rewrite <- Hck, Hlen.
    unfold msg_chksum. rewrite chksum_loop_app by lia.
    rewrite byte_at_app_l by lia. reflexivity. }
  simpl. rewrite Hd. reflexivity.
Qed.

Lemma u32_small (x : Z) : 0 <= x < 2 ^ 32 -> u32 x = x.
Proof. apply Z.mod_small. Qed.

(** What the receive callback does with such a frame, field by field. *)
Lemma receive_wrong_chksum_data `{Target} (p : port_data) (f : list Z) :
  wrong_chksum_data f = true -> type p <> 29 ->
  synced p = true -> info_done p = true -> empty_buffer p ->
  0 <= num_data_err p < 2 ^ 32 - 1 ->
  exists q,
    legoev3_uart_receive_buf p f = Done q
    /\ num_data_err q = num_data_err p + 1
    /\ last_err q = Some "Bad checksum."%string
    /\ type q = type p /\ info_done q = true /\ data_rec q = data_rec p
    /\ length (buffer q) = length (buffer p)
    /\ if num_data_err p + 1 >? LEGOEV3_UART_MAX_DATA_ERR
       then synced q = false
            /\ new_baud_rate q = LEGOEV3_UART_SPEED_MIN
            /\ change_bitrate_work q
               = schedule_delayed_work (change_bitrate_work p)
                   LEGOEV3_UART_SET_BITRATE_DELAY
       else synced q = true /\ write_ptr q = 0
            /\ new_baud_rate q = new_baud_rate p
            /\ change_bitrate_work q = change_bitrate_work p.
Proof.
  intros Hb Ht Hs Hd He Hn.
  pose proof (wrong_chksum_data_whole f Hb) as Hf.
  destruct (receive_whole_message p f Hs He Hf) as (Hnext & _ & _).
  destruct (Hnext _ _ (process_wrong_chksum_data p f Hb Ht Hd)) as [-> Hz].
  destruct He as [Hw Hl].
  assert (length (f ++ drop (length f) (buffer p)) = length (buffer p)) as Hlen.
  { rewrite length_app, length_drop. unfold whole_message in Hf.
    pose proof (msg_size_range (byte_at f 0)).
    unfold LEGOEV3_UART_BUFFER_SIZE in *. lia. }
  unfold over_threshold. cbn [info_done set_num_data_err set_last_err framed
    set_write_ptr set_buffer num_data_err]. rewrite Hd, u32_small by lia. simpl.
  destruct (_ >? _); eexists; (split; [reflexivity|]); simpl;
    rewrite ?shift_loop_length, ?Hlen; repeat split; auto; lia.
Qed.

Lemma running_fields (p : port_data) :
  running p = true <-> synced p = true /\ info_done p = true.
Proof. unfold running. apply andb_true_iff. Qed.

Lemma bad_event_step `{Target} (n : Z) (p : port_data) (e : bad_event) :
  errs n p -> 0 <= n < LEGOEV3_UART_MAX_DATA_ERR -> is_bad_event e = true ->
  exists q, apply_event p e = Done q /\ errs (n + 1) q /\ same_link p q.
Proof.
  unfold LEGOEV3_UART_MAX_DATA_ERR.
  intros (Hr & He & Ht & Hd & Hn) Hlt Hb.
  apply running_fields in Hr as [Hs Hi].
  destruct e as [f|]; simpl in *.
  - destruct (receive_wrong_chksum_data p f Hb Ht Hs Hi He ltac:(lia))
      as (q & Hq & Hc & _ & Hty & Hiq & Hdq & Hl & Hrest).
    unfold LEGOEV3_UART_MAX_DATA_ERR in Hrest.
    destruct (Z.gtb_spec (num_data_err p + 1) 6); [lia|].
    destruct Hrest as (Hsq & Hwq & Hbq & Hcq).
    exists q. split; [exact Hq|]. unfold errs, empty_buffer, same_link.
    rewrite running_fields. destruct He. repeat split; try congruence; lia.
  - eexists. split; [reflexivity|].
    unfold legoev3_uart_keep_alive_timer_callback. rewrite Hs, Hi, Hd. simpl.
    unfold errs, running, empty_buffer, same_link. simpl. rewrite Hs, Hi, Hn.
    rewrite u32_small by lia. destruct He. repeat split; auto.
Qed.

Lemma bad_events_run `{Target} (es : list bad_event) (n : Z) (p : port_data) :
  errs n p -> 0 <= n -> n + Z.of_nat (length es) <= LEGOEV3_UART_MAX_DATA_ERR ->
  Forall (fun e => is_bad_event e = true) es ->
  exists q, run_events p es = Done q /\ errs (n + Z.of_nat (length es)) q
            /\ same_link p q.
Proof.
  revert n p. induction es as [|e es IH]; intros n p Hp Hn Hle Hall.
  - exists p. simpl. rewrite Z.add_0_r. unfold same_link. auto.
  - inversion Hall as [|? ? He Hes]; subst. simpl length in *.
    destruct (bad_event_step n p e Hp ltac:(lia) He) as (p' & Hstep & Hp' & Hl1).
    destruct (IH (n + 1) p' Hp' ltac:(lia) ltac:(lia) Hes) as (q & Hrun & Hq & Hl2).
    exists q. simpl. rewrite Hstep. split; [exact Hrun|].
    replace (n + Z.of_nat (S (length es))) with (n + 1 + Z.of_nat (length es)) by lia.
    split; [exact Hq|]. unfold same_link in *. intuition congruence.
Qed.

Lemma run_events_app `{Target} (es es' : list bad_event) (p q : port_data) :
  run_events p es = Done q -> run_events p (es ++ es') = run_events q es'.
Proof.
  revert p. induction es as [|e es IH]; intros p; simpl.
  - intros [= ->]. reflexivity.
  - destruct (apply_event p e); try discriminate. apply IH.
Qed.

(** ** Over the threshold *)

(** The body of the message loop leaves the work queue of the bit rate
    change alone. *)
Lemma process_msg_change_bitrate_work `{Target} (p q : port_data) (ms : Z) :
  flow_port (process_msg p ms) = Some q ->
  change_bitrate_work q = change_bitrate_work p.
Proof.
  intros Hm. flow_paths; simpl in Hm; try discriminate; injection Hm as <-;
    reflexivity.
Qed.

Lemma control_header_not_ff (header : Z) : control_header header -> header <> 0xFF.
Proof. intros Hc ->. destruct Hc as [Hc|[Hc|Hc]]; discriminate Hc. Qed.

(** With the error count over the threshold, a control message ends in the
    jump to [err_invalid_state], at once or at the threshold test. *)
Lemma process_control_over_threshold `{Target} (p : port_data) (ms : Z) :
  over_threshold p = true -> num_data_err p < 2 ^ 32 - 1 ->
  control_header (byte_at (buffer p) 0) ->
  match process_msg p ms with
  | Next q _ => over_threshold q = true
  | Invalid _ => True
  | _ => False
  end.
Proof.
  unfold over_threshold, LEGOEV3_UART_MAX_DATA_ERR. rewrite andb_true_iff.
  intros [Hd Hn] Hlt Hc. apply Z.gtb_lt in Hn.
  pose proof (control_header_not_ff _ Hc) as Hff. apply Z.eqb_neq in Hff.
  unfold process_msg. rewrite Hff.
  destruct (chksum_refused p ms).
  { simpl. rewrite Hd. simpl. rewrite Hd, u32_small by lia. simpl.
    apply Z.gtb_lt. lia. }
  unfold control_header in Hc.
  assert ((num_data_err p >? 6) = true) as Hgt by (apply Z.gtb_lt; lia).
  unfold_handlers.
  repeat match goal with
         | |- context [if ?b then _ else _] => destruct b eqn:?
         end; simpl; rewrite ?Hd, ?Hgt; auto.
  all: rewrite ?Z.eqb_neq in *; intuition congruence.
Qed.

Lemma receive_control_over_threshold `{Target} (p : port_data) (f : list Z) :
  synced p = true -> empty_buffer p -> whole_message f ->
  over_threshold p = true -> num_data_err p < 2 ^ 32 - 1 ->
  control_header (byte_at f 0) ->
  exists q, legoev3_uart_receive_buf p f = Done q
            /\ synced q = false
            /\ new_baud_rate q = LEGOEV3_UART_SPEED_MIN
            /\ change_bitrate_work q
               = schedule_delayed_work (change_bitrate_work p)
                   LEGOEV3_UART_SET_BITRATE_DELAY.
Proof.
  intros Hs He Hf Ho Hlt Hc.
  destruct (receive_whole_message p f Hs He Hf) as (Hnext & Hinv & _).
  pose proof (process_control_over_threshold (framed p f) (Z.of_nat (length f))) as Hp.
  rewrite whole_message_byte0 in Hp by assumption.
  specialize (Hp Ho Hlt Hc).
  destruct (process_msg (framed p f) (Z.of_nat (length f))) as [q ms|q ms|q|] eqn:Hm;
    try contradiction.
  - destruct (Hnext q ms eq_refl) as [-> _]. rewrite Hp.
    eexists. split; [reflexivity|]. repeat split. simpl.
    rewrite (process_msg_change_bitrate_work (framed p f) q (Z.of_nat (length f)));
      [reflexivity|rewrite Hm; reflexivity].
  - rewrite (Hinv q eq_refl).
    eexists. split; [reflexivity|]. repeat split. simpl.
    rewrite (process_msg_change_bitrate_work (framed p f) q (Z.of_nat (length f)));
      [reflexivity|rewrite Hm; reflexivity].
Qed.

(** ** DATA frames *)

Lemma data_through_whole (p : port_data) (f : list Z) :
  data_through p f = true -> whole_message f.
Proof.
  unfold data_through, whole_message. rewrite !andb_true_iff. lia.
Qed.

(** A frame that gets past the checksum test reaches the DATA case. *)
Lemma process_data_through `{Target} (p : port_data) (f : list Z) :
  data_through p f = true ->
  process_msg (framed p f) (Z.of_nat (length f))
  = msg_data (framed p f) (Z.land (byte_at f 0) LEGOEV3_UART_MSG_CMD_MASK)
      (Z.of_nat (length f)).
Proof.
  intros Ha. pose proof (data_through_whole p f Ha) as Hf.
  unfold data_through in Ha. rewrite !andb_true_iff, negb_true_iff in Ha.
  destruct Ha as (((Hty & Hlen) & Hff) & Hck).
  apply Z.eqb_eq in Hty, Hlen.
  pose proof (cmd_size_range (byte_at f 0)) as Hr.
  pose proof (data_msg_size _ Hty) as Hsz.
  unfold process_msg. rewrite whole_message_byte0 by assumption.
  rewrite Hff, Hty.
  assert (chksum_refused (framed p f) (Z.of_nat (length f)) = false) as ->.
  { unfold chksum_refused. rewrite whole_message_byte0 by assumption.
    replace (type (framed p f)) with (type p) by reflexivity.
    replace (buffer (framed p f)) with (f ++ drop (length f) (buffer p))
      by reflexivity.
    unfold msg_chksum. rewrite chksum_loop_app, byte_at_app_l by lia.
    rewrite Hlen.
    fold (msg_chksum f (legoev3_uart_msg_size (byte_at f 0) - 1)).
    rewrite !orb_true_iff in Hck. destruct Hck as [[-> | ->] | ->]; simpl;
      rewrite ?andb_false_r; reflexivity. }
  reflexivity.
Qed.

(** The DATA case with a payload that fits. *)
Lemma msg_data_accepts (p : port_data) (m ms : Z) :
  info_done p = true -> ms - 2 <= LEGOEV3_UART_SENSOR_DATA_SIZE ->
  exists q, msg_data p m ms = Next q ms
            /\ mode q = m /\ num_modes q = num_modes p
            /\ data_rec q = true /\ last_err q = last_err p
            /\ num_data_err q
               = if num_data_err p =? 0 then 0 else num_data_err p - 1.
Proof.
  intros Hi Hfit. unfold msg_data. rewrite Hi. cbn [negb].
  destruct (Z.gtb_spec (ms - 2) LEGOEV3_UART_SENSOR_DATA_SIZE); [lia|].
  cbn [num_data_err set_data_rec upd_mode_info set_mode_info set_mode].
  destruct (Z.eqb_spec (num_data_err p) 0) as [Hz|Hz]; cbn [negb];
    eexists; (split; [reflexivity|]); simpl; auto.
Qed.

(** An accepted DATA frame: the payload is taken, the error count goes
    down by one if it was not zero, and the mode bits of the header become
    the current mode. *)
Lemma receive_accepted_data `{Target} (p : port_data) (f : list Z) :
  synced p = true -> info_done p = true -> empty_buffer p ->
  accepted_data p f = true ->
  exists q, legoev3_uart_receive_buf p f = Done q
            /\ mode q = Z.land (byte_at f 0) LEGOEV3_UART_MSG_CMD_MASK
            /\ num_modes q = num_modes p
            /\ data_rec q = true
            /\ last_err q = last_err p
            /\ num_data_err q
               = if num_data_err p =? 0 then 0 else num_data_err p - 1.
Proof.
  intros Hs Hi He Ha. unfold accepted_data in Ha.
  apply andb_true_iff in Ha as [Ha Hfit]. apply Z.leb_le in Hfit.
  pose proof (data_through_whole p f Ha) as Hf.
  pose proof (process_data_through p f Ha) as Hm.
  rewrite <- Hf in Hfit.
  destruct (msg_data_accepts (framed p f)
              (Z.land (byte_at f 0) LEGOEV3_UART_MSG_CMD_MASK)
              (Z.of_nat (length f)) Hi Hfit)
    as (q & Hq & Hmode & Hnum & Hrec & Herr & Hcount).
  rewrite Hq in Hm.
  destruct (receive_whole_message p f Hs He Hf) as (Hnext & _ & _).
  destruct (Hnext _ _ Hm) as [-> _].
  eexists. split; [reflexivity|].
  destruct (over_threshold q); simpl; auto.
Qed.

(** A DATA frame that gets past the checksum test with more than 32 payload
    bytes: the copy runs over the end of [raw_data]. *)
Lemma receive_oversized_data `{Target} (p : port_data) (f : list Z) :
  synced p = true -> info_done p = true -> empty_buffer p ->
  data_through p f = true ->
  LEGOEV3_UART_SENSOR_DATA_SIZE < legoev3_uart_msg_size (byte_at f 0) - 2 ->
  legoev3_uart_receive_buf p f = Fault.
Proof.
  intros Hs Hi He Ha Hbig.
  pose proof (data_through_whole p f Ha) as Hf.
  pose proof (process_data_through p f Ha) as Hm.
  unfold msg_data in Hm.
  replace (info_done (framed p f)) with (info_done p) in Hm by reflexivity.
  rewrite Hi in Hm. cbn [negb] in Hm. rewrite <- Hf in Hbig.
  destruct (Z.gtb_spec (Z.of_nat (length f) - 2) LEGOEV3_UART_SENSOR_DATA_SIZE);
    [|lia].
  destruct (receive_whole_message p f Hs He Hf) as (_ & _ & Hover).
  exact (Hover Hm).
Qed.

(** ** Where the copy runs over *)

Lemma msg_type_cases (header : Z) :
  In (Z.land header LEGOEV3_UART_MSG_TYPE_MASK)
     [LEGOEV3_UART_MSG_TYPE_SYS; LEGOEV3_UART_MSG_TYPE_CMD;
      LEGOEV3_UART_MSG_TYPE_INFO; LEGOEV3_UART_MSG_TYPE_DATA].
Proof.
  unfold LEGOEV3_UART_MSG_TYPE_MASK.
  assert (Z.land header 0xC0 = Z.shiftl (Z.land (Z.shiftr header 6) 3) 6) as ->.
  { change 0xC0 with (Z.shiftl 3 6). apply Z.bits_inj'. intros n Hn.
    rewrite Z.land_spec. rewrite (Z.shiftl_spec 3 6 n) by lia. rewrite (Z.shiftl_spec _ 6 n) by lia.
    destruct (Z.lt_ge_cases n 6).
    - rewrite (Z.testbit_neg_r 3 (n - 6)), (Z.testbit_neg_r _ (n - 6)) by lia.
      apply andb_false_r.
    - rewrite Z.land_spec, Z.shiftr_spec by lia.
      replace (n - 6 + 6) with n by lia. reflexivity. }
  change (Z.land (Z.shiftr header 6) 3) with (Z.land (Z.shiftr header 6) (Z.ones 2)).
  rewrite Z.land_ones by lia. change (2 ^ 2) with 4.
  pose proof (Z.mod_pos_bound (Z.shiftr header 6) 4 ltac:(lia)) as Hr.
  assert (Z.shiftr header 6 mod 4 = 0 \/ Z.shiftr header 6 mod 4 = 1
          \/ Z.shiftr header 6 mod 4 = 2 \/ Z.shiftr header 6 mod 4 = 3)
    as [-> | [-> | [-> | ->]]] by lia; simpl; auto.
Qed.

(** The message loop runs over the end of [raw_data] at a DATA frame of
    more than 32 payload bytes that gets past the checksum test once the
    handshake is done, and nowhere else. *)
Lemma process_msg_overrun `{Target} (p : port_data) (ms : Z) :
  process_msg p ms = Overrun <-> oversized_data p ms.
Proof.
  unfold oversized_data. split.
  - intros Hm.
    assert (byte_at (buffer p) 0 <> 0xFF /\ chksum_refused p ms = false
            /\ Z.land (byte_at (buffer p) 0) LEGOEV3_UART_MSG_TYPE_MASK
               <> LEGOEV3_UART_MSG_TYPE_SYS
            /\ Z.land (byte_at (buffer p) 0) LEGOEV3_UART_MSG_TYPE_MASK
               <> LEGOEV3_UART_MSG_TYPE_CMD
            /\ Z.land (byte_at (buffer p) 0) LEGOEV3_UART_MSG_TYPE_MASK
               <> LEGOEV3_UART_MSG_TYPE_INFO
            /\ info_done p = true /\ LEGOEV3_UART_SENSOR_DATA_SIZE < ms - 2)
      as (Hff & Hck & H0 & H1 & H2 & Hi & Hbig).
    { flow_paths.
      repeat match goal with
             | Hx : (_ =? _) = false |- _ => apply Z.eqb_neq in Hx
             | Hx : (_ >? _) = true |- _ => apply Z.gtb_lt in Hx
             | Hx : negb _ = false |- _ => apply negb_false_iff in Hx
             end.
      repeat split; assumption. }
    split; [exact Hff|]. split; [exact Hck|]. split; [|split; assumption].
    pose proof (msg_type_cases (byte_at (buffer p) 0)) as Hc. simpl in Hc.
    destruct Hc as [Hc|[Hc|[Hc|[Hc|[]]]]]; congruence.
  - intros (Hff & Hck & Hty & Hi & Hbig).
    unfold process_msg, msg_data. apply Z.eqb_neq in Hff. rewrite Hff, Hck, Hty, Hi.
    cbn [negb].
    change (LEGOEV3_UART_MSG_TYPE_DATA =? LEGOEV3_UART_MSG_TYPE_SYS) with false.
    change (LEGOEV3_UART_MSG_TYPE_DATA =? LEGOEV3_UART_MSG_TYPE_CMD) with false.
    change (LEGOEV3_UART_MSG_TYPE_DATA =? LEGOEV3_UART_MSG_TYPE_INFO) with false.
    cbv iota.
    destruct (Z.gtb_spec (ms - 2) LEGOEV3_UART_SENSOR_DATA_SIZE); [reflexivity|lia].
Qed.

Lemma process_loop_fault `{Target} (fuel : nat) (p : port_data) :
  (Z.to_nat (write_ptr p) < fuel)%nat ->
  process_loop fuel p = Fault
  <-> exists q, loop_pass p q
                /\ oversized_data q (legoev3_uart_msg_size (byte_at (buffer q) 0)).
Proof.
  revert p. induction fuel as [|fuel IH]; intros p Hf; [lia|].
  rewrite process_loop_unfold. cbv zeta.
  pose proof (msg_size_range (byte_at (buffer p) 0)) as Hms.
  destruct (Z.leb_spec (legoev3_uart_msg_size (byte_at (buffer p) 0)) (write_ptr p))
    as [Hle|Hgt].
  2:{ split; [discriminate|]. intros (q & Hq & _). inversion Hq; subst; lia. }
  destruct (process_msg p _) as [p' ms'|p' ms'|p'|] eqn:Hm.
  - assert (Z.to_nat (write_ptr (drop_msg p' ms')) < fuel)%nat as Hf'.
    { apply process_msg_next in Hm as [Hw Hs].
      rewrite drop_msg_write_ptr, Hw.
      assert (1 <= ms') by (destruct Hs as [->| ->]; unfold u8; [lia|];
        rewrite Z.mod_small; lia).
      lia. }
    destruct (over_threshold p') eqn:Hot.
    + split; [discriminate|]. intros (q & Hq & Hover).
      apply process_msg_overrun in Hover.
      inversion Hq; subst; congruence.
    + rewrite (IH _ Hf'). split.
      * intros (q & Hq & Hover). exists q. split; [|exact Hover].
        eapply pass_next; eauto.
      * intros (q & Hq & Hover). exists q. split; [|exact Hover].
        apply process_msg_overrun in Hover.
        inversion Hq; subst; congruence.
  - assert (Z.to_nat (write_ptr (drop_msg p' ms')) < fuel)%nat as Hf'.
    { apply process_msg_skip in Hm as [Hw ->].
      rewrite drop_msg_write_ptr, Hw. lia. }
    rewrite (IH _ Hf'). split.
    * intros (q & Hq & Hover). exists q. split; [|exact Hover].
      eapply pass_skip; eauto.
    * intros (q & Hq & Hover). exists q. split; [|exact Hover].
      apply process_msg_overrun in Hover.
      inversion Hq; subst; congruence.
  - split; [discriminate|]. intros (q & Hq & Hover).
    apply process_msg_overrun in Hover. inversion Hq; subst; congruence.
  - split; [|reflexivity]. intros _. exists p. split; [apply pass_first; exact Hle|].
    apply process_msg_overrun. exact Hm.
Qed.

(** A call of the receive callback ends in [Done], unless one of the
    passes of its message loop meets a DATA frame of more than 32 payload
    bytes that it accepts; then, and only then, it is [Fault]. *)
Lemma receive_buf_done_or_overrun `{Target} (p : port_data) (cp : list Z) :
  (legoev3_uart_receive_buf p cp = Fault
   <-> exists p2 q,
         loop_entry p cp = Some p2 /\ loop_pass p2 q
         /\ oversized_data q (legoev3_uart_msg_size (byte_at (buffer q) 0)))
  /\ ((exists q, legoev3_uart_receive_buf p cp = Done q)
      \/ legoev3_uart_receive_buf p cp = Fault).
Proof.
  split.
  - unfold legoev3_uart_receive_buf, loop_entry.
    destruct (if synced p then _ else _) as [[p1 rest]|].
    2:{ split; [discriminate|]. intros (p2 & q & Hx & _). discriminate Hx. }
    destruct (append_loop p1 rest) as [p2|p2].
    2:{ split; [discriminate|]. intros (p3 & q & Hx & _). discriminate Hx. }
    rewrite process_loop_fault by lia. split.
    + intros (q & Hq & Hover). exists p2, q. auto.
    + intros (p3 & q & [= <-] & Hq & Hover). exists q. auto.
  - pose proof (receive_buf_total p cp) as Ht.
    destruct (legoev3_uart_receive_buf p cp) as [q| |]; [left; eauto|right; reflexivity|].
    contradiction.
Qed.

(** * The codec *)

(** Sizes up to 16 are encoded as the spec describes, with a 4-byte or an
    8-byte [unsigned long]: message type in the top two bits, the base-2
    logarithm of the size in the next three, the command in the low three,
    and a CMD header announces [size + 2] bytes. *)
Lemma set_msg_hdr_roundtrip_to_16 `{Target} (t s c : Z) :
  sizeof_unsigned_long = 4 \/ sizeof_unsigned_long = 8 ->
  In t [LEGOEV3_UART_MSG_TYPE_SYS; LEGOEV3_UART_MSG_TYPE_CMD;
        LEGOEV3_UART_MSG_TYPE_INFO; LEGOEV3_UART_MSG_TYPE_DATA] ->
  In s [1; 2; 4; 8; 16] -> 0 <= c <= 7 ->
  decode_header (legoev3_uart_set_msg_hdr t s c) = (t, s, c)
  /\ legoev3_uart_set_msg_hdr t s c = Z.lor (Z.lor t (Z.shiftl (Z.log2 s) 3)) c
  /\ legoev3_uart_msg_size (legoev3_uart_set_msg_hdr LEGOEV3_UART_MSG_TYPE_CMD s c)
     = s + 2.
Proof.
  intros Hl Ht Hs Hc. unfold legoev3_uart_set_msg_hdr.
  assert (c = 0 \/ c = 1 \/ c = 2 \/ c = 3 \/ c = 4 \/ c = 5 \/ c = 6 \/ c = 7)
    as Hc' by lia.
  simpl in Ht, Hs.
  destruct Hl as [-> | ->];
    repeat (destruct Ht as [<- | Ht]; [|try contradiction]);
    repeat (destruct Hs as [<- | Hs]; [|try contradiction]);
    repeat (destruct Hc' as [-> | Hc']; [|try subst c]);
    vm_compute; auto.
Qed.

(** C9: on the EV3, whose [unsigned long] has 4 bytes, [find_last_bit] is
    told to search 4 bits; a size of 32 has none of them set, so the header
    for a 32-byte CMD WRITE carries size code 4: it decodes to 16 payload
    bytes and announces an 18-byte message, not [(0x40, 32, 4)] and 34.
    [legoev3_uart_write_bin_data] builds this header for every write of 17
    to 32 bytes and sends 34 bytes after it. *)
Theorem set_msg_hdr_size_32 :
  @legoev3_uart_set_msg_hdr ev3 LEGOEV3_UART_MSG_TYPE_CMD 32 LEGOEV3_UART_CMD_WRITE = 0x64
  /\ decode_header 0x64 = (LEGOEV3_UART_MSG_TYPE_CMD, 16, LEGOEV3_UART_CMD_WRITE)
  /\ legoev3_uart_msg_size 0x64 = 18
  /\ (exists frame, @legoev3_uart_write_bin_data ev3 (replicate 32 0x11) 0 = inl frame
                    /\ byte_at frame 0 = 0x64 /\ length frame = 34%nat)
  /\ @legoev3_uart_set_msg_hdr lp64 LEGOEV3_UART_MSG_TYPE_CMD 32 LEGOEV3_UART_CMD_WRITE
     = 0x6C.
Proof.
  repeat split; try reflexivity.
  eexists. split; [reflexivity|]. split; reflexivity.
Qed.

(** * The framer *)

(** A SYS header at the head of the buffer is a message of one byte for
    the body of the loop, whatever follows it: the test [msg_size > 1] that
    guards the extra byte of a SYNC never holds. *)
Lemma process_sys_one_byte `{Target} (p q : port_data) (ms : Z) :
  Z.land (byte_at (buffer p) 0) LEGOEV3_UART_MSG_TYPE_MASK = LEGOEV3_UART_MSG_TYPE_SYS ->
  process_msg p (legoev3_uart_msg_size (byte_at (buffer p) 0)) = Next q ms ->
  ms = 1.
Proof.
  intros Hsys. rewrite (msg_size_sys _ Hsys).
  unfold process_msg, chksum_refused. rewrite Hsys.
  destruct (_ =? 0xFF); [discriminate|]. simpl.
  unfold msg_sys, invalid_state. change (1 >? 1) with false. cbn [andb].
  repeat case_match; intros [= <- <-]; reflexivity.
Qed.

Lemma process_sync_one_byte `{Target} (p : port_data) :
  byte_at (buffer p) 0 = LEGOEV3_UART_SYS_SYNC ->
  process_msg p (legoev3_uart_msg_size (byte_at (buffer p) 0)) = Next p 1.
Proof.
  intros Hb. unfold process_msg, chksum_refused. rewrite Hb. reflexivity.
Qed.

(** C10: a synced port with an empty buffer is handed SYNC and 0xFF in one
    delivery.  The message loop consumes the SYNC alone; the 0xFF stays at
    the head of the buffer ([write_ptr] is 1), where it is taken for the
    header of a 130-byte message. *)
Theorem sync_then_ff_consumes_one_byte :
  ends_with (@receive_all ev3 legoev3_uart_open [[0x40; 16; 0xAF]])
    (fun p => synced p = true /\ write_ptr p = 0
              /\ ends_with (@legoev3_uart_receive_buf ev3 p [0x00; 0xFF])
                   (fun q => write_ptr q = 1 /\ byte_at (buffer q) 0 = 0xFF
                             /\ legoev3_uart_msg_size (byte_at (buffer q) 0) = 130)).
Proof. vm_compute. auto. Qed.

(** * The checksum test *)

(** C1: the test lets a wrong checksum through when the sensor type is 29
    or the first byte is 0xDC, not only when both hold.  A type 29 sensor
    sends the mode 0 frame C0 2A with a wrong last byte: the payload is
    stored and no error is counted.  A type 16 sensor sends a frame with
    header 0xDC and a wrong last byte: the same.  ([receive_accepted_data]
    is the general statement.) *)
Theorem chksum_exception_too_wide :
  wrong_chksum_data bad_data = true
  /\ ends_with (after_handshake 29)
       (fun p => running p = true /\ type p = 29 /\ num_data_err p = 0
          /\ ends_with (@legoev3_uart_receive_buf ev3 p bad_data)
               (fun q => num_data_err q = 0 /\ last_err q = None
                         /\ data_rec q = true
                         /\ byte_at (raw_data (mode_info_at q 0)) 0 = 42))
  /\ msg_chksum bad_data_dc 9 <> byte_at bad_data_dc 9
  /\ ends_with (after_handshake 16)
       (fun p => running p = true /\ type p = 16 /\ num_data_err p = 0
          /\ ends_with (@legoev3_uart_receive_buf ev3 p bad_data_dc)
               (fun q => num_data_err q = 0 /\ last_err q = None
                         /\ data_rec q = true /\ mode q = 4
                         /\ take 8 (raw_data (mode_info_at q 4))
                            = [1; 2; 3; 4; 5; 6; 7; 8])).
Proof. vm_compute. repeat split; auto; discriminate. Qed.

(** * The mode table *)

Lemma mode_info_at_upd (p : port_data) (m : Z) (f : mode_info_t -> mode_info_t) :
  (Z.to_nat m < length (mode_info p))%nat ->
  mode_info_at (upd_mode_info m f p) m = f (mode_info_at p m).
Proof.
  intros Hm. unfold mode_info_at, upd_mode_info. simpl.
  rewrite list_lookup_insert_eq by lia. reflexivity.
Qed.

Lemma upd_mode_info_length (p : port_data) (m : Z) (f : mode_info_t -> mode_info_t) :
  length (mode_info (upd_mode_info m f p)) = length (mode_info p).
Proof. unfold upd_mode_info. simpl. apply length_insert. Qed.

(** What an INFO_FORMAT message that is taken leaves in the slot of its
    mode: the data sets and the format always, the figures and decimals
    only when the current mode is not 0. *)
Lemma info_format_stores (p q : port_data) (m ms ms' : Z) :
  (Z.to_nat m < length (mode_info p))%nat ->
  info_format p m ms = Next q ms' ->
  mode p = m
  /\ data_sets (mode_info_at q m) = byte_at (buffer p) 2
  /\ format (mode_info_at q m) = byte_at (buffer p) 3
  /\ if m =? 0
     then figures (mode_info_at q m) = figures (mode_info_at p m)
          /\ decimals (mode_info_at q m) = decimals (mode_info_at p m)
          /\ mode q = 0
     else figures (mode_info_at q m) = byte_at (buffer p) 4
          /\ decimals (mode_info_at q m) = byte_at (buffer p) 5
          /\ mode q = m - 1.
Proof.
  intros Hlen. unfold info_format, invalid_state.
  destruct (Z.eqb_spec (mode p) m) as [Hm|]; [|discriminate]. cbn [negb].
  destruct (test_bit _ _); [discriminate|].
  set (p1 := set_info_flags _ p).
  set (p2 := upd_mode_info m (set_data_sets (byte_at (buffer p1) 2)) p1).
  destruct (_ =? 0); [discriminate|].
  destruct (ms <? 7); [discriminate|].
  destruct (negb (required_complete p2)); [discriminate|].
  set (p3 := upd_mode_info m (set_format (byte_at (buffer p2) 3)) p2).
  replace (mode p3) with (mode p) by reflexivity. rewrite Hm.
  assert (mode_info_at p3 m
          = set_format (byte_at (buffer p) 3)
              (set_data_sets (byte_at (buffer p) 2) (mode_info_at p m))) as H3.
  { unfold p3. rewrite mode_info_at_upd by (unfold p2; rewrite upd_mode_info_length; exact Hlen).
    unfold p2. rewrite mode_info_at_upd by exact Hlen. reflexivity. }
  destruct (Z.eqb_spec m 0) as [Hz|Hz]; cbn [negb]; intros [= <- <-].
  - rewrite H3. repeat split; auto. simpl. congruence.
  - set (p4 := set_mode (m - 1) p3).
    assert (mode_info_at p4 m = mode_info_at p3 m) as H4 by reflexivity.
    assert (length (mode_info p4) = length (mode_info p)) as Hl4.
    { unfold p4, p3, p2. simpl. rewrite !length_insert. reflexivity. }
    rewrite !mode_info_at_upd, H4, H3;
      rewrite ?upd_mode_info_length, ?Hl4; try exact Hlen.
    repeat split; auto.
Qed.

(** C7: the handshake sends FORMAT for mode 1 and for mode 0 with the same
    bytes: one data set, format 0, 5 figures, 2 decimals.  Mode 1 gets all
    of them; for mode 0 the figures and decimals are not stored, the slot
    keeps the defaults 4 and 0.  ([info_format_stores] is the general
    statement.) *)
Theorem format_of_mode_0_drops_figures :
  ends_with (after_handshake 16)
    (fun p => data_sets (mode_info_at p 1) = 1
              /\ figures (mode_info_at p 1) = 5 /\ decimals (mode_info_at p 1) = 2
              /\ data_sets (mode_info_at p 0) = 1
              /\ figures (mode_info_at p 0) = 4 /\ decimals (mode_info_at p 0) = 0
              /\ mode p = 0 /\ running p = true).
Proof. vm_compute. repeat split; auto. Qed.

(** C8: a DATA frame with size exponent 6 is complete and has the right
    checksum; the message loop asks [memcpy] to put its 64 payload bytes
    into the 32 bytes of [raw_data].  ([receive_oversized_data] is the same
    for every DATA frame of more than 32 payload bytes that gets past the
    checksum test.) *)
Theorem data_frame_overruns_raw_data :
  legoev3_uart_msg_size (byte_at long_data 0) - 2 = 64
  /\ whole_message long_data
  /\ msg_chksum long_data 65 = byte_at long_data 65
  /\ ends_with (after_handshake 16)
       (fun p => running p = true
                 /\ length (raw_data (mode_info_at p 0)) = 32%nat
                 /\ @legoev3_uart_receive_buf ev3 p long_data = Fault).
Proof. vm_compute. repeat split; auto. Qed.

(** * The data error threshold *)

(** C2 (as stated, refuted): six wrong-checksum DATA frames in a row, from
    a running session with no error counted, leave the session running with
    six errors counted. *)
Lemma six_bad_frames_still_running :
  ends_with (after_handshake 16)
    (fun p => running p = true /\ num_data_err p = 0
       /\ ends_with (@receive_all ev3 p (replicate 6 bad_data))
            (fun q => running q = true /\ num_data_err q = 6)).
Proof. vm_compute. auto. Qed.

(** C2 (amended): from a running session with no error counted (a sensor
    other than type 29, nothing buffered, no data seen since the last
    tick), any six or fewer bad data events leave the session running, with
    one error counted per event; after six of them, a seventh
    wrong-checksum DATA frame makes the receive callback give the session
    up: [synced] is cleared, the baud rate to go to is 2400 and the bit
    rate work is queued.  The events are keep-alive ticks, each of which
    finds no data received, and DATA frames delivered whole whose last byte
    is not their checksum and whose first byte is neither 0xDC nor 0xFF, in
    any order.  Nothing is said of the frames the checksum test lets
    through (sensor type 29, first byte 0xDC: see
    [chksum_exception_too_wide]) nor of the byte 0xFF, which the message
    loop drops on its own. *)
Theorem data_error_threshold `{Target} (p : port_data) (es : list bad_event) :
  errs 0 p ->
  Forall (fun e => is_bad_event e = true) es ->
  (Z.of_nat (length es) <= 6 ->
     exists q, run_events p es = Done q
               /\ running q = true /\ num_data_err q = Z.of_nat (length es))
  /\ (Z.of_nat (length es) = 6 ->
        forall f, wrong_chksum_data f = true ->
          exists q, run_events p (es ++ [BadData f]) = Done q
                    /\ running q = false /\ synced q = false
                    /\ num_data_err q = 7
                    /\ new_baud_rate q = LEGOEV3_UART_SPEED_MIN
                    /\ change_bitrate_work q
                       = schedule_delayed_work (change_bitrate_work p)
                           LEGOEV3_UART_SET_BITRATE_DELAY).
Proof.
  intros Hp Hall.
  assert (Z.of_nat (length es) <= 6 ->
          exists q, run_events p es = Done q
                    /\ errs (Z.of_nat (length es)) q /\ same_link p q) as Hrun.
  { intros Hle.
    apply (bad_events_run es 0 p Hp); [lia| |exact Hall].
    unfold LEGOEV3_UART_MAX_DATA_ERR. lia. }
  split.
  - intros Hle. destruct (Hrun Hle) as (q & Hq & (Hr & _ & _ & _ & Hn) & _).
    exists q. auto.
  - intros H6 f Hf.
    destruct (Hrun ltac:(lia)) as (q & Hq & (Hr & He & Ht & Hd & Hn) & _ & Hw).
    rewrite (run_events_app es [BadData f] p q Hq). simpl.
    apply running_fields in Hr as [Hs Hi].
    destruct (receive_wrong_chksum_data q f Hf Ht Hs Hi He ltac:(lia))
      as (q' & -> & Hc & _ & _ & _ & _ & _ & Hrest).
    rewrite Hn, H6 in Hrest, Hc. simpl in Hrest, Hc.
    destruct Hrest as (Hs' & Hb' & Hw').
    exists q'. unfold running. rewrite Hs', Hw', Hw. repeat split; auto.
Qed.

(** The threshold at the type 16 sensor of [handshake]: six times the frame
    C0 2A 00, then once more. *)
Lemma data_error_threshold_witness :
  let p := port_of (after_handshake 16) in
  let es := replicate 6 (BadData bad_data) in
  errs 0 p
  /\ Forall (fun e => is_bad_event e = true) es
  /\ (exists q, @run_events ev3 p es = Done q
                /\ running q = true /\ num_data_err q = 6)
  /\ (exists q, @run_events ev3 p (es ++ [BadData bad_data]) = Done q
                /\ running q = false /\ synced q = false
                /\ num_data_err q = 7
                /\ new_baud_rate q = LEGOEV3_UART_SPEED_MIN
                /\ change_bitrate_work q = Some LEGOEV3_UART_SET_BITRATE_DELAY).
Proof.
  intros p es.
  assert (errs 0 p) as Hp.
  { unfold errs, empty_buffer. vm_compute. repeat split; discriminate. }
  assert (Forall (fun e => is_bad_event e = true) es) as Hes.
  { repeat constructor. }
  destruct (@data_error_threshold ev3 p es Hp Hes) as [Hle H7].
  split; [exact Hp|]. split; [exact Hes|]. split.
  - apply Hle. simpl. lia.
  - apply (H7 eq_refl bad_data). reflexivity.
Defined.

(** * The keep-alive tick *)

(** C3 (as stated, refuted): after six wrong-checksum frames the tick
    finds no data received and counts the seventh error.  It stops the
    timer, and that is all: the port stays synced, the baud rate to go to
    is still the sensor's 57600, no bit rate change is queued, and the
    receive buffer is as it was. *)
Lemma keep_alive_tick_leaves_session_synced :
  ends_with (@receive_all ev3 (port_of (after_handshake 16)) (replicate 6 bad_data))
    (fun p => running p = true /\ num_data_err p = 6
       /\ new_baud_rate p = 57600 /\ change_bitrate_work p = None
       /\ let q := fst (legoev3_uart_keep_alive_timer_callback p) in
          num_data_err q = 7
          /\ snd (legoev3_uart_keep_alive_timer_callback p) = HRTIMER_NORESTART
          /\ synced q = true /\ running q = true
          /\ new_baud_rate q = 57600 /\ change_bitrate_work q = None
          /\ buffer q = buffer p /\ write_ptr q = write_ptr p).
Proof. vm_compute. repeat split; auto. Qed.

(** C3 (amended): when a keep-alive tick takes the error count over the
    threshold, the callback schedules the keep-alive tasklet and returns
    no-restart; [synced], [info_done], the baud rate to go to, the work
    queues and the receive buffer are as they were.  The recovery is made
    by the receive callback at the next message it processes while the
    count is over the threshold, here a message delivered whole to the
    empty buffer that is a SYS, CMD or INFO message, or a DATA frame the
    checksum test refuses (last byte not its checksum, first byte neither
    0xDC nor 0xFF, sensor type other than 29): [synced] is cleared, the
    baud rate to go to is 2400 and the bit rate work is queued with its
    10 ms delay.  Nothing is said of a wrong-checksum DATA frame that the
    checksum test lets through. *)
Theorem keep_alive_over_threshold `{Target} (p : port_data) :
  running p = true -> data_rec p = false ->
  num_data_err p = LEGOEV3_UART_MAX_DATA_ERR ->
  let q := fst (legoev3_uart_keep_alive_timer_callback p) in
  snd (legoev3_uart_keep_alive_timer_callback p) = HRTIMER_NORESTART
  /\ num_data_err q = LEGOEV3_UART_MAX_DATA_ERR + 1
  /\ keep_alive_tasklet q = true
  /\ synced q = true /\ info_done q = true
  /\ new_baud_rate q = new_baud_rate p
  /\ change_bitrate_work q = change_bitrate_work p
  /\ send_ack_work q = send_ack_work p
  /\ buffer q = buffer p /\ write_ptr q = write_ptr p
  /\ forall f,
       empty_buffer p -> whole_message f ->
       control_header (byte_at f 0) \/ (wrong_chksum_data f = true /\ type p <> 29) ->
       exists q', legoev3_uart_receive_buf q f = Done q'
                  /\ synced q' = false
                  /\ new_baud_rate q' = LEGOEV3_UART_SPEED_MIN
                  /\ change_bitrate_work q'
                     = schedule_delayed_work (change_bitrate_work p)
                         LEGOEV3_UART_SET_BITRATE_DELAY.
Proof.
  unfold LEGOEV3_UART_MAX_DATA_ERR. intros Hr Hd Hn.
  apply running_fields in Hr as [Hs Hi].
  unfold legoev3_uart_keep_alive_timer_callback. rewrite Hs, Hi, Hd, Hn. simpl.
  repeat split; auto.
  intros f He Hf Hkind.
  match goal with
  | |- context [legoev3_uart_receive_buf ?q' f] => set (q := q')
  end.
  assert (num_data_err q = 7) as Hq7 by reflexivity.
  destruct Hkind as [Hc|[Hb Ht]].
  - destruct (receive_control_over_threshold q f) as (q' & Hq' & Hrest); auto.
    + unfold over_threshold. rewrite Hq7.
      replace (info_done q) with (info_done p) by reflexivity.
      rewrite Hi. reflexivity.
    + lia.
    + exists q'. split; [exact Hq'|]. exact Hrest.
  - destruct (receive_wrong_chksum_data q f Hb Ht Hs Hi He)
      as (q' & Hq' & _ & _ & _ & _ & _ & _ & Hrest); [lia|].
    rewrite Hq7 in Hrest. simpl in Hrest.
    exists q'. split; [exact Hq'|]. exact Hrest.
Qed.

(** The tick after six wrong-checksum frames, and a SYNC byte from the
    sensor after it. *)
Lemma keep_alive_over_threshold_witness :
  let p := port_of (@receive_all ev3 (port_of (after_handshake 16)) (replicate 6 bad_data)) in
  let q := fst (legoev3_uart_keep_alive_timer_callback p) in
  running p = true /\ data_rec p = false
  /\ num_data_err p = LEGOEV3_UART_MAX_DATA_ERR
  /\ snd (legoev3_uart_keep_alive_timer_callback p) = HRTIMER_NORESTART
  /\ synced q = true
  /\ new_baud_rate q = 57600
  /\ (exists q', @legoev3_uart_receive_buf ev3 q [LEGOEV3_UART_SYS_SYNC] = Done q'
                 /\ synced q' = false
                 /\ new_baud_rate q' = LEGOEV3_UART_SPEED_MIN
                 /\ change_bitrate_work q' = Some LEGOEV3_UART_SET_BITRATE_DELAY).
Proof.
  intros p q.
  assert (running p = true) as Hr by reflexivity.
  assert (data_rec p = false) as Hd by reflexivity.
  assert (num_data_err p = LEGOEV3_UART_MAX_DATA_ERR) as Hn by reflexivity.
  destruct (@keep_alive_over_threshold ev3 p Hr Hd Hn)
    as (Hv & _ & _ & Hs & _ & Hb & _ & _ & _ & _ & Hnext).
  split; [exact Hr|]. split; [exact Hd|]. split; [exact Hn|].
  split; [exact Hv|]. split; [exact Hs|]. split; [exact Hb|].
  apply (Hnext [LEGOEV3_UART_SYS_SYNC]).
  - split; reflexivity.
  - reflexivity.
  - left. left. reflexivity.
Defined.

(** * The current mode *)

(** C4 (as stated, refuted): the handshake declares two modes; a DATA
    frame with mode bits 5 and the right checksum makes 5 the current
    mode. *)
Lemma mode_beyond_num_modes :
  exists p, @reachable ev3 p /\ num_modes p = 2 /\ mode p = 5
            /\ ~ mode p < num_modes p.
Proof.
  exists (port_of (@receive_all ev3 legoev3_uart_open (handshake 16 ++ [data_mode_5]))).
  split; [|vm_compute; repeat split; discriminate].
  apply (receive_all_reachable (handshake 16 ++ [data_mode_5]) legoev3_uart_open).
  - apply reach_open.
  - vm_compute. reflexivity.
Qed.

(** C4 (amended): in every state reached from [legoev3_uart_open] by
    deliveries and keep-alive ticks without a DATA payload of more than 32
    bytes having been copied (that copy overwrites what lies behind
    [raw_data], see [data_frame_overruns_raw_data]; [reachable] leaves the
    states after it out, and the last part of the statement says that this
    is all it leaves out: every call on such a state ends in such a state,
    unless a pass of its message loop accepts a DATA frame of more than 32
    payload bytes), the current mode is at most 7, an index of the
    8-slot mode table.  A DATA frame of at most 32 payload bytes that a
    port with its handshake done accepts makes the mode bits of its header
    the current mode and leaves [num_modes] as it was: the mode is not
    compared with [num_modes]. *)
Theorem current_mode_in_table `{Target} (p : port_data) :
  reachable p ->
  0 <= mode p <= LEGOEV3_UART_MODE_MAX
  /\ (forall f,
       synced p = true -> info_done p = true -> empty_buffer p ->
       accepted_data p f = true ->
       exists q, legoev3_uart_receive_buf p f = Done q
                 /\ mode q = Z.land (byte_at f 0) LEGOEV3_UART_MSG_CMD_MASK
                 /\ num_modes q = num_modes p)
  /\ forall cp,
       (exists q, legoev3_uart_receive_buf p cp = Done q /\ reachable q)
       \/ (legoev3_uart_receive_buf p cp = Fault
           /\ exists p2 q,
                loop_entry p cp = Some p2 /\ loop_pass p2 q
                /\ oversized_data q (legoev3_uart_msg_size (byte_at (buffer q) 0))).
Proof.
  intros Hr. split; [|split].
  - induction Hr as [|p cp p' _ IH Hrecv|p _ IH].
    + apply open_valid_mode.
    + exact (receive_buf_valid_mode p p' cp Hrecv IH).
    + rewrite keep_alive_mode. exact IH.
  - intros f Hs Hi He Ha.
    destruct (receive_accepted_data p f Hs Hi He Ha) as (q & Hq & Hm & Hn & _).
    exists q. auto.
  - intros cp. destruct (receive_buf_done_or_overrun p cp) as [Hfault [[q Hq]|Hf]].
    + left. exists q. split; [exact Hq|]. eapply reach_receive; eauto.
    + right. split; [exact Hf|]. apply Hfault. exact Hf.
Qed.

(** The port after the handshake, and the DATA frame with mode bits 5. *)
Lemma current_mode_in_table_witness :
  let p := port_of (after_handshake 16) in
  @reachable ev3 p
  /\ 0 <= mode p <= LEGOEV3_UART_MODE_MAX
  /\ accepted_data p data_mode_5 = true
  /\ exists q, @legoev3_uart_receive_buf ev3 p data_mode_5 = Done q
               /\ mode q = 5 /\ num_modes q = 2.
Proof.
  intros p.
  assert (@reachable ev3 p) as Hr.
  { apply (receive_all_reachable (handshake 16) legoev3_uart_open).
    - apply reach_open.
    - vm_compute. reflexivity. }
  destruct (@current_mode_in_table ev3 p Hr) as (Hm & Hdata & _).
  split; [exact Hr|]. split; [exact Hm|]. split; [reflexivity|].
  apply (Hdata data_mode_5); try reflexivity. split; reflexivity.
Defined.

(** * The sync scanner *)

Lemma sync_scan_finds_triplet `{Target} (cp rest : list Z) (p q : port_data) :
  sync_scan p cp = Some (q, rest) -> has_triplet cp.
Proof.
  induction cp as [|cmd cp IH]; simpl; [discriminate|].
  destruct cp as [|t [|chk rest']]; try discriminate.
  assert (has_triplet (t :: chk :: rest') -> has_triplet (cmd :: t :: chk :: rest'))
    as Hcons.
  { intros (pre & t' & post & -> & Ht). exists (cmd :: pre), t', post. auto. }
  repeat case_match; auto.
  intros _. exists [], t, rest'.
  rewrite negb_false_iff, orb_false_iff in *.
  repeat match goal with
         | Hx : _ /\ _ |- _ => destruct Hx
         | Hx : (_ =? _) = true |- _ => apply Z.eqb_eq in Hx
         end.
  subst. unfold type_triplet. simpl. split; [reflexivity|]. lia.
Qed.

(** C5 (as stated, refuted): the TYPE command of a type 16 sensor, 40 10
    AF, syncs the port when it comes in one delivery and does not when the
    first byte comes in a delivery of its own: the port is then exactly as
    [legoev3_uart_open] left it. *)
Lemma split_triplet_not_recognized :
  ends_with (@receive_all ev3 legoev3_uart_open [[0x40; 0x10; 0xAF]])
    (fun p => synced p = true /\ type p = 16)
  /\ @receive_all ev3 legoev3_uart_open [[0x40]; [0x10; 0xAF]]
     = Done legoev3_uart_open
  /\ synced legoev3_uart_open = false.
Proof. vm_compute. auto. Qed.

Lemma sync_scan_unfold `{Target} (p : port_data) (cmd t chk : Z) (rest : list Z) :
  sync_scan p (cmd :: t :: chk :: rest)
  = if negb (cmd =? Z.lor LEGOEV3_UART_MSG_TYPE_CMD LEGOEV3_UART_CMD_TYPE)
    then sync_scan p (t :: chk :: rest)
    else if (t =? 0) || (t >? LEGOEV3_UART_TYPE_MAX)
    then sync_scan p (t :: chk :: rest)
    else if negb (chk =? Z.lxor (Z.lxor 0xFF cmd) t)
    then sync_scan p (t :: chk :: rest)
    else Some (sync_found t p, rest).
Proof. reflexivity. Qed.

(** The scanner tries every window of three bytes of the delivery in
    turn: it finds a TYPE command whenever the delivery holds one. *)
Lemma sync_scan_has_triplet `{Target} (p : port_data) (cp : list Z) :
  has_triplet cp -> exists q rest, sync_scan p cp = Some (q, rest).
Proof.
  intros (pre & t & post & -> & Hne & Hle).
  induction pre as [|b pre IH].
  - exists (sync_found t p), post. unfold type_triplet. cbn [app sync_scan].
    rewrite Z.eqb_refl. cbn [negb].
    destruct (Z.eqb_spec t 0); [contradiction|].
    destruct (Z.gtb_spec t LEGOEV3_UART_TYPE_MAX); [lia|].
    cbn [orb]. rewrite Z.eqb_refl. reflexivity.
  - destruct IH as (q & rest & IH).
    cbn [app]. destruct (pre ++ type_triplet t ++ post) as [|x [|y more]] eqn:Hcp.
    + destruct pre; discriminate Hcp.
    + destruct pre as [|? [|? ?]]; discriminate Hcp.
    + rewrite sync_scan_unfold. repeat case_match; eauto.
Qed.

(** What the scanner finds is the first TYPE command of the delivery. *)
Lemma sync_scan_first `{Target} (p q : port_data) (cp rest : list Z) :
  sync_scan p cp = Some (q, rest) ->
  exists pre t,
    cp = pre ++ type_triplet t ++ rest /\ q = sync_found t p
    /\ t <> 0 /\ t <= LEGOEV3_UART_TYPE_MAX
    /\ ~ has_triplet (pre ++ take 2 (type_triplet t)).
Proof.
  revert q rest. induction cp as [|cmd cp IH]; intros q rest; [discriminate|].
  destruct cp as [|t [|chk more]]; try discriminate.
  rewrite sync_scan_unfold.
  assert (forall pre' t',
            t :: chk :: more = pre' ++ type_triplet t' ++ rest ->
            ~ has_triplet (pre' ++ take 2 (type_triplet t')) ->
            (negb (cmd =? Z.lor LEGOEV3_UART_MSG_TYPE_CMD LEGOEV3_UART_CMD_TYPE)
             || ((t =? 0) || (t >? LEGOEV3_UART_TYPE_MAX))
             || negb (chk =? Z.lxor (Z.lxor 0xFF cmd) t)) = true ->
            ~ has_triplet ((cmd :: pre') ++ take 2 (type_triplet t'))) as Hstep.
  { intros pre' t' Heq Hno Hbad (pre2 & t2 & post2 & Hdec & Hne2 & Hle2).
    destruct pre2 as [|c pre2].
    - (* a command at the head: it is the window [cmd; t; chk] *)
      assert (cmd = Z.lor LEGOEV3_UART_MSG_TYPE_CMD LEGOEV3_UART_CMD_TYPE
              /\ t = t2
              /\ chk = Z.lxor (Z.lxor 0xFF (Z.lor LEGOEV3_UART_MSG_TYPE_CMD
                                                   LEGOEV3_UART_CMD_TYPE)) t2)
        as (-> & -> & ->).
      { assert (cmd :: t :: chk :: more
                = type_triplet t2 ++ post2 ++ drop 2 (type_triplet t') ++ rest) as Hw.
        { rewrite Heq. cbn [app] in Hdec.
          transitivity ((cmd :: pre' ++ take 2 (type_triplet t'))
                          ++ drop 2 (type_triplet t') ++ rest).
          - cbn [app]. f_equal. rewrite <- app_assoc. reflexivity.
          - rewrite Hdec, <- app_assoc. reflexivity. }
        unfold type_triplet in Hw. cbn [app] in Hw.
        injection Hw as -> -> -> _. auto. }
      rewrite Z.eqb_refl in Hbad. cbn [negb orb] in Hbad.
      rewrite Z.eqb_refl in Hbad. cbn [negb] in Hbad. rewrite orb_false_r in Hbad.
      destruct (Z.eqb_spec t2 0); [contradiction|].
      destruct (Z.gtb_spec t2 LEGOEV3_UART_TYPE_MAX); [lia|]. discriminate Hbad.
    - apply Hno. exists pre2, t2, post2. cbn [app] in Hdec.
      injection Hdec as _ Hdec. auto. }
  destruct (negb (cmd =? _)) eqn:Hcmd.
  { intros Hs. destruct (IH _ _ Hs) as (pre & t' & Heq & -> & Hne & Hle & Hno).
    exists (cmd :: pre), t'. rewrite Heq.
    split; [reflexivity|]. split; [reflexivity|]. split; [exact Hne|].
    split; [exact Hle|]. apply (Hstep pre t' Heq Hno). reflexivity. }
  destruct ((t =? 0) || (t >? LEGOEV3_UART_TYPE_MAX)) eqn:Hty.
  { intros Hs. destruct (IH _ _ Hs) as (pre & t' & Heq & -> & Hne & Hle & Hno).
    exists (cmd :: pre), t'. rewrite Heq.
    split; [reflexivity|]. split; [reflexivity|]. split; [exact Hne|].
    split; [exact Hle|]. apply (Hstep pre t' Heq Hno). reflexivity. }
  cbv zeta. destruct (negb (chk =? _)) eqn:Hchk.
  { intros Hs. destruct (IH _ _ Hs) as (pre & t' & Heq & -> & Hne & Hle & Hno).
    exists (cmd :: pre), t'. rewrite Heq.
    split; [reflexivity|]. split; [reflexivity|]. split; [exact Hne|].
    split; [exact Hle|]. apply (Hstep pre t' Heq Hno). reflexivity. }
  intros [= <- <-].
  apply negb_false_iff, Z.eqb_eq in Hcmd, Hchk. apply orb_false_iff in Hty as [H0 Hmax].
  apply Z.eqb_neq in H0. subst cmd chk.
  exists [], t. split; [reflexivity|]. split; [reflexivity|]. split; [exact H0|].
  split; [destruct (Z.gtb_spec t LEGOEV3_UART_TYPE_MAX); [discriminate|lia]|].
  intros (pre2 & t2 & post2 & Hdec & _).
  apply (f_equal (@length Z)) in Hdec. rewrite !length_app in Hdec.
  cbn in Hdec. lia.
Qed.

(** C5 (amended): while the port is not synced the scanner keeps nothing
    from one delivery to the next.  A delivery that does not hold a whole
    TYPE command of an admissible type (in particular one of fewer than 3
    bytes) leaves the port as it was.  A delivery that holds one, with
    whatever bytes before and after it, syncs the port on the first of
    them: the port takes the assignments of the sync (the type of the
    command, one mode, the default mode table, the flag of the TYPE
    command alone, handshake not done, nothing buffered, no error counted)
    and the bytes after the command are handled as a delivery to that
    synced port.  The three bytes of such a command delivered alone leave
    exactly that port. *)
Theorem scanner_keeps_nothing `{Target} (p : port_data) (cp : list Z) :
  synced p = false ->
  (~ has_triplet cp -> legoev3_uart_receive_buf p cp = Done p)
  /\ ((length cp < 3)%nat -> legoev3_uart_receive_buf p cp = Done p)
  /\ (has_triplet cp ->
        exists pre t post,
          cp = pre ++ type_triplet t ++ post
          /\ t <> 0 /\ t <= LEGOEV3_UART_TYPE_MAX
          /\ ~ has_triplet (pre ++ take 2 (type_triplet t))
          /\ legoev3_uart_receive_buf p cp
             = legoev3_uart_receive_buf (sync_found t p) post)
  /\ (forall t, 0 < t <= LEGOEV3_UART_TYPE_MAX ->
        legoev3_uart_receive_buf p (type_triplet t) = Done (sync_found t p))
  /\ forall t,
       let q := sync_found t p in
       synced q = true /\ type q = t
       /\ num_modes q = 1 /\ num_view_modes q = 1
       /\ mode_info q = replicate 8 legoev3_uart_default_mode_info
       /\ info_flags q = LEGOEV3_UART_INFO_FLAG_CMD_TYPE
       /\ info_done q = false /\ write_ptr q = 0
       /\ data_rec q = false /\ num_data_err q = 0
       /\ mode q = mode p /\ new_baud_rate q = new_baud_rate p
       /\ last_err q = last_err p /\ buffer q = buffer p.
Proof.
  intros Hs. split; [|split; [|split; [|split]]].
  - unfold legoev3_uart_receive_buf. rewrite Hs.
    intros Hno. destruct (sync_scan p cp) as [[q rest]|] eqn:Hscan; [|reflexivity].
    exfalso. apply Hno. eapply sync_scan_finds_triplet. exact Hscan.
  - unfold legoev3_uart_receive_buf. rewrite Hs.
    intros Hlen. destruct cp as [|a [|b [|c cp]]]; simpl in *; try reflexivity. lia.
  - intros Hhas. destruct (sync_scan_has_triplet p cp Hhas) as (q & rest & Hscan).
    destruct (sync_scan_first p q cp rest Hscan)
      as (pre & t & Hcp & -> & Hne & Hle & Hfirst).
    exists pre, t, rest. split; [exact Hcp|]. split; [exact Hne|].
    split; [exact Hle|]. split; [exact Hfirst|].
    unfold legoev3_uart_receive_buf at 1. rewrite Hs, Hscan.
    unfold legoev3_uart_receive_buf. reflexivity.
  - intros t Ht. unfold legoev3_uart_receive_buf. rewrite Hs.
    unfold type_triplet. rewrite sync_scan_unfold.
    rewrite Z.eqb_refl. cbn [negb].
    destruct (Z.eqb_spec t 0); [lia|].
    destruct (Z.gtb_spec t LEGOEV3_UART_TYPE_MAX); [lia|].
    cbn [orb]. rewrite Z.eqb_refl. cbn [negb append_loop].
    apply process_loop_empty. reflexivity.
  - intros t. cbv zeta. repeat split.
Qed.

(** A fresh port: two bytes of the TYPE command of a type 16 sensor, the
    whole command, and the command in the middle of other bytes. *)
Lemma scanner_keeps_nothing_witness :
  synced legoev3_uart_open = false
  /\ @legoev3_uart_receive_buf ev3 legoev3_uart_open [0x40; 0x10] = Done legoev3_uart_open
  /\ @legoev3_uart_receive_buf ev3 legoev3_uart_open (type_triplet 16)
     = Done (sync_found 16 legoev3_uart_open)
  /\ synced (sync_found 16 legoev3_uart_open) = true
  /\ type (sync_found 16 legoev3_uart_open) = 16
  /\ @has_triplet ev3 ([0x00; 0x40] ++ type_triplet 16 ++ [0x02])
  /\ exists pre t post,
       [0x00; 0x40] ++ type_triplet 16 ++ [0x02] = pre ++ type_triplet t ++ post
       /\ @legoev3_uart_receive_buf ev3 legoev3_uart_open
            ([0x00; 0x40] ++ type_triplet 16 ++ [0x02])
          = @legoev3_uart_receive_buf ev3 (sync_found t legoev3_uart_open) post.
Proof.
  assert (@has_triplet ev3 ([0x00; 0x40] ++ type_triplet 16 ++ [0x02])) as Hhas.
  { exists [0x00; 0x40], 16, [0x02]. split; [reflexivity|].
    split; [discriminate|]. vm_compute. discriminate. }
  destruct (@scanner_keeps_nothing ev3 legoev3_uart_open [0x40; 0x10] eq_refl)
    as (_ & Hshort & _ & Hwhole & Hfields).
  destruct (@scanner_keeps_nothing ev3 legoev3_uart_open
              ([0x00; 0x40] ++ type_triplet 16 ++ [0x02]) eq_refl)
    as (_ & _ & Hany & _).
  destruct (Hfields 16) as (Hsy & Hty & _).
  split; [reflexivity|]. split; [apply Hshort; simpl; lia|].
  split; [apply Hwhole; simpl; lia|].
  split; [exact Hsy|]. split; [exact Hty|]. split; [exact Hhas|].
  destruct (Hany Hhas) as (pre & t & post & Hcp & _ & _ & _ & Hr).
  exists pre, t, post. split; [exact Hcp|exact Hr].
Defined.

(** * Reading a value *)

(** C6 (as stated, refuted): the session has run, received the value 42
    and then fallen out of sync on an unknown command.  It is not running,
    and [value0] still reads 42 from the mode table. *)
Lemma value_read_after_resync :
  ends_with (@receive_all ev3 (port_of (after_handshake 16)) [good_data; [0x43; 0x00; 0xBC]])
    (fun p => running p = false /\ synced p = false
              /\ last_err p = Some "Unknown command."%string
              /\ forall ftoi, legoev3_uart_show_value ftoi p 0 = Printed 42).
Proof. vm_compute. repeat split; auto. Qed.

(** C6 (amended): [legoev3_uart_show_value] prints an integer exactly when
    the index is below [data_sets] of the current mode and the format of
    that mode is one of the four known ones, and returns [-ENXIO]
    otherwise; it looks at neither [synced] nor [info_done]. *)
Theorem show_value_ready (ftoi : Z -> Z -> Z) (p : port_data) (i : Z) :
  let m := mode_info_at p (mode p) in
  let ready :=
    i < data_sets m
    /\ In (format m) [LEGOEV3_UART_DATA_8; LEGOEV3_UART_DATA_16;
                      LEGOEV3_UART_DATA_32; LEGOEV3_UART_DATA_FLOAT] in
  ((exists v, legoev3_uart_show_value ftoi p i = Printed v) <-> ready)
  /\ (legoev3_uart_show_value ftoi p i = Errno ENXIO <-> ~ ready)
  /\ forall s d, legoev3_uart_show_value ftoi (set_info_done d (set_synced s p)) i
                 = legoev3_uart_show_value ftoi p i.
Proof.
  cbv zeta. unfold legoev3_uart_show_value.
  unfold LEGOEV3_UART_DATA_8, LEGOEV3_UART_DATA_16, LEGOEV3_UART_DATA_32,
    LEGOEV3_UART_DATA_FLOAT. simpl In.
  split; [|split]; [| |reflexivity].
  - repeat case_match; split;
      try (intros [v Hv]; discriminate Hv);
      try (intros _; eexists; reflexivity);
      rewrite ?Z.eqb_eq, ?Z.eqb_neq in *; try lia.
  - repeat case_match; split; try discriminate; try reflexivity;
      rewrite ?Z.eqb_eq, ?Z.eqb_neq in *; try lia.
Qed.

(** * More of the driver *)

(** ** The shape of the port *)

Lemma mode_info_at_Forall (P : mode_info_t -> Prop) (p : port_data) (m : Z) :
  Forall P (mode_info p) -> P legoev3_uart_default_mode_info ->
  P (mode_info_at p m).
Proof.
  intros Hall Hd. unfold mode_info_at.
  destruct (mode_info p !! Z.to_nat m) as [x|] eqn:Hx; simpl; [|exact Hd].
  eapply Forall_lookup_1; eauto.
Qed.

Lemma upd_mode_info_Forall (P : mode_info_t -> Prop) (p : port_data) (m : Z)
    (f : mode_info_t -> mode_info_t) :
  Forall P (mode_info p) -> P legoev3_uart_default_mode_info ->
  (forall x, P x -> P (f x)) ->
  Forall P (mode_info (upd_mode_info m f p)).
Proof.
  intros Hall Hd Hf. unfold upd_mode_info. simpl.
  apply Forall_insert; [exact Hall|]. apply Hf. apply mode_info_at_Forall; auto.
Qed.

Lemma memcpy_length (dst src : list Z) (n : Z) :
  0 <= n <= Z.of_nat (length dst) -> n <= Z.of_nat (length src) ->
  length (memcpy dst src n) = length dst.
Proof.
  intros Hd Hs. unfold memcpy. rewrite length_app, length_take, length_drop. lia.
Qed.

Lemma store_at_bytes (a : list Z) (i v : Z) :
  Forall is_byte a -> is_byte v -> Forall is_byte (store_at a i v).
Proof. intros Ha Hv. unfold store_at. apply Forall_insert; assumption. Qed.

Lemma is_byte_0 : is_byte 0.
Proof. unfold is_byte. lia. Qed.

(** One pass of the message loop keeps the shape. *)
Lemma process_msg_well_shaped `{Target} (p q : port_data) (ms : Z) :
  flow_port (process_msg p ms) = Some q ->
  ms = legoev3_uart_msg_size (byte_at (buffer p) 0) -> ms <= write_ptr p ->
  well_shaped p -> well_shaped q.
Proof.
  unfold well_shaped, LEGOEV3_UART_BUFFER_SIZE, LEGOEV3_UART_MODE_MAX,
    LEGOEV3_UART_SENSOR_DATA_SIZE.
  intros Hm Hms Hle (Hbl & Hbb & Hw & Hml & Hrd).
  pose proof (msg_size_range (byte_at (buffer p) 0)) as Hr.
  assert (Z.land (byte_at (buffer p) 0) LEGOEV3_UART_MSG_TYPE_MASK <> 0 -> 3 <= ms)
    as Hdata.
  { intros Hne. subst ms. unfold legoev3_uart_msg_size.
    pose proof (cmd_size_range (byte_at (buffer p) 0)).
    apply Z.eqb_neq in Hne. rewrite Hne. case_match; lia. }
  flow_paths; simpl in Hm; try discriminate; injection Hm as <-;
    unfold upd_mode_info; simpl;
    rewrite ?length_insert, ?store_at_length;
    (split; [assumption|]);
    (split; [try assumption; try (apply store_at_bytes; [assumption|apply is_byte_0])|]);
    (split; [assumption|]); (split; [assumption|]);
    try assumption.
  all: repeat (apply Forall_insert; [|try (apply mode_info_at_Forall; [|reflexivity])]);
    simpl; try assumption.
  all: assert (length (raw_data (mode_info_at p
                 (Z.land (byte_at (buffer p) 0) LEGOEV3_UART_MSG_CMD_MASK)))
               = Z.to_nat 32) as Hlen
         by (apply (mode_info_at_Forall
                      (fun m => length (raw_data m) = Z.to_nat 32)); auto).
  all: match goal with
       | Hsys : (_ =? LEGOEV3_UART_MSG_TYPE_SYS) = false |- _ =>
         apply Z.eqb_neq in Hsys; specialize (Hdata Hsys)
       end.
  all: unfold LEGOEV3_UART_SENSOR_DATA_SIZE in *.
  all: rewrite memcpy_length;
    [exact Hlen| change (mode_info_at (set_mode _ p)) with (mode_info_at p); lia
    | rewrite length_drop; lia].
Qed.

Lemma shift_loop_bytes (n : nat) (i ms : Z) (buf : list Z) :
  Forall is_byte buf -> Forall is_byte (shift_loop n i ms buf).
Proof.
  revert i buf. induction n as [|n IH]; intros i buf Hb; simpl; [exact Hb|].
  apply IH. apply store_at_bytes; [exact Hb|].
  unfold byte_at. destruct (buf !! Z.to_nat (i + ms)) as [x|] eqn:Hx; simpl.
  - eapply Forall_lookup_1; eauto.
  - apply is_byte_0.
Qed.

Lemma drop_msg_well_shaped (p : port_data) (ms : Z) :
  0 <= ms -> well_shaped p -> well_shaped (drop_msg p ms).
Proof.
  unfold well_shaped. intros Hms (Hbl & Hbb & Hw & Hml & Hrd). simpl.
  rewrite shift_loop_length. repeat split; auto using shift_loop_bytes; lia.
Qed.

Lemma err_invalid_state_well_shaped (p : port_data) :
  well_shaped p -> well_shaped (err_invalid_state p).
Proof. intros Hp. exact Hp. Qed.

Lemma process_loop_well_shaped `{Target} (fuel : nat) (p q : port_data) :
  process_loop fuel p = Done q -> well_shaped p -> well_shaped q.
Proof.
  revert p. induction fuel as [|fuel IH]; intros p; [discriminate|].
  rewrite process_loop_unfold. cbv zeta.
  pose proof (msg_size_range (byte_at (buffer p) 0)) as Hr.
  destruct (Z.leb_spec (legoev3_uart_msg_size (byte_at (buffer p) 0)) (write_ptr p))
    as [Hle|]; [|intros [= <-]; auto].
  destruct (process_msg p _) as [p' ms'|p' ms'|p'|] eqn:Hm; intros Hd Hp;
    try discriminate;
    assert (well_shaped p')
      by (eapply process_msg_well_shaped; [rewrite Hm; reflexivity| | |]; eauto).
  - destruct (over_threshold p'); [injection Hd as <-; assumption|].
    apply process_msg_next in Hm as [_ Hs].
    eapply IH; [exact Hd|]. apply drop_msg_well_shaped; [|assumption].
    destruct Hs as [->| ->]; [lia|]. unfold u8. apply Z.mod_pos_bound. lia.
  - apply process_msg_skip in Hm as [_ ->].
    eapply IH; [exact Hd|]. apply drop_msg_well_shaped; [lia|assumption].
  - injection Hd as <-. assumption.
Qed.

Lemma append_loop_well_shaped (cp : list Z) (p q : port_data) :
  Forall is_byte cp ->
  append_loop p cp = inl q \/ append_loop p cp = inr q ->
  well_shaped p -> well_shaped q.
Proof.
  revert p. induction cp as [|c cp IH]; intros p Hcp; simpl.
  - intros [[= <-]|[=]]. auto.
  - inversion Hcp as [|? ? Hc Hcp']; subst.
    destruct (Z.geb_spec (write_ptr p) LEGOEV3_UART_BUFFER_SIZE);
      [intros [[=]|[= <-]]; auto|].
    intros Hq Hp. eapply IH; [exact Hcp'|exact Hq|].
    unfold well_shaped in *. destruct Hp as (Hbl & Hbb & Hw & Hml & Hrd). simpl.
    rewrite store_at_length. repeat split; auto using store_at_bytes; lia.
Qed.

Lemma sync_found_well_shaped (t : Z) (p : port_data) :
  well_shaped p -> well_shaped (sync_found t p).
Proof.
  unfold well_shaped. intros (Hbl & Hbb & Hw & Hml & Hrd). simpl.
  repeat split; auto; try (unfold LEGOEV3_UART_BUFFER_SIZE; lia).
  repeat constructor.
Qed.

(** What the scanner leaves with: the port synced on a type taken from
    the delivery, and the bytes that follow the TYPE command. *)
Lemma sync_scan_result `{Target} (cp rest : list Z) (p q : port_data) :
  sync_scan p cp = Some (q, rest) ->
  exists t, q = sync_found t p /\ In t cp /\ t <> 0 /\ t <= LEGOEV3_UART_TYPE_MAX
            /\ exists pre, cp = pre ++ rest.
Proof.
  induction cp as [|cmd cp IH]; simpl; [discriminate|].
  destruct cp as [|t [|chk rest']]; try discriminate.
  assert (sync_scan p (t :: chk :: rest') = Some (q, rest) ->
          exists t0, q = sync_found t0 p /\ In t0 (cmd :: t :: chk :: rest')
                     /\ t0 <> 0 /\ t0 <= LEGOEV3_UART_TYPE_MAX
                     /\ exists pre, cmd :: t :: chk :: rest' = pre ++ rest) as Hcons.
  { intros Hs. destruct (IH Hs) as (t0 & Hq & Hin & Hne & Hle & pre & Hpre).
    exists t0. repeat split; auto; [right; exact Hin|].
    exists (cmd :: pre). rewrite Hpre. reflexivity. }
  repeat case_match; auto.
  intros [= <- <-]. exists t. rewrite orb_false_iff in *.
  repeat split; try lia; [right; left; reflexivity|].
  exists [cmd; t; chk]. reflexivity.
Qed.

Lemma receive_buf_well_shaped `{Target} (p q : port_data) (cp : list Z) :
  Forall is_byte cp -> legoev3_uart_receive_buf p cp = Done q ->
  well_shaped p -> well_shaped q.
Proof.
  unfold legoev3_uart_receive_buf. intros Hcp Hr Hp.
  assert (forall p1 rest, well_shaped p1 -> Forall is_byte rest ->
            match append_loop p1 rest with
            | inl p2 => process_loop (S (Z.to_nat (write_ptr p2))) p2
            | inr p2 => Done (err_invalid_state p2)
            end = Done q -> well_shaped q) as Htail.
  { intros p1 rest Hp1 Hrest.
    destruct (append_loop p1 rest) as [p2|p2] eqn:Ha; intros Hq.
    - eapply process_loop_well_shaped; [exact Hq|].
      eapply append_loop_well_shaped; eauto.
    - injection Hq as <-. apply err_invalid_state_well_shaped.
      eapply append_loop_well_shaped; eauto. }
  destruct (synced p).
  - eapply Htail; eauto.
  - destruct (sync_scan p cp) as [[p1 rest]|] eqn:Hs.
    + destruct (sync_scan_result _ _ _ _ Hs) as (t & -> & _ & _ & _ & pre & ->).
      apply Forall_app in Hcp as [_ Hrest].
      eapply Htail; [|exact Hrest|exact Hr].
      apply sync_found_well_shaped. exact Hp.
    + injection Hr as <-. exact Hp.
Qed.

Lemma keep_alive_well_shaped (p : port_data) :
  well_shaped p -> well_shaped (fst (legoev3_uart_keep_alive_timer_callback p)).
Proof.
  unfold legoev3_uart_keep_alive_timer_callback.
  repeat case_match; intros Hp; exact Hp.
Qed.

Lemma open_well_shaped : well_shaped legoev3_uart_open.
Proof.
  unfold well_shaped, legoev3_uart_open.
  cbn [buffer write_ptr mode_info].
  split; [apply length_replicate|].
  split; [apply Forall_replicate, is_byte_0|].
  split; [unfold LEGOEV3_UART_BUFFER_SIZE; lia|].
  split; [apply length_replicate|].
  apply Forall_replicate. apply length_replicate.
Qed.

Lemma on_wire_well_shaped `{Target} (p : port_data) : on_wire p -> well_shaped p.
Proof.
  induction 1 as [|p cp p' _ IH Hcp Hr|p _ IH].
  - apply open_well_shaped.
  - eapply receive_buf_well_shaped; eauto.
  - apply keep_alive_well_shaped. exact IH.
Qed.

(** ** An invariant rule for the receive callback *)

(** Every delivery of bytes to a port on the wire leaves a port on the
    wire, unless a pass of its message loop accepts a DATA frame of more
    than 32 payload bytes. *)
Lemma on_wire_next `{Target} (p : port_data) (cp : list Z) :
  on_wire p -> Forall is_byte cp ->
  (exists q, legoev3_uart_receive_buf p cp = Done q /\ on_wire q)
  \/ (legoev3_uart_receive_buf p cp = Fault
      /\ exists p2 q,
           loop_entry p cp = Some p2 /\ loop_pass p2 q
           /\ oversized_data q (legoev3_uart_msg_size (byte_at (buffer q) 0))).
Proof.
  intros Hp Hcp. destruct (receive_buf_done_or_overrun p cp) as [Hfault [[q Hq]|Hf]].
  - left. exists q. split; [exact Hq|]. eapply wire_receive; eauto.
  - right. split; [exact Hf|]. apply Hfault. exact Hf.
Qed.

Lemma byte_at_is_byte (a : list Z) (i : Z) : Forall is_byte a -> is_byte (byte_at a i).
Proof.
  intros Ha. unfold byte_at. destruct (a !! Z.to_nat i) as [x|] eqn:Hx; simpl.
  - eapply Forall_lookup_1; eauto.
  - apply is_byte_0.
Qed.

Lemma append_loop_synced (cp : list Z) (p q : port_data) :
  append_loop p cp = inl q \/ append_loop p cp = inr q -> synced q = synced p.
Proof.
  revert p. induction cp as [|c cp IH]; intros p; simpl.
  - intros [[= <-]|[=]]. reflexivity.
  - destruct (_ >=? _); [intros [[=]|[= <-]]; reflexivity|].
    intros Hq. rewrite (IH _ Hq). reflexivity.
Qed.

(** No message handler touches [synced]: the session ends only at the
    label [err_invalid_state]. *)
Lemma process_msg_synced `{Target} (p q : port_data) (ms : Z) :
  flow_port (process_msg p ms) = Some q -> synced q = synced p.
Proof.
  intros Hm. flow_paths; simpl in Hm; try discriminate; injection Hm as <-;
    reflexivity.
Qed.

Section SessionRule.

Context `{Target}.
Variable I : port_data -> Prop.

(** The property does not look at the receive buffer and survives the
    resync and the sync on an admissible type; on a well-shaped, synced port
    every pass of the message loop that goes on keeps it, and every pass
    that gives the session up leaves it after the resync. *)
Hypothesis I_buffer : forall p b w, I p -> I (set_write_ptr w (set_buffer b p)).
Hypothesis I_resync : forall p, I p -> I (err_invalid_state p).
Hypothesis I_sync :
  forall p t, is_byte t -> t <> 0 -> t <= LEGOEV3_UART_TYPE_MAX -> I p -> I (sync_found t p).
Hypothesis I_next :
  forall p q ms ms', well_shaped p -> synced p = true -> I p ->
                     process_msg p ms = Next q ms' \/ process_msg p ms = Skip q ms' ->
                     I q.
Hypothesis I_invalid :
  forall p q ms, well_shaped p -> synced p = true -> I p ->
                 process_msg p ms = Invalid q -> I (err_invalid_state q).
Hypothesis I_tick : forall p, I p -> I (fst (legoev3_uart_keep_alive_timer_callback p)).
Hypothesis I_open : I legoev3_uart_open.

Lemma process_loop_keeps (fuel : nat) (p q : port_data) :
  process_loop fuel p = Done q -> well_shaped p -> synced p = true -> I p -> I q.
Proof using I_buffer I_resync I_next I_invalid.
  revert p. induction fuel as [|fuel IH]; intros p; [discriminate|].
  rewrite process_loop_unfold. cbv zeta.
  pose proof (msg_size_range (byte_at (buffer p) 0)) as Hr.
  destruct (Z.leb_spec (legoev3_uart_msg_size (byte_at (buffer p) 0)) (write_ptr p))
    as [Hle|]; [|intros [= <-]; auto].
  destruct (process_msg p _) as [p' ms'|p' ms'|p'|] eqn:Hm; intros Hd Hp Hs Hi;
    try discriminate;
    assert (well_shaped p')
      by (eapply process_msg_well_shaped; [rewrite Hm; reflexivity| | |]; eauto);
    assert (synced p' = true)
      by (rewrite <- Hs; eapply process_msg_synced; rewrite Hm; reflexivity).
  - assert (I p') by (eapply I_next; [exact Hp|exact Hs|exact Hi|left; exact Hm]).
    destruct (over_threshold p'); [injection Hd as <-; auto|].
    apply process_msg_next in Hm as [_ Hms].
    eapply IH; [exact Hd| |assumption|apply I_buffer; assumption].
    apply drop_msg_well_shaped; [|assumption].
    destruct Hms as [->| ->]; [lia|]. unfold u8. apply Z.mod_pos_bound. lia.
  - assert (I p') by (eapply I_next; [exact Hp|exact Hs|exact Hi|right; exact Hm]).
    apply process_msg_skip in Hm as [_ ->].
    eapply IH; [exact Hd| |assumption|apply I_buffer; assumption].
    apply drop_msg_well_shaped; [lia|assumption].
  - injection Hd as <-. eapply I_invalid; [exact Hp|exact Hs|exact Hi|exact Hm].
Qed.

Lemma append_loop_keeps (cp : list Z) (p q : port_data) :
  append_loop p cp = inl q \/ append_loop p cp = inr q -> I p -> I q.
Proof using I_buffer.
  revert p. induction cp as [|c cp IH]; intros p; simpl.
  - intros [[= <-]|[=]]. auto.
  - destruct (_ >=? _); [intros [[=]|[= <-]]; auto|].
    intros Hq Hp. eapply IH; [exact Hq|]. apply I_buffer. exact Hp.
Qed.

Lemma receive_buf_keeps (p q : port_data) (cp : list Z) :
  Forall is_byte cp -> legoev3_uart_receive_buf p cp = Done q ->
  well_shaped p -> I p -> I q.
Proof using I_buffer I_resync I_sync I_next I_invalid.
  unfold legoev3_uart_receive_buf. intros Hcp Hr Hp Hi.
  assert (forall p1 rest, well_shaped p1 -> synced p1 = true -> I p1 ->
            Forall is_byte rest ->
            match append_loop p1 rest with
            | inl p2 => process_loop (S (Z.to_nat (write_ptr p2))) p2
            | inr p2 => Done (err_invalid_state p2)
            end = Done q -> I q) as Htail.
  { intros p1 rest Hp1 Hs1 Hi1 Hrest.
    destruct (append_loop p1 rest) as [p2|p2] eqn:Ha; intros Hq.
    - eapply process_loop_keeps; [exact Hq| | |].
      + eapply append_loop_well_shaped; eauto.
      + rewrite <- Hs1. eapply append_loop_synced; eauto.
      + eapply append_loop_keeps; eauto.
    - injection Hq as <-. apply I_resync. eapply append_loop_keeps; eauto. }
  destruct (synced p) eqn:Hsy.
  - eapply Htail; eauto.
  - destruct (sync_scan p cp) as [[p1 rest]|] eqn:Hs.
    + destruct (sync_scan_result _ _ _ _ Hs) as (t & -> & Hin & Hne & Hle & pre & ->).
      assert (is_byte t) by (rewrite Forall_forall in Hcp; apply Hcp, list_elem_of_In, Hin).
      apply Forall_app in Hcp as [_ Hrest].
      eapply Htail; [| | |exact Hrest|exact Hr].
      * apply sync_found_well_shaped. exact Hp.
      * reflexivity.
      * apply I_sync; auto.
    + injection Hr as <-. exact Hi.
Qed.

Lemma session_keeps (p : port_data) : on_wire p -> I p.
Proof using All.
  induction 1 as [|p cp p' Hw IH Hcp Hr|p _ IH].
  - exact I_open.
  - eapply receive_buf_keeps; eauto. apply on_wire_well_shaped. exact Hw.
  - apply I_tick. exact IH.
Qed.

End SessionRule.

(** The same rule for a property that every pass of the message loop
    keeps, also the passes that give the session up. *)
Section InvariantRule.

Context `{Target}.
Variable I : port_data -> Prop.

Hypothesis I_buffer : forall p b w, I p -> I (set_write_ptr w (set_buffer b p)).
Hypothesis I_resync : forall p, I p -> I (err_invalid_state p).
Hypothesis I_sync :
  forall p t, is_byte t -> t <> 0 -> t <= LEGOEV3_UART_TYPE_MAX -> I p -> I (sync_found t p).
Hypothesis I_msg :
  forall p q ms, well_shaped p -> synced p = true -> I p ->
                 flow_port (process_msg p ms) = Some q -> I q.
Hypothesis I_tick : forall p, I p -> I (fst (legoev3_uart_keep_alive_timer_callback p)).
Hypothesis I_open : I legoev3_uart_open.

Lemma on_wire_keeps (p : port_data) : on_wire p -> I p.
Proof using All.
  apply session_keeps; auto.
  - intros p0 q ms ms' Hp Hs Hi [Hm|Hm];
      (eapply I_msg; [exact Hp|exact Hs|exact Hi|rewrite Hm; reflexivity]).
  - intros p0 q ms Hp Hs Hi Hm. apply I_resync.
    eapply I_msg; [exact Hp|exact Hs|exact Hi|rewrite Hm; reflexivity].
Qed.

End InvariantRule.

(** ** What holds of every port on the wire *)

Ltac msg_paths Hm :=
  flow_paths; simpl in Hm; try discriminate; injection Hm as <-; simpl.

Lemma receive_all_on_wire `{Target} (ds : list (list Z)) (p q : port_data) :
  on_wire p -> Forall (Forall is_byte) ds -> receive_all p ds = Done q -> on_wire q.
Proof.
  revert p. induction ds as [|cp ds IH]; intros p Hp Hds; simpl.
  - intros [= <-]. exact Hp.
  - inversion Hds; subst.
    destruct (legoev3_uart_receive_buf p cp) as [p'| |] eqn:Hr; try discriminate.
    apply IH; [|assumption]. eapply wire_receive; eauto.
Qed.

Lemma all_bytes_spec (cp : list Z) : all_bytes cp = true -> Forall is_byte cp.
Proof.
  unfold all_bytes. rewrite forallb_forall, Forall_forall.
  intros Hall b Hb. apply list_elem_of_In, Hall in Hb.
  apply andb_true_iff in Hb as [H0 H1]. unfold is_byte. lia.
Qed.

Lemma all_deliveries_spec (ds : list (list Z)) :
  all_deliveries ds = true -> Forall (Forall is_byte) ds.
Proof.
  unfold all_deliveries. rewrite forallb_forall, Forall_forall.
  intros Hall cp Hcp. apply all_bytes_spec, Hall, list_elem_of_In, Hcp.
Qed.

(** Whatever bytes are delivered after the open, the port is on the wire. *)
Lemma deliveries_on_wire `{Target} (ds : list (list Z)) :
  all_deliveries ds = true -> on_wire (port_of (receive_all legoev3_uart_open ds)).
Proof.
  intros Hds. destruct (receive_all legoev3_uart_open ds) as [q| |] eqn:Hr;
    try apply wire_open.
  apply (receive_all_on_wire ds legoev3_uart_open); auto using wire_open.
  apply all_deliveries_spec, Hds.
Qed.

(** The sensor of [handshake] is a port on the wire. *)
Lemma handshake_on_wire : @on_wire ev3 (port_of (after_handshake 16)).
Proof.
  apply (receive_all_on_wire (handshake 16) legoev3_uart_open).
  - apply wire_open.
  - apply all_deliveries_spec. vm_compute. reflexivity.
  - vm_compute. reflexivity.
Qed.

(** X1: [write_ptr] stays within the receive buffer.  In every state
    reached from [legoev3_uart_open] by deliveries of bytes and keep-alive
    ticks, without a DATA payload of more than 32 bytes having been copied,
    [write_ptr] is between 0 and 256, the size of [buffer]: the append loop
    stores at [buffer[write_ptr]] only below 256, and a pass of the message
    loop only lowers it. *)
Theorem port_memory_bounded `{Target} (p : port_data) :
  on_wire p ->
  0 <= write_ptr p <= LEGOEV3_UART_BUFFER_SIZE.
Proof.
  intros Hp. destruct (on_wire_well_shaped p Hp) as (_ & _ & Hw & _). exact Hw.
Qed.

Lemma port_memory_bounded_witness :
  @on_wire ev3 (port_of (after_handshake 16))
  /\ write_ptr (port_of (after_handshake 16)) = 0
  /\ 0 <= write_ptr (port_of (after_handshake 16)) <= LEGOEV3_UART_BUFFER_SIZE.
Proof.
  split; [exact handshake_on_wire|]. split; [reflexivity|].
  exact (@port_memory_bounded ev3 _ handshake_on_wire).
Defined.

(** X2: the baud rate the driver is about to switch to is between 2400
    and 460800 in every state reached from [legoev3_uart_open] by
    deliveries of bytes and keep-alive ticks without a DATA payload of more
    than 32 bytes having been copied (that copy can overwrite
    [new_baud_rate]). *)
Theorem new_baud_rate_in_range `{Target} (p : port_data) :
  on_wire p ->
  LEGOEV3_UART_SPEED_MIN <= new_baud_rate p <= LEGOEV3_UART_SPEED_MAX.
Proof.
  unfold LEGOEV3_UART_SPEED_MIN, LEGOEV3_UART_SPEED_MAX.
  apply (on_wire_keeps (fun p => 2400 <= new_baud_rate p <= 460800)).
  - auto.
  - intros p0 _. simpl. unfold LEGOEV3_UART_SPEED_MIN. lia.
  - auto.
  - intros p0 q ms _ _ Hi Hm.
    unfold LEGOEV3_UART_SPEED_MIN, LEGOEV3_UART_SPEED_MAX in *.
    msg_paths Hm; try assumption.
    rewrite orb_false_iff in *.
    unfold LEGOEV3_UART_SPEED_MIN, LEGOEV3_UART_SPEED_MAX in *.
    cbn [buffer set_info_flags] in *. lia.
  - intros p0 Hi. unfold legoev3_uart_keep_alive_timer_callback.
    repeat case_match; exact Hi.
  - simpl. unfold LEGOEV3_UART_SPEED_MIN. lia.
Qed.

Lemma new_baud_rate_in_range_witness :
  @on_wire ev3 (port_of (after_handshake 16))
  /\ new_baud_rate (port_of (after_handshake 16)) = 57600
  /\ LEGOEV3_UART_SPEED_MIN <= new_baud_rate (port_of (after_handshake 16))
     <= LEGOEV3_UART_SPEED_MAX.
Proof.
  split; [exact handshake_on_wire|]. split; [reflexivity|].
  exact (@new_baud_rate_in_range ev3 _ handshake_on_wire).
Defined.

(** X3: the number of modes is at most 8, and at least 1 while the port is
    synced, in every state reached from [legoev3_uart_open] by deliveries
    of bytes and keep-alive ticks without a DATA payload of more than 32
    bytes having been copied (that copy can overwrite [num_modes]). *)
Theorem num_modes_in_range `{Target} (p : port_data) :
  on_wire p ->
  0 <= num_modes p <= LEGOEV3_UART_MODE_MAX + 1
  /\ (synced p = true -> 1 <= num_modes p).
Proof.
  unfold LEGOEV3_UART_MODE_MAX.
  apply (on_wire_keeps
           (fun p => 0 <= num_modes p <= 7 + 1 /\ (synced p = true -> 1 <= num_modes p))).
  - auto.
  - intros p0 [Hr _]. simpl. split; [exact Hr|discriminate].
  - intros p0 t _ _ _ _. simpl. split; [lia|]. intros _. lia.
  - intros p0 q ms (_ & Hbb & _) _ [Hr Hs] Hm.
    pose proof (byte_at_is_byte (buffer p0) 1 Hbb) as Hb1. unfold is_byte in Hb1.
    unfold LEGOEV3_UART_MODE_MAX in *.
    msg_paths Hm; try (split; assumption).
    all: rewrite orb_false_iff in *; unfold u8, LEGOEV3_UART_MODE_MAX in *;
      rewrite Z.mod_small by lia; split; [lia|intros _; lia].
  - intros p0 Hi. unfold legoev3_uart_keep_alive_timer_callback.
    repeat case_match; exact Hi.
  - simpl. split; [lia|discriminate].
Qed.

Lemma num_modes_in_range_witness :
  @on_wire ev3 (port_of (after_handshake 16))
  /\ synced (port_of (after_handshake 16)) = true
  /\ num_modes (port_of (after_handshake 16)) = 2
  /\ 1 <= num_modes (port_of (after_handshake 16)).
Proof.
  split; [exact handshake_on_wire|]. split; [reflexivity|]. split; [reflexivity|].
  apply (@num_modes_in_range ev3 _ handshake_on_wire). reflexivity.
Defined.

(** X4: the sensor type is the unknown type 125 or a type between 1 and
    [LEGOEV3_UART_TYPE_MAX], in every state reached from
    [legoev3_uart_open] by deliveries of bytes and keep-alive ticks without
    a DATA payload of more than 32 bytes having been copied (that copy can
    overwrite [type]). *)
Theorem sensor_type_admissible `{Target} (p : port_data) :
  on_wire p ->
  type p = LEGOEV3_UART_TYPE_UNKNOWN \/ 1 <= type p <= LEGOEV3_UART_TYPE_MAX.
Proof.
  apply (on_wire_keeps
           (fun p => type p = LEGOEV3_UART_TYPE_UNKNOWN
                     \/ 1 <= type p <= LEGOEV3_UART_TYPE_MAX)).
  - auto.
  - auto.
  - intros p0 t Hb Hne Hle _. simpl. right. unfold is_byte in Hb. lia.
  - intros p0 q ms _ _ Hi Hm. msg_paths Hm; exact Hi.
  - intros p0 Hi. unfold legoev3_uart_keep_alive_timer_callback.
    repeat case_match; exact Hi.
  - left. reflexivity.
Qed.

Lemma sensor_type_admissible_witness :
  @on_wire ev3 (port_of (after_handshake 16))
  /\ type (port_of (after_handshake 16)) = 16
  /\ (type (port_of (after_handshake 16)) = LEGOEV3_UART_TYPE_UNKNOWN
      \/ 1 <= type (port_of (after_handshake 16)) <= @LEGOEV3_UART_TYPE_MAX ev3).
Proof.
  split; [exact handshake_on_wire|]. split; [reflexivity|].
  exact (@sensor_type_admissible ev3 _ handshake_on_wire).
Defined.

(** X5: a mode name has at most [LEGOEV3_UART_NAME_SIZE] (11) characters
    and a units string at most [LEGOEV3_UART_UNITS_SIZE], so that both fit
    their fields with the NUL, in every state reached from
    [legoev3_uart_open] by deliveries of bytes and keep-alive ticks without
    a DATA payload of more than 32 bytes having been copied (that copy can
    overwrite the names of the slots that follow). *)
Theorem names_fit `{Target} (p : port_data) :
  0 <= LEGOEV3_UART_UNITS_SIZE ->
  on_wire p ->
  Forall (fun m => Z.of_nat (length (name m)) <= LEGOEV3_UART_NAME_SIZE
                   /\ Z.of_nat (length (units m)) <= LEGOEV3_UART_UNITS_SIZE)
    (mode_info p).
Proof.
  intros Hu.
  set (fits := fun m => Z.of_nat (length (name m)) <= LEGOEV3_UART_NAME_SIZE
                        /\ Z.of_nat (length (units m)) <= LEGOEV3_UART_UNITS_SIZE).
  assert (fits legoev3_uart_default_mode_info) as Hdef.
  { unfold fits, LEGOEV3_UART_NAME_SIZE. simpl. lia. }
  assert (forall src n, 0 <= n ->
            Z.of_nat (length (snprintf_s (n + 1) src)) <= n) as Hsn.
  { intros src n Hn. unfold snprintf_s. rewrite length_take. lia. }
  apply (on_wire_keeps (fun p => Forall fits (mode_info p))).
  - auto.
  - auto.
  - intros p0 t _ _ _ _. simpl. repeat constructor; apply Hdef.
  - intros p0 q ms _ _ Hi Hm.
    msg_paths Hm; try exact Hi.
    all: repeat (apply Forall_insert;
                 [|try (apply (mode_info_at_Forall fits); [|exact Hdef])]);
      simpl; try exact Hi.
    all: try (apply (mode_info_at_Forall fits _ _ Hi Hdef)).
    all: pose proof (mode_info_at_Forall fits _
                       (Z.land (byte_at (buffer p0) 0) LEGOEV3_UART_MSG_CMD_MASK)
                       Hi Hdef) as [Hn0 Hu0];
      unfold fits; simpl; split; try assumption;
      try (apply Hsn; unfold LEGOEV3_UART_NAME_SIZE; lia).
  - intros p0 Hi. unfold legoev3_uart_keep_alive_timer_callback.
    repeat case_match; exact Hi.
  - unfold legoev3_uart_open. cbn [mode_info]. apply Forall_replicate.
    unfold fits, LEGOEV3_UART_NAME_SIZE. simpl. lia.
Qed.

Lemma names_fit_witness :
  0 <= @LEGOEV3_UART_UNITS_SIZE ev3
  /\ @on_wire ev3 (port_of (after_handshake 16))
  /\ name (mode_info_at (port_of (after_handshake 16)) 1) = [0x55]
  /\ Forall (fun m => Z.of_nat (length (name m)) <= LEGOEV3_UART_NAME_SIZE
                      /\ Z.of_nat (length (units m)) <= @LEGOEV3_UART_UNITS_SIZE ev3)
       (mode_info (port_of (after_handshake 16))).
Proof.
  assert (0 <= @LEGOEV3_UART_UNITS_SIZE ev3) as Hu by (simpl; lia).
  split; [exact Hu|]. split; [exact handshake_on_wire|]. split; [reflexivity|].
  exact (@names_fit ev3 _ Hu handshake_on_wire).
Defined.

(** ** The framer *)

Lemma process_loop_exit `{Target} (fuel : nat) (p q : port_data) :
  process_loop fuel p = Done q -> synced q = true ->
  write_ptr q < legoev3_uart_msg_size (byte_at (buffer q) 0).
Proof.
  revert p. induction fuel as [|fuel IH]; intros p; [discriminate|].
  rewrite process_loop_unfold. cbv zeta.
  destruct (Z.leb_spec (legoev3_uart_msg_size (byte_at (buffer p) 0)) (write_ptr p));
    [|intros [= <-]; auto].
  destruct (process_msg p _) as [p' ms'|p' ms'|p'|]; try discriminate.
  - destruct (over_threshold p'); [intros [= <-]; discriminate|]. apply IH.
  - apply IH.
  - intros [= <-]. discriminate.
Qed.

Lemma receive_buf_exit `{Target} (p q : port_data) (cp : list Z) :
  legoev3_uart_receive_buf p cp = Done q -> synced q = true ->
  write_ptr q < legoev3_uart_msg_size (byte_at (buffer q) 0).
Proof.
  unfold legoev3_uart_receive_buf.
  assert (forall p1 rest,
            match append_loop p1 rest with
            | inl p2 => process_loop (S (Z.to_nat (write_ptr p2))) p2
            | inr p2 => Done (err_invalid_state p2)
            end = Done q -> synced q = true ->
            write_ptr q < legoev3_uart_msg_size (byte_at (buffer q) 0)) as Htail.
  { intros p1 rest. destruct (append_loop p1 rest) as [p2|p2].
    - apply process_loop_exit.
    - intros [= <-]. discriminate. }
  destruct (synced p) eqn:Hs; [apply Htail|].
  destruct (sync_scan p cp) as [[p1 rest]|]; [apply Htail|].
  intros [= <-] Hq. congruence.
Qed.

(** A delivery of nothing to a port that holds no complete message. *)
Lemma receive_nothing `{Target} (p : port_data) :
  (synced p = true -> write_ptr p < legoev3_uart_msg_size (byte_at (buffer p) 0)) ->
  legoev3_uart_receive_buf p [] = Done p.
Proof.
  intros Hexit. unfold legoev3_uart_receive_buf.
  destruct (synced p); [|reflexivity]. cbn [append_loop].
  rewrite process_loop_unfold. cbv zeta.
  destruct (Z.leb_spec (legoev3_uart_msg_size (byte_at (buffer p) 0)) (write_ptr p));
    [|reflexivity].
  specialize (Hexit eq_refl). lia.
Qed.

(** X6: the framer leaves no complete message behind.  Between calls, a
    synced port holds fewer bytes than the header at the head of its buffer
    announces, and a delivery of no bytes changes nothing. *)
Theorem no_complete_message_left `{Target} (p : port_data) :
  on_wire p ->
  (synced p = true -> write_ptr p < legoev3_uart_msg_size (byte_at (buffer p) 0))
  /\ legoev3_uart_receive_buf p [] = Done p.
Proof.
  intros Hp.
  assert (synced p = true ->
          write_ptr p < legoev3_uart_msg_size (byte_at (buffer p) 0)) as Hexit.
  { induction Hp as [|p cp p' _ _ _ Hr|p _ IH].
    - discriminate.
    - eapply receive_buf_exit; eauto.
    - unfold legoev3_uart_keep_alive_timer_callback.
      repeat case_match; simpl; auto; try discriminate. }
  split; [exact Hexit|]. apply receive_nothing. exact Hexit.
Qed.

Lemma no_complete_message_left_witness :
  @on_wire ev3 (port_of (after_handshake 16))
  /\ synced (port_of (after_handshake 16)) = true
  /\ write_ptr (port_of (after_handshake 16)) = 0
  /\ @legoev3_uart_receive_buf ev3 (port_of (after_handshake 16)) []
     = Done (port_of (after_handshake 16)).
Proof.
  destruct (@no_complete_message_left ev3 _ handshake_on_wire) as [_ Hn].
  split; [exact handshake_on_wire|]. split; [reflexivity|]. split; [reflexivity|].
  exact Hn.
Defined.

Lemma buffered_nil (p : port_data) : empty_buffer p -> buffered p [] = p.
Proof.
  intros [Hw _]. destruct p; simpl in *; subst. reflexivity.
Qed.

Lemma append_loop_buffered (p : port_data) (pre c : list Z) :
  empty_buffer p ->
  Z.of_nat (length (pre ++ c)) <= LEGOEV3_UART_BUFFER_SIZE ->
  append_loop (buffered p pre) c = inl (buffered p (pre ++ c)).
Proof.
  intros [Hw Hl] Hfit. rewrite length_app in Hfit.
  unfold LEGOEV3_UART_BUFFER_SIZE in *.
  rewrite (append_loop_fits c pre (take (length c) (drop (length pre) (buffer p)))
             (drop (length pre + length c) (buffer p))).
  - unfold buffered. simpl. rewrite length_app, <- app_assoc. reflexivity.
  - simpl. rewrite <- drop_drop, take_drop. reflexivity.
  - rewrite length_take, length_drop. lia.
  - reflexivity.
  - unfold LEGOEV3_UART_BUFFER_SIZE. lia.
Qed.

Lemma byte_at_buffered (p : port_data) (pre : list Z) (i : Z) :
  0 <= i < Z.of_nat (length pre) ->
  byte_at (buffer (buffered p pre)) i = byte_at pre i.
Proof. intros Hi. simpl. apply byte_at_app_l. exact Hi. Qed.

(** Bytes that do not complete a message are appended and nothing else
    happens. *)
Lemma receive_incomplete `{Target} (p : port_data) (pre c : list Z) :
  synced p = true -> empty_buffer p ->
  Z.of_nat (length (pre ++ c)) < legoev3_uart_msg_size (byte_at (pre ++ c) 0) ->
  legoev3_uart_receive_buf (buffered p pre) c = Done (buffered p (pre ++ c)).
Proof.
  intros Hs He Hlt.
  pose proof (msg_size_range (byte_at (pre ++ c) 0)) as Hr.
  unfold legoev3_uart_receive_buf.
  replace (synced (buffered p pre)) with (synced p) by reflexivity. rewrite Hs.
  rewrite append_loop_buffered by (unfold LEGOEV3_UART_BUFFER_SIZE; auto; lia).
  rewrite process_loop_unfold. cbv zeta.
  replace (write_ptr (buffered p (pre ++ c))) with (Z.of_nat (length (pre ++ c)))
    by reflexivity.
  pose proof (msg_size_range (byte_at (buffer (buffered p (pre ++ c))) 0)) as Hr'.
  destruct (Z.leb_spec
              (legoev3_uart_msg_size (byte_at (buffer (buffered p (pre ++ c))) 0))
              (Z.of_nat (length (pre ++ c)))) as [Hle|]; [|reflexivity].
  rewrite byte_at_buffered in Hle by lia. lia.
Qed.

(** X7: an incomplete message is deferred.  When the bytes delivered to a
    synced port with an empty buffer are fewer than their first byte
    announces, they are buffered in order and no field of the port other
    than the buffer and [write_ptr] changes.  In particular a 0xFF at the
    head of the buffer stays there until 130 bytes are buffered. *)
Theorem incomplete_message_deferred `{Target} (p : port_data) (cp : list Z) :
  synced p = true -> empty_buffer p ->
  Z.of_nat (length cp) < legoev3_uart_msg_size (byte_at cp 0) ->
  legoev3_uart_receive_buf p cp
  = Done (set_write_ptr (Z.of_nat (length cp))
            (set_buffer (cp ++ drop (length cp) (buffer p)) p)).
Proof.
  intros Hs He Hlt.
  rewrite <- (buffered_nil p He) at 1.
  apply (receive_incomplete p [] cp Hs He Hlt).
Qed.

Lemma incomplete_message_deferred_witness :
  let p := port_of (after_handshake 16) in
  let cp := 0xFF :: replicate 128 0x00 in
  synced p = true /\ empty_buffer p
  /\ Z.of_nat (length cp) < legoev3_uart_msg_size (byte_at cp 0)
  /\ @legoev3_uart_receive_buf ev3 p cp
     = Done (set_write_ptr 129 (set_buffer (cp ++ drop 129 (buffer p)) p)).
Proof.
  intros p cp.
  assert (synced p = true) as Hs by reflexivity.
  assert (empty_buffer p) as He by (split; reflexivity).
  assert (Z.of_nat (length cp) < legoev3_uart_msg_size (byte_at cp 0)) as Hlt
    by (vm_compute; reflexivity).
  split; [exact Hs|]. split; [exact He|]. split; [exact Hlt|].
  exact (@incomplete_message_deferred ev3 p cp Hs He Hlt).
Defined.

Lemma append_loop_app (a b : list Z) (p : port_data) :
  append_loop p (a ++ b)
  = match append_loop p a with
    | inl p' => append_loop p' b
    | inr q => inr q
    end.
Proof.
  revert p. induction a as [|c a IH]; intros p; simpl; [reflexivity|].
  destruct (_ >=? _); [reflexivity|]. apply IH.
Qed.

Lemma receive_buf_synced `{Target} (p : port_data) (cp : list Z) :
  synced p = true ->
  legoev3_uart_receive_buf p cp
  = match append_loop p cp with
    | inl p2 => process_loop (S (Z.to_nat (write_ptr p2))) p2
    | inr p2 => Done (err_invalid_state p2)
    end.
Proof. intros Hs. unfold legoev3_uart_receive_buf. rewrite Hs. reflexivity. Qed.

(** Deliveries of nothing after a call of the receive callback. *)
Lemma receive_all_nothing `{Target} (cs : list (list Z)) (p q : port_data) (cp : list Z) :
  legoev3_uart_receive_buf p cp = Done q -> concat cs = [] ->
  receive_all q cs = Done q.
Proof.
  intros Hr. induction cs as [|c cs IH]; simpl; [reflexivity|].
  intros Hc. apply app_eq_nil in Hc as [-> Hcs].
  rewrite receive_nothing; [exact (IH Hcs)|].
  eapply receive_buf_exit. exact Hr.
Qed.

Lemma receive_chunks `{Target} (cs : list (list Z)) (p : port_data) (pre : list Z) :
  synced p = true -> empty_buffer p ->
  whole_message (pre ++ concat cs) -> concat cs <> [] ->
  receive_all (buffered p pre) cs
  = legoev3_uart_receive_buf (buffered p pre) (concat cs).
Proof.
  intros Hs He. revert pre.
  induction cs as [|c cs IH]; intros pre Hwhole Hne; [contradiction|].
  cbn [concat receive_all] in *.
  pose proof (msg_size_range (byte_at (pre ++ c ++ concat cs) 0)) as Hr.
  unfold whole_message in Hwhole.
  destruct (concat cs) as [|x rest] eqn:Hcs.
  - rewrite app_nil_r in *.
    destruct (legoev3_uart_receive_buf (buffered p pre) c) as [q| |] eqn:Hq;
      try reflexivity.
    eapply receive_all_nothing; eauto.
  - assert (Z.of_nat (length (pre ++ c))
            < legoev3_uart_msg_size (byte_at (pre ++ c) 0)) as Hlt.
    { destruct (pre ++ c) as [|h l] eqn:Hpc.
      - pose proof (msg_size_range (byte_at [] 0)). simpl. lia.
      - rewrite app_assoc, Hpc in Hwhole.
        replace (byte_at ((h :: l) ++ x :: rest) 0) with (byte_at (h :: l) 0)
          in Hwhole by reflexivity.
        rewrite length_app in Hwhole. simpl in *. lia. }
    rewrite (receive_incomplete p pre c Hs He Hlt).
    rewrite IH.
    + rewrite !receive_buf_synced by exact Hs.
      rewrite append_loop_app.
      rewrite (append_loop_buffered p pre c He); [reflexivity|].
      pose proof (msg_size_range (byte_at (pre ++ c) 0)).
      unfold LEGOEV3_UART_BUFFER_SIZE. lia.
    + unfold whole_message. rewrite <- app_assoc. exact Hwhole.
    + discriminate.
Qed.

(** X8: the framer does not depend on how a message is cut into
    deliveries.  When the bytes of one whole message reach a synced port
    with an empty buffer in any number of deliveries, of any sizes, the port
    ends as if they had come in one. *)
Theorem split_delivery_independent `{Target} (p : port_data) (cs : list (list Z)) :
  synced p = true -> empty_buffer p -> whole_message (concat cs) ->
  receive_all p cs = legoev3_uart_receive_buf p (concat cs).
Proof.
  intros Hs He Hwhole.
  assert (concat cs <> []) as Hne.
  { intros Hnil. unfold whole_message in Hwhole. rewrite Hnil in Hwhole.
    pose proof (msg_size_range (byte_at [] 0)). simpl in *. lia. }
  rewrite <- (buffered_nil p He). apply receive_chunks; auto.
Qed.

Lemma split_delivery_independent_witness :
  let p := port_of (after_handshake 16) in
  let cs := [[0xC0]; []; [42]; [0x15]; []] in
  synced p = true /\ empty_buffer p /\ whole_message (concat cs)
  /\ concat cs = good_data
  /\ @receive_all ev3 p cs = @legoev3_uart_receive_buf ev3 p good_data.
Proof.
  intros p cs.
  assert (synced p = true) as Hs by reflexivity.
  assert (empty_buffer p) as He by (split; reflexivity).
  assert (whole_message (concat cs)) as Hw by reflexivity.
  split; [exact Hs|]. split; [exact He|]. split; [exact Hw|].
  split; [reflexivity|].
  exact (@split_delivery_independent ev3 p cs Hs He Hw).
Defined.

(** The append loop runs into the end of the buffer. *)
Lemma append_loop_overflow (cp : list Z) (p : port_data) :
  0 <= write_ptr p <= LEGOEV3_UART_BUFFER_SIZE ->
  LEGOEV3_UART_BUFFER_SIZE < write_ptr p + Z.of_nat (length cp) ->
  exists b, append_loop p cp
            = inr (set_write_ptr LEGOEV3_UART_BUFFER_SIZE (set_buffer b p)).
Proof.
  unfold LEGOEV3_UART_BUFFER_SIZE.
  revert p. induction cp as [|c cp IH]; intros p Hw Hover; simpl in *; [lia|].
  unfold LEGOEV3_UART_BUFFER_SIZE.
  destruct (Z.geb_spec (write_ptr p) 256) as [Hfull|Hroom].
  - exists (buffer p). assert (write_ptr p = 256) as <- by lia.
    destruct p; reflexivity.
  - destruct (IH (set_write_ptr (write_ptr p + 1)
                    (set_buffer (store_at (buffer p) (write_ptr p) c) p)))
      as [b Hb]; simpl; try lia.
    exists b. rewrite Hb. reflexivity.
Qed.

(** X9: a delivery that does not fit the receive buffer of a synced port
    gives the session up before any of it is looked at: [synced] is
    cleared, the baud rate to go to is 2400, the bit rate work is queued,
    and no error text is recorded. *)
Theorem buffer_overflow_resyncs `{Target} (p : port_data) (cp : list Z) :
  synced p = true ->
  0 <= write_ptr p <= LEGOEV3_UART_BUFFER_SIZE ->
  LEGOEV3_UART_BUFFER_SIZE < write_ptr p + Z.of_nat (length cp) ->
  exists q, legoev3_uart_receive_buf p cp = Done q
            /\ synced q = false
            /\ write_ptr q = LEGOEV3_UART_BUFFER_SIZE
            /\ new_baud_rate q = LEGOEV3_UART_SPEED_MIN
            /\ change_bitrate_work q
               = schedule_delayed_work (change_bitrate_work p)
                   LEGOEV3_UART_SET_BITRATE_DELAY
            /\ last_err q = last_err p
            /\ mode_info q = mode_info p /\ num_data_err q = num_data_err p
            /\ info_done q = info_done p.
Proof.
  intros Hs Hw Hover. rewrite receive_buf_synced by exact Hs.
  destruct (append_loop_overflow cp p Hw Hover) as [b ->].
  eexists. split; [reflexivity|]. repeat split.
Qed.

Lemma buffer_overflow_resyncs_witness :
  let p := port_of (after_handshake 16) in
  let cp := concat (replicate 86 good_data) in
  synced p = true /\ write_ptr p = 0 /\ length cp = 258%nat
  /\ exists q, @legoev3_uart_receive_buf ev3 p cp = Done q
               /\ synced q = false /\ last_err q = None
               /\ num_data_err q = 0.
Proof.
  intros p cp.
  assert (synced p = true) as Hs by reflexivity.
  assert (0 <= write_ptr p <= LEGOEV3_UART_BUFFER_SIZE) as Hw by (vm_compute; split; discriminate).
  assert (LEGOEV3_UART_BUFFER_SIZE < write_ptr p + Z.of_nat (length cp)) as Ho
    by (vm_compute; reflexivity).
  destruct (@buffer_overflow_resyncs ev3 p cp Hs Hw Ho)
    as (q & Hq & Hsq & _ & _ & _ & He & _ & Hn & _).
  split; [exact Hs|]. split; [reflexivity|]. split; [reflexivity|].
  exists q. repeat split; assumption.
Defined.

(** ** The sync scanner *)

Lemma sync_scan_skip `{Target} (p : port_data) (b : Z) (cp : list Z) :
  (2 <= length cp)%nat ->
  b <> Z.lor LEGOEV3_UART_MSG_TYPE_CMD LEGOEV3_UART_CMD_TYPE ->
  sync_scan p (b :: cp) = sync_scan p cp.
Proof.
  intros Hlen Hb. destruct cp as [|x [|y rest]]; simpl in Hlen; try lia.
  cbn [sync_scan]. apply Z.eqb_neq in Hb. rewrite Hb. reflexivity.
Qed.

Lemma sync_scan_triplet `{Target} (p : port_data) (t : Z) (post : list Z) :
  t <> 0 -> t <= LEGOEV3_UART_TYPE_MAX ->
  sync_scan p (type_triplet t ++ post) = Some (sync_found t p, post).
Proof.
  intros Hne Hle. unfold type_triplet. cbn [app sync_scan].
  rewrite Z.eqb_refl. cbn [negb].
  destruct (Z.eqb_spec t 0); [contradiction|].
  destruct (Z.gtb_spec t LEGOEV3_UART_TYPE_MAX); [lia|].
  cbn [orb]. rewrite Z.eqb_refl. reflexivity.
Qed.

(** X10: the sync scanner skips what comes before the TYPE command.  When
    a delivery to an unsynced port holds a TYPE command of an admissible
    type after bytes none of which is the TYPE header 0x40, the port syncs
    on that type and the bytes after the command are handled as the first
    delivery to the synced port. *)
Theorem sync_skips_leading_bytes `{Target} (p : port_data) (pre post : list Z) (t : Z) :
  synced p = false ->
  Forall (fun b => b <> 0x40) pre ->
  t <> 0 -> t <= LEGOEV3_UART_TYPE_MAX ->
  legoev3_uart_receive_buf p (pre ++ type_triplet t ++ post)
  = legoev3_uart_receive_buf (sync_found t p) post.
Proof.
  intros Hs Hpre Hne Hle.
  assert (sync_scan p (pre ++ type_triplet t ++ post) = Some (sync_found t p, post))
    as Hscan.
  { induction Hpre as [|b pre Hb _ IH]; [apply sync_scan_triplet; assumption|].
    cbn [app]. rewrite sync_scan_skip; [exact IH| |exact Hb].
    rewrite !length_app. simpl. lia. }
  unfold legoev3_uart_receive_buf at 1. rewrite Hs, Hscan.
  unfold legoev3_uart_receive_buf. reflexivity.
Qed.

Lemma sync_skips_leading_bytes_witness :
  synced legoev3_uart_open = false
  /\ ends_with (@legoev3_uart_receive_buf ev3 legoev3_uart_open
                  ([0xFF; 0x00] ++ type_triplet 29 ++ [0x49; 1]))
       (fun q => synced q = true /\ type q = 29 /\ write_ptr q = 2
                 /\ byte_at (buffer q) 0 = 0x49).
Proof.
  split; [reflexivity|].
  rewrite (@sync_skips_leading_bytes ev3 legoev3_uart_open [0xFF; 0x00] [0x49; 1] 29).
  - vm_compute. repeat split; reflexivity.
  - reflexivity.
  - repeat constructor; discriminate.
  - discriminate.
  - simpl. lia.
Defined.

(** ** DATA frames and the values read back *)










(** ** Good frames *)

(** A DATA frame that is taken by a running port that is not over the
    threshold afterwards: the session goes on. *)
Lemma receive_accepted_data_running `{Target} (p : port_data) (f : list Z) :
  running p = true -> empty_buffer p -> 0 <= num_data_err p <= 7 ->
  accepted_data p f = true ->
  exists q, legoev3_uart_receive_buf p f = Done q
            /\ running q = true /\ empty_buffer q /\ type q = type p
            /\ data_rec q = true
            /\ num_data_err q = Z.max 0 (num_data_err p - 1).
Proof.
  intros Hr He Hn Ha. apply running_fields in Hr as [Hs Hi].
  unfold accepted_data in Ha.
  apply andb_true_iff in Ha as [Ha Hfit]. apply Z.leb_le in Hfit.
  pose proof (data_through_whole p f Ha) as Hf.
  pose proof (process_data_through p f Ha) as Hm.
  rewrite <- Hf in Hfit.
  unfold msg_data in Hm.
  replace (info_done (framed p f)) with (info_done p) in Hm by reflexivity.
  rewrite Hi in Hm. cbn [negb] in Hm.
  destruct (Z.gtb_spec (Z.of_nat (length f) - 2) LEGOEV3_UART_SENSOR_DATA_SIZE);
    [lia|].
  cbn [num_data_err set_data_rec upd_mode_info set_mode_info set_mode framed
       set_write_ptr set_buffer] in Hm.
  destruct (receive_whole_message p f Hs He Hf) as (Hnext & _ & _).
  destruct He as [Hw Hl].
  assert (length (f ++ drop (length f) (buffer p)) = length (buffer p)) as Hlen.
  { rewrite length_app, length_drop. unfold whole_message in Hf.
    pose proof (msg_size_range (byte_at f 0)).
    unfold LEGOEV3_UART_BUFFER_SIZE in *. lia. }
  destruct (Z.eqb_spec (num_data_err p) 0) as [Hz|Hz]; cbn [negb] in Hm;
    destruct (Hnext _ _ Hm) as [-> Hwz];
    unfold over_threshold, LEGOEV3_UART_MAX_DATA_ERR; simpl; rewrite Hi; simpl.
  - rewrite Hz. simpl.
    eexists. split; [reflexivity|]. unfold running, empty_buffer. simpl.
    rewrite Hs, Hi, shift_loop_length, Hlen.
    repeat split; auto; lia.
  - destruct (Z.gtb_spec (num_data_err p - 1) 6); [lia|].
    eexists. split; [reflexivity|]. unfold running, empty_buffer. simpl.
    rewrite Hs, Hi, shift_loop_length, Hlen.
    repeat split; auto; lia.
Qed.

Lemma accepted_data_same_type (p q : port_data) (f : list Z) :
  type q = type p -> accepted_data q f = accepted_data p f.
Proof. intros Ht. unfold accepted_data, data_through. rewrite Ht. reflexivity. Qed.

(** X13: good frames wear the error count down.  Any number of DATA frames
    that are taken, delivered whole one after the other to a running port
    with at most 7 errors counted, leave it running with the count lowered
    by one per frame and never below 0, and with [data_rec] set, so that
    the next keep-alive tick counts no error. *)
Theorem good_frames_lower_error_count `{Target} (p : port_data) (fs : list (list Z)) :
  running p = true -> empty_buffer p -> 0 <= num_data_err p <= 7 ->
  Forall (fun f => accepted_data p f = true) fs -> fs <> [] ->
  exists q, receive_all p fs = Done q
            /\ running q = true
            /\ num_data_err q = Z.max 0 (num_data_err p - Z.of_nat (length fs))
            /\ data_rec q = true
            /\ num_data_err (fst (legoev3_uart_keep_alive_timer_callback q))
               = num_data_err q.
Proof.
  intros Hr He Hn Hall Hne.
  assert (exists q, receive_all p fs = Done q
                    /\ running q = true /\ empty_buffer q /\ type q = type p
                    /\ data_rec q = true
                    /\ num_data_err q
                       = Z.max 0 (num_data_err p - Z.of_nat (length fs))) as Hrun.
  { destruct fs as [|f fs]; [contradiction Hne; reflexivity|]. clear Hne.
    revert f p Hr He Hn Hall.
    induction fs as [|f' fs IH]; intros f p Hr He Hn Hall;
      inversion Hall as [|? ? Hf Hfs]; subst; cbn [receive_all].
    - destruct (receive_accepted_data_running p f Hr He Hn Hf)
        as (q & -> & Hrq & Heq & Htq & Hdq & Hnq).
      exists q. cbn [length]. change (Z.of_nat 1) with 1.
      split; [reflexivity|]. tauto.
    - destruct (receive_accepted_data_running p f Hr He Hn Hf)
        as (q & -> & Hrq & Heq & Htq & Hdq & Hnq).
      destruct (IH f' q Hrq Heq ltac:(lia)) as (q' & Hq' & Hr' & He' & Ht' & Hd' & Hn').
      { eapply Forall_impl; [exact Hfs|]. intros x Hx. simpl in Hx.
        rewrite (accepted_data_same_type p q x Htq). exact Hx. }
      exists q'. split; [exact Hq'|].
      split; [exact Hr'|]. split; [exact He'|]. split; [congruence|].
      split; [exact Hd'|].
      rewrite Hn', Hnq. cbn [length]. lia. }
  destruct Hrun as (q & Hq & Hrq & _ & _ & Hdq & Hnq).
  exists q. split; [exact Hq|]. split; [exact Hrq|]. split; [exact Hnq|].
  split; [exact Hdq|].
  apply running_fields in Hrq as [Hs Hi].
  unfold legoev3_uart_keep_alive_timer_callback. rewrite Hs, Hi, Hdq. reflexivity.
Qed.

Lemma good_frames_lower_error_count_witness :
  let p := port_of (@receive_all ev3 (port_of (after_handshake 16))
                                 [bad_data; bad_data]) in
  let fs := [good_data; good_data; good_data] in
  running p = true /\ empty_buffer p /\ num_data_err p = 2
  /\ Forall (fun f => accepted_data p f = true) fs
  /\ exists q, @receive_all ev3 p fs = Done q
               /\ running q = true /\ num_data_err q = 0.
Proof.
  intros p fs.
  assert (empty_buffer p) as He by (split; reflexivity).
  assert (num_data_err p = 2) as Hn by reflexivity.
  assert (Forall (fun f => accepted_data p f = true) fs) as Hall
    by (repeat constructor).
  assert (fs <> []) as Hne by discriminate.
  destruct (@good_frames_lower_error_count ev3 p fs eq_refl He
              ltac:(rewrite Hn; lia) Hall Hne)
    as (q & Hq & Hr & Hc & _).
  split; [reflexivity|]. split; [exact He|]. split; [exact Hn|].
  split; [exact Hall|].
  exists q. split; [exact Hq|]. split; [exact Hr|].
  rewrite Hc, Hn. reflexivity.
Defined.

(** ** Messages with a wrong checksum *)





(** ** The acknowledge of the handshake *)

(** X15: the first test of the ACK handler does not fire as long as
    memory is intact.  A message is only handled on a synced port, the
    sync sets the number of modes to 1 and a MODES command sets it to
    2..8, so the ACK handler does not find it 0: no state reached from
    [legoev3_uart_open] by deliveries of bytes and keep-alive ticks,
    without a DATA payload of more than 32 bytes having been copied (that
    copy can write 0 over [num_modes]), carries the error text of that
    branch. *)
Theorem ack_before_modes_never_reported `{Target} (p : port_data) :
  on_wire p ->
  last_err p <> Some "Received ACK before all mode INFO."%string.
Proof.
  intros Hw.
  enough ((synced p = true -> num_modes p <> 0)
          /\ last_err p <> Some "Received ACK before all mode INFO."%string)
    as [_ Hl] by exact Hl.
  revert p Hw.
  apply (on_wire_keeps
           (fun p => (synced p = true -> num_modes p <> 0)
                     /\ last_err p <> Some "Received ACK before all mode INFO."%string)).
  - auto.
  - intros p0 [_ Hl]. simpl. split; [discriminate|exact Hl].
  - intros p0 t _ _ _ [_ Hl]. simpl. split; [discriminate|exact Hl].
  - intros p0 q ms (_ & Hbb & _) Hs [Hn Hl] Hm. specialize (Hn Hs).
    pose proof (byte_at_is_byte (buffer p0) 1 Hbb) as Hb1. unfold is_byte in Hb1.
    msg_paths Hm.
    all: try (split; [intros _; exact Hn|]; first [exact Hl|discriminate]).
    all: try match goal with
             | Hz : (num_modes _ =? 0) = true |- _ =>
               apply Z.eqb_eq in Hz; contradiction
             end.
    all: rewrite orb_false_iff in *; unfold u8, LEGOEV3_UART_MODE_MAX in *;
      split; [intros _; rewrite Z.mod_small by lia; lia|exact Hl].
  - intros p0 [Hn Hl]. unfold legoev3_uart_keep_alive_timer_callback.
    repeat case_match; simpl; (split; [exact Hn|]); first [exact Hl|discriminate].
  - simpl. split; discriminate.
Qed.

Lemma ack_before_modes_never_reported_witness :
  let p := port_of (@receive_all ev3 legoev3_uart_open [with_chksum [0x40; 16]; [0x04]]) in
  @on_wire ev3 p
  /\ last_err p = Some "Did not receive all required INFO."%string
  /\ last_err p <> Some "Received ACK before all mode INFO."%string.
Proof.
  intros p.
  assert (@on_wire ev3 p) as Hw by (apply (@deliveries_on_wire ev3); reflexivity).
  split; [exact Hw|]. split; [reflexivity|].
  exact (@ack_before_modes_never_reported ev3 p Hw).
Defined.

Lemma required_complete_bits (p : port_data) :
  required_complete p = true ->
  Z.testbit (info_flags p) LEGOEV3_UART_INFO_BIT_CMD_TYPE = true
  /\ Z.testbit (info_flags p) LEGOEV3_UART_INFO_BIT_CMD_MODES = true.
Proof.
  unfold required_complete. intros Hr. apply Z.eqb_eq in Hr.
  split.
  - pose proof (Z.land_spec (info_flags p) LEGOEV3_UART_INFO_FLAG_REQUIRED
                            LEGOEV3_UART_INFO_BIT_CMD_TYPE) as Hb.
    rewrite Hr in Hb. cbn in Hb. rewrite andb_true_r in Hb. symmetry. exact Hb.
  - pose proof (Z.land_spec (info_flags p) LEGOEV3_UART_INFO_FLAG_REQUIRED
                            LEGOEV3_UART_INFO_BIT_CMD_MODES) as Hb.
    rewrite Hr in Hb. cbn in Hb. rewrite andb_true_r in Hb. symmetry. exact Hb.
Qed.

Lemma testbit_set_bit_other (k j f : Z) :
  0 <= k -> 0 <= j -> k <> j -> Z.testbit (set_bit k f) j = Z.testbit f j.
Proof.
  intros Hk Hj Hne. unfold set_bit, BIT. rewrite Z.lor_spec, Z.shiftl_spec by lia.
  destruct (Z.lt_ge_cases j k).
  - rewrite (Z.testbit_neg_r 1 (j - k)) by lia. apply orb_false_r.
  - replace (Z.testbit 1 (j - k)) with false; [apply orb_false_r|].
    symmetry. change 1 with (Z.ones 1) at 1. rewrite Z.testbit_ones_nonneg by lia.
    apply Z.ltb_ge. lia.
Qed.

Lemma testbit_info_name (j f : Z) :
  0 <= j <= 1 ->
  Z.testbit (Z.land f (Z.lnot LEGOEV3_UART_INFO_FLAG_ALL_INFO)) j = Z.testbit f j
  /\ Z.testbit (Z.lor (Z.land f (Z.lnot LEGOEV3_UART_INFO_FLAG_ALL_INFO))
                      LEGOEV3_UART_INFO_FLAG_INFO_NAME) j = Z.testbit f j.
Proof.
  intros Hj. rewrite Z.lor_spec, Z.land_spec.
  assert (j = 0 \/ j = 1) as [-> | ->] by lia;
    change (Z.testbit (Z.lnot LEGOEV3_UART_INFO_FLAG_ALL_INFO) _) with true;
    change (Z.testbit LEGOEV3_UART_INFO_FLAG_INFO_NAME _) with false;
    rewrite andb_true_r, orb_false_r; split; reflexivity.
Qed.

Ltac flag_bits :=
  unfold LEGOEV3_UART_INFO_BIT_CMD_MODES, LEGOEV3_UART_INFO_BIT_CMD_SPEED,
    LEGOEV3_UART_INFO_BIT_INFO_RAW, LEGOEV3_UART_INFO_BIT_INFO_PCT,
    LEGOEV3_UART_INFO_BIT_INFO_SI, LEGOEV3_UART_INFO_BIT_INFO_UNITS,
    LEGOEV3_UART_INFO_BIT_INFO_FORMAT in *;
  lia.

(** The flags of the TYPE and MODES commands after a pass of the message
    loop: set when they were set. *)
Ltac flag_kept Hb :=
  intros k Hk; unfold set_bit;
  rewrite ?Z.lor_spec, ?Z.land_spec, (Hb k Hk);
  assert (k = 0 \/ k = 1) as [-> | ->] by lia; reflexivity.

(** The flag of the MODES command before a pass that does not handle that
    command: set when it is set afterwards. *)
Ltac modes_flag_before Hfirst Hs :=
  let k := fresh "k" in
  let Hk := fresh "Hk" in
  let Hb := fresh "Hb" in
  intros _ k Hk Hb; apply (Hfirst Hs k Hk);
  rewrite ?testbit_set_bit_other in Hb by flag_bits;
  rewrite ?(proj1 (testbit_info_name k _ ltac:(flag_bits))) in Hb;
  rewrite ?(proj2 (testbit_info_name k _ ltac:(flag_bits))) in Hb;
  exact Hb.

Lemma handshake_kept_pass `{Target} (p q : port_data) (ms : Z) :
  well_shaped p -> synced p = true -> handshake_kept p ->
  flow_port (process_msg p ms) = Some q ->
  (info_done q = true ->
   2 <= num_modes q <= 8
   /\ (forall k, 0 <= k <= 1 -> Z.testbit (info_flags q) k = true)
   /\ send_ack_work q <> None)
  /\ ((exists ms', process_msg p ms = Next q ms' \/ process_msg p ms = Skip q ms') ->
      synced q = true ->
      forall k, k = LEGOEV3_UART_INFO_BIT_CMD_MODES -> Z.testbit (info_flags q) k = true ->
      2 <= num_modes q <= 8).
Proof.
  intros (_ & Hbb & _) Hs [Hfirst Hdone] Hm.
  pose proof (byte_at_is_byte (buffer p) 1 Hbb) as Hb1. unfold is_byte in Hb1.
  destruct (process_msg p ms) as [q0 ms0|q0 ms0|q0|] eqn:Hpm; try discriminate;
    injection Hm as ->; (split; [|intros (ms' & [Hx|Hx]); try discriminate Hx]).
  all: revert Hpm; intros Hm.
  all: flow_paths; cbn [info_done num_modes info_flags send_ack_work synced
                         set_info_done set_send_ack_work set_info_flags set_num_modes
                         set_num_view_modes set_new_baud_rate set_last_err set_buffer
                         set_write_ptr set_mode set_mode_info set_data_rec
                         set_num_data_err upd_mode_info].
  all: try exact Hdone.
  all: try (exact (Hfirst Hs)).
  all: try (modes_flag_before Hfirst Hs).
  all: try (intros Hd; destruct (Hdone Hd) as (Hn & Hb & Hw);
            split; [|split; [flag_kept Hb|exact Hw]];
            first [ exact Hn
                  | rewrite orb_false_iff in *;
                    unfold u8, LEGOEV3_UART_MODE_MAX in *;
                    rewrite Z.mod_small by lia; lia ]).
  all: try (intros _ k Hk Hb; rewrite orb_false_iff in *;
            unfold u8, LEGOEV3_UART_MODE_MAX in *;
            rewrite Z.mod_small by lia; lia).
  all: intros _;
    match goal with
    | Hr : negb (required_complete _) = false |- _ =>
      apply negb_false_iff, required_complete_bits in Hr; destruct Hr as [Ht Hmo]
    end;
    split; [exact (Hfirst Hs _ eq_refl Hmo)|]; split;
    [ intros k Hk; assert (k = 0 \/ k = 1) as [-> | ->] by lia; assumption
    | destruct (send_ack_work p); discriminate ].
Qed.

(** X16: what a finished handshake stands for.  In every state reached
    from [legoev3_uart_open] by deliveries of bytes and keep-alive ticks,
    without a DATA payload of more than 32 bytes having been copied (that
    copy can overwrite [num_modes] and [info_flags]), a port whose
    [info_done] is set has 2 to 8 modes (a sensor that announces a single
    mode never gets that far: its MODES command is refused, and without
    one the acknowledge is), the flags of the TYPE and of the MODES command
    are set, and the work that answers the acknowledge has been scheduled.
    (The flags of the NAME and of the FORMAT of the last mode need not be
    set any more: a later NAME message clears them.) *)
Theorem info_done_means `{Target} (p : port_data) :
  on_wire p -> info_done p = true ->
  2 <= num_modes p <= LEGOEV3_UART_MODE_MAX + 1
  /\ test_bit LEGOEV3_UART_INFO_BIT_CMD_TYPE (info_flags p) = true
  /\ test_bit LEGOEV3_UART_INFO_BIT_CMD_MODES (info_flags p) = true
  /\ send_ack_work p <> None.
Proof.
  intros Hw Hd.
  enough (handshake_kept p) as [_ Hk].
  { destruct (Hk Hd) as (Hn & Hb & Hs).
    unfold test_bit, LEGOEV3_UART_INFO_BIT_CMD_TYPE, LEGOEV3_UART_INFO_BIT_CMD_MODES,
      LEGOEV3_UART_MODE_MAX.
    split; [lia|]. split; [apply Hb; lia|]. split; [apply Hb; lia|exact Hs]. }
  clear Hd. revert p Hw. apply (session_keeps handshake_kept).
  - intros p0 b w Hi. exact Hi.
  - intros p0 [_ Hdone]. split; [discriminate|exact Hdone].
  - intros p0 t _ _ _ _. split; [|discriminate].
    intros _ k -> Hb. discriminate Hb.
  - intros p0 q ms ms' Hp Hs Hi Hm.
    assert (flow_port (process_msg p0 ms) = Some q) as Hf
      by (destruct Hm as [-> | ->]; reflexivity).
    destruct (handshake_kept_pass p0 q ms Hp Hs Hi Hf) as [Hdone Hfirst].
    split; [apply Hfirst; exists ms'; exact Hm|exact Hdone].
  - intros p0 q ms Hp Hs Hi Hm.
    assert (flow_port (process_msg p0 ms) = Some q) as Hf by (rewrite Hm; reflexivity).
    destruct (handshake_kept_pass p0 q ms Hp Hs Hi Hf) as [Hdone _].
    split; [discriminate|exact Hdone].
  - intros p0 Hi. unfold legoev3_uart_keep_alive_timer_callback.
    repeat case_match; exact Hi.
  - split; discriminate.
Qed.

Lemma info_done_means_witness :
  let p := port_of (after_handshake 16) in
  @on_wire ev3 p /\ info_done p = true
  /\ num_modes p = 2 /\ send_ack_work p = Some LEGOEV3_UART_SEND_ACK_DELAY
  /\ send_ack_work p <> None.
Proof.
  intros p.
  split; [exact handshake_on_wire|]. split; [reflexivity|].
  split; [reflexivity|]. split; [reflexivity|].
  apply (@info_done_means ev3 p handshake_on_wire). reflexivity.
Defined.

(** ** What the driver sends *)

(** X17: a write of 1 to 16 bytes to [bin_data] sends a frame the protocol's
    own rules accept.  With a 4-byte or an 8-byte [unsigned long], the bytes
    handed to the tty are the CMD WRITE header for the smallest power of two
    that holds the data, the data, zeros up to that size, and the checksum
    of all of these; the header decodes to that size and announces exactly
    the number of bytes sent. *)
Theorem write_bin_data_frame `{Target} (buf : list Z) :
  sizeof_unsigned_long = 4 \/ sizeof_unsigned_long = 8 ->
  (1 <= length buf <= 16)%nat ->
  let count := Z.of_nat (length buf) in
  let size := 2 ^ Z.log2_up count in
  let hdr := Z.lor (Z.lor LEGOEV3_UART_MSG_TYPE_CMD (Z.shiftl (Z.log2_up count) 3))
                   LEGOEV3_UART_CMD_WRITE in
  let frame := with_chksum (hdr :: buf ++ replicate (Z.to_nat (size - count)) 0) in
  legoev3_uart_write_bin_data buf 0 = inl frame
  /\ decode_header hdr = (LEGOEV3_UART_MSG_TYPE_CMD, size, LEGOEV3_UART_CMD_WRITE)
  /\ whole_message frame
  /\ msg_chksum frame (size + 1) = byte_at frame (size + 1).
Proof.
  intros Hl Hlen.
  unfold whole_message, legoev3_uart_write_bin_data, legoev3_uart_set_msg_hdr.
  destruct buf as [|b0 buf]; [simpl in Hlen; lia|].
  do 16 (destruct buf as [|? buf];
         [destruct Hl as [-> | ->]; cbv -[Z.lxor]; repeat split; reflexivity|]).
  simpl in Hlen. lia.
Qed.

Lemma write_bin_data_frame_witness :
  (@sizeof_unsigned_long ev3 = 4 \/ @sizeof_unsigned_long ev3 = 8)
  /\ (1 <= length [1; 2; 3] <= 16)%nat
  /\ @legoev3_uart_write_bin_data ev3 [1; 2; 3] 0 = inl [0x54; 1; 2; 3; 0; 0xAB].
Proof.
  assert (@sizeof_unsigned_long ev3 = 4 \/ @sizeof_unsigned_long ev3 = 8) as Hl
    by (left; reflexivity).
  assert (1 <= length [1; 2; 3] <= 16)%nat as Hlen by (simpl; lia).
  split; [exact Hl|]. split; [exact Hlen|].
  exact (proj1 (@write_bin_data_frame ev3 [1; 2; 3] Hl Hlen)).
Defined.

Lemma set_mode_sends `{Target} (p : port_data) (mode' : Z) :
  sizeof_unsigned_long = 4 \/ sizeof_unsigned_long = 8 ->
  0 <= mode' < num_modes p ->
  legoev3_uart_set_mode p mode' = inl (with_chksum [0x43; mode']).
Proof.
  intros Hl Hm. unfold legoev3_uart_set_mode, legoev3_uart_set_msg_hdr.
  destruct (Z.geb_spec mode' (num_modes p)); [lia|].
  destruct Hl as [-> | ->]; reflexivity.
Qed.

(** X18: the mode selection sends a well-formed frame.  For a mode below
    the number of modes, with a 4-byte or an 8-byte [unsigned long], the
    three bytes handed to the tty are the CMD SELECT header [0x43], the
    mode and the checksum of the two; the header announces three bytes and
    one byte of payload. *)
Theorem set_mode_frame `{Target} (p : port_data) (mode' : Z) :
  sizeof_unsigned_long = 4 \/ sizeof_unsigned_long = 8 ->
  0 <= mode' < num_modes p ->
  let frame := with_chksum [0x43; mode'] in
  legoev3_uart_set_mode p mode' = inl frame
  /\ whole_message frame
  /\ decode_header (byte_at frame 0)
     = (LEGOEV3_UART_MSG_TYPE_CMD, 1, LEGOEV3_UART_CMD_SELECT)
  /\ msg_chksum frame 2 = byte_at frame 2.
Proof.
  intros Hl Hm. unfold legoev3_uart_set_mode, legoev3_uart_set_msg_hdr.
  destruct (Z.geb_spec mode' (num_modes p)); [lia|].
  destruct Hl as [-> | ->]; cbv -[Z.lxor]; repeat split; reflexivity.
Qed.

Lemma set_mode_frame_witness :
  let p := port_of (after_handshake 16) in
  (@sizeof_unsigned_long ev3 = 4 \/ @sizeof_unsigned_long ev3 = 8)
  /\ 0 <= 1 < num_modes p
  /\ @legoev3_uart_set_mode ev3 p 1 = inl [0x43; 1; 0xBD].
Proof.
  intros p.
  assert (@sizeof_unsigned_long ev3 = 4 \/ @sizeof_unsigned_long ev3 = 8) as Hl
    by (left; reflexivity).
  assert (0 <= 1 < num_modes p) as Hm by (vm_compute; split; [discriminate|reflexivity]).
  split; [exact Hl|]. split; [exact Hm|].
  exact (proj1 (@set_mode_frame ev3 p 1 Hl Hm)).
Defined.

(** ** The header codec, from the header back to itself *)

Lemma forall_bytes (P : Z -> bool) :
  forallb P (map Z.of_nat (seq 0 256)) = true ->
  forall h, 0 <= h < 256 -> P h = true.
Proof.
  intros Hall h Hh. rewrite forallb_forall in Hall. apply Hall.
  apply in_map_iff. exists (Z.to_nat h). split; [lia|].
  apply in_seq. lia.
Qed.

(** X19: which header bytes the encoder can produce.  Taking a header byte
    apart as the receive callback does and putting the parts together with
    [legoev3_uart_set_msg_hdr] gives the byte back, for every byte with an
    8-byte [unsigned long]; with the 4-byte [unsigned long] of the EV3 it
    does so exactly for the bytes whose payload size is at most 16. *)
Theorem set_msg_hdr_of_decoded `{Target} (h : Z) :
  0 <= h < 256 ->
  let t := Z.land h LEGOEV3_UART_MSG_TYPE_MASK in
  let s := LEGOEV3_UART_CMD_SIZE h in
  let c := Z.land h LEGOEV3_UART_MSG_CMD_MASK in
  (sizeof_unsigned_long = 8 -> legoev3_uart_set_msg_hdr t s c = h)
  /\ (sizeof_unsigned_long = 4 -> (legoev3_uart_set_msg_hdr t s c = h <-> s <= 16)).
Proof.
  intros Hh. cbv zeta. unfold legoev3_uart_set_msg_hdr. split; intros ->.
  - apply Z.eqb_eq. revert h Hh. apply forall_bytes. vm_compute. reflexivity.
  - rewrite <- Z.eqb_eq, <- Z.leb_le.
    match goal with
    | |- ?a = true <-> ?b = true => enough (a = b) as -> by reflexivity
    end.
    apply Bool.eqb_prop. revert h Hh. apply forall_bytes. vm_compute. reflexivity.
Qed.

Lemma set_msg_hdr_of_decoded_witness :
  0 <= 0xDC < 256
  /\ @legoev3_uart_set_msg_hdr ev3 LEGOEV3_UART_MSG_TYPE_DATA 8 4 = 0xDC
  /\ @legoev3_uart_set_msg_hdr lp64 LEGOEV3_UART_MSG_TYPE_DATA 8 4 = 0xDC.
Proof.
  assert (0 <= 0xDC < 256) as Hh by lia.
  split; [exact Hh|]. split.
  - apply (proj2 (@set_msg_hdr_of_decoded ev3 0xDC Hh) eq_refl). vm_compute.
    discriminate.
  - exact (proj1 (@set_msg_hdr_of_decoded lp64 0xDC Hh) eq_refl).
Defined.

(** ** Reading the raw data *)

(** X20: what a read of [bin_data] copies.  On a port on the wire, a read
    of [count] bytes at offset [off] into a buffer that has room for them
    returns the smaller of [count] and [32 - off] (0 at or past the end),
    and puts that many bytes from the start of [raw_data] of the current
    mode -- not from [off] on -- at [buf + off]; the rest of the buffer is
    left alone. *)
Theorem read_bin_data_copies `{Target} (p : port_data) (buf : list Z) (off count : Z) :
  on_wire p -> 0 <= off -> 0 <= count ->
  off + Z.min count (LEGOEV3_UART_SENSOR_DATA_SIZE - off) <= Z.of_nat (length buf) ->
  let raw := raw_data (mode_info_at p (mode p)) in
  let n := if off >=? LEGOEV3_UART_SENSOR_DATA_SIZE then 0
           else Z.min count (LEGOEV3_UART_SENSOR_DATA_SIZE - off) in
  let buf' := fst (legoev3_uart_read_bin_data p buf off count) in
  snd (legoev3_uart_read_bin_data p buf off count) = n
  /\ length buf' = length buf
  /\ (forall i, 0 <= i < n -> byte_at buf' (off + i) = byte_at raw i)
  /\ (forall j, 0 <= j -> j < off \/ off + n <= j -> byte_at buf' j = byte_at buf j).
Proof.
  intros Hw Hoff Hcount Hroom raw n buf'.
  apply on_wire_well_shaped in Hw as (_ & _ & _ & _ & Hraw).
  assert (length raw = 32%nat) as Hlen.
  { apply (mode_info_at_Forall
             (fun m => length (raw_data m) = Z.to_nat LEGOEV3_UART_SENSOR_DATA_SIZE));
      [exact Hraw|reflexivity]. }
  subst n buf'. unfold legoev3_uart_read_bin_data, LEGOEV3_UART_SENSOR_DATA_SIZE in *.
  fold raw.
  destruct (Z.geb_spec off 32) as [Hge|Hlt]; cbn [orb].
  { cbn [fst snd]. repeat split; auto. intros i Hi. lia. }
  destruct (Z.eqb_spec count 0) as [->|Hc]; cbn [fst snd].
  { rewrite Z.min_l by lia. repeat split; auto. intros i Hi. lia. }
  assert ((if count <? 32 - off then count else 32 - off) = Z.min count (32 - off))
    as -> by (destruct (Z.ltb_spec count (32 - off)); lia).
  set (n := Z.min count (32 - off)) in *.
  assert (0 < n <= 32 - off) as Hn by (subst n; lia).
  unfold memcpy.
  split; [reflexivity|]. split.
  { rewrite !length_app, !length_take, !length_drop. lia. }
  split.
  - intros i Hi. unfold byte_at.
    rewrite lookup_app_r by (rewrite length_take; lia).
    rewrite length_take.
    replace (Z.to_nat (off + i) - Z.to_nat off `min` length buf)%nat
      with (Z.to_nat i) by lia.
    rewrite lookup_app_l by (rewrite length_take; lia).
    rewrite lookup_take_lt by lia. reflexivity.
  - intros j Hj [Hlo|Hhi]; unfold byte_at.
    + rewrite lookup_app_l by (rewrite length_take; lia).
      rewrite lookup_take_lt by lia. reflexivity.
    + rewrite lookup_app_r by (rewrite length_take; lia).
      rewrite length_take.
      rewrite lookup_app_r by (rewrite length_take; lia).
      rewrite length_take, lookup_drop, lookup_drop. f_equal. f_equal. lia.
Qed.

Lemma read_bin_data_copies_witness :
  let p := port_of (@receive_all ev3 (port_of (after_handshake 16)) [good_data]) in
  let buf := replicate 8 0xEE in
  @on_wire ev3 p /\ 0 <= 2 /\ 0 <= 4
  /\ 2 + Z.min 4 (LEGOEV3_UART_SENSOR_DATA_SIZE - 2) <= Z.of_nat (length buf)
  /\ fst (legoev3_uart_read_bin_data p buf 2 4) = [0xEE; 0xEE; 42; 0; 0; 0; 0xEE; 0xEE]
  /\ snd (legoev3_uart_read_bin_data p buf 2 4) = 4.
Proof.
  intros p buf.
  assert (@on_wire ev3 p) as Hw.
  { apply (receive_all_on_wire [good_data] (port_of (after_handshake 16)));
      [exact handshake_on_wire| |vm_compute; reflexivity].
    apply all_deliveries_spec. vm_compute. reflexivity. }
  assert (0 <= 2) as H2 by lia. assert (0 <= 4) as H4 by lia.
  assert (2 + Z.min 4 (LEGOEV3_UART_SENSOR_DATA_SIZE - 2) <= Z.of_nat (length buf))
    as Hroom by (vm_compute; discriminate).
  split; [exact Hw|]. split; [exact H2|]. split; [exact H4|]. split; [exact Hroom|].
  split; [vm_compute; reflexivity|].
  exact (proj1 (@read_bin_data_copies ev3 p buf 2 4 Hw H2 H4 Hroom)).
Defined.

(** ** The mode attribute *)

Lemma set_mode_call `{Target} (tty : bool) (write : list Z -> Z)
    (p : port_data) (mode' : Z) :
  sizeof_unsigned_long = 4 \/ sizeof_unsigned_long = 8 ->
  0 <= mode' < num_modes p ->
  Tty.legoev3_uart_set_mode tty write p mode'
  = if tty
    then ([with_chksum [0x43; mode']],
          if write (with_chksum [0x43; mode']) <? 0
          then write (with_chksum [0x43; mode']) else 0)
    else ([], - ENODEV).
Proof.
  intros Hl Hm. unfold Tty.legoev3_uart_set_mode, legoev3_uart_set_msg_hdr.
  destruct tty; [|reflexivity]. cbn [negb].
  destruct (Z.geb_spec mode' (num_modes p)); [lia|].
  destruct Hl as [-> | ->]; reflexivity.
Qed.

Lemma store_mode_loop_spec `{Target} (streq : list Z -> list Z -> bool)
    (tty : bool) (write : list Z -> Z)
    (p : port_data) (buf : list Z) (count : Z) (n : nat) (i : Z) :
  sizeof_unsigned_long = 4 \/ sizeof_unsigned_long = 8 ->
  0 <= i -> i + Z.of_nat n = num_modes p ->
  let r := store_mode_loop streq tty write n i p buf count in
  ((forall j, i <= j < num_modes p -> streq buf (name (mode_info_at p j)) = false) ->
     r = ([], - EINVAL))
  /\ forall k, i <= k < num_modes p ->
       streq buf (name (mode_info_at p k)) = true ->
       (forall j, i <= j < k -> streq buf (name (mode_info_at p j)) = false) ->
       let frame := with_chksum [0x43; k] in
       if tty
       then r = ([frame], if write frame <? 0 then write frame else count)
       else r = ([], - ENODEV).
Proof.
  intros Hl. revert i. induction n as [|n IH]; intros i Hi Hn; cbn [store_mode_loop];
    cbv zeta.
  - split; [reflexivity|]. intros k Hk. lia.
  - destruct (streq buf (name (mode_info_at p i))) eqn:Hs.
    + rewrite set_mode_call by (auto; lia). split.
      * intros Hnone. rewrite Hnone in Hs by lia. discriminate Hs.
      * intros k Hk Hsk Hbefore.
        assert (k = i) as ->.
        { destruct (Z.eq_dec k i) as [|Hne]; [assumption|].
          rewrite Hbefore in Hs by lia. discriminate Hs. }
        destruct tty; [|reflexivity].
        destruct (Z.ltb_spec (write (with_chksum [0x43; i])) 0) as [Hneg|Hpos].
        -- destruct (Z.eqb_spec (write (with_chksum [0x43; i])) 0); [lia|].
           reflexivity.
        -- reflexivity.
    + destruct (IH (i + 1) ltac:(lia) ltac:(lia)) as [IHnone IHk]. split.
      * intros Hnone. apply IHnone. intros j Hj. apply Hnone. lia.
      * intros k Hk Hsk Hbefore.
        assert (k <> i) by (intros ->; rewrite Hs in Hsk; discriminate Hsk).
        apply IHk; [lia|exact Hsk|]. intros j Hj. apply Hbefore. lia.
Qed.

(** X21: a write to the mode attribute selects the first mode whose name
    matches.  Whatever [sysfs_streq] and the tty's [write] are, and with a
    4-byte or an 8-byte [unsigned long]: when no name below [num_modes]
    matches the text written, nothing is handed to the tty and the result
    is [-EINVAL]; otherwise, for the least index [k] whose name matches,
    without a tty nothing is handed over and the result is [-ENODEV], and
    with one the SELECT frame of [k] is handed to its [write], once, and
    the result is the negative value [write] returned, if it did, and
    [count] if not.  The range test of [legoev3_uart_set_mode] never fails
    on this path. *)
Theorem store_mode_first_match `{Target} (streq : list Z -> list Z -> bool)
    (tty : bool) (write : list Z -> Z) (p : port_data) (buf : list Z) (count : Z) :
  sizeof_unsigned_long = 4 \/ sizeof_unsigned_long = 8 ->
  0 <= num_modes p ->
  let r := legoev3_uart_store_mode streq tty write p buf count in
  ((forall j, 0 <= j < num_modes p -> streq buf (name (mode_info_at p j)) = false) ->
     r = ([], - EINVAL))
  /\ forall k, 0 <= k < num_modes p ->
       streq buf (name (mode_info_at p k)) = true ->
       (forall j, 0 <= j < k -> streq buf (name (mode_info_at p j)) = false) ->
       let frame := with_chksum [0x43; k] in
       if tty
       then r = ([frame], if write frame <? 0 then write frame else count)
       else r = ([], - ENODEV).
Proof.
  intros Hl Hn.
  exact (store_mode_loop_spec streq tty write p buf count
           (Z.to_nat (num_modes p)) 0 Hl ltac:(lia) ltac:(lia)).
Qed.

Lemma store_mode_first_match_witness :
  let p := port_of (after_handshake 16) in
  let streq := fun a b : list Z => bool_decide (a = b) in
  let sends := fun d : list Z => Z.of_nat (length d) in
  let fails := fun _ : list Z => - 5 in
  (@sizeof_unsigned_long ev3 = 4 \/ @sizeof_unsigned_long ev3 = 8)
  /\ 0 <= num_modes p
  /\ 0 <= 1 < num_modes p
  /\ streq [0x55] (name (mode_info_at p 1)) = true
  /\ (forall j, 0 <= j < 1 -> streq [0x55] (name (mode_info_at p j)) = false)
  /\ @legoev3_uart_store_mode ev3 streq true sends p [0x55] 2 = ([[0x43; 1; 0xBD]], 2)
  /\ @legoev3_uart_store_mode ev3 streq true fails p [0x55] 2 = ([[0x43; 1; 0xBD]], - 5)
  /\ @legoev3_uart_store_mode ev3 streq false sends p [0x55] 2 = ([], - ENODEV).
Proof.
  intros p streq sends fails.
  assert (@sizeof_unsigned_long ev3 = 4 \/ @sizeof_unsigned_long ev3 = 8) as Hl
    by (left; reflexivity).
  assert (0 <= num_modes p) as Hn by (vm_compute; discriminate).
  assert (0 <= 1 < num_modes p) as H1 by (vm_compute; split; [discriminate|reflexivity]).
  assert (streq [0x55] (name (mode_info_at p 1)) = true) as Hs
    by (vm_compute; reflexivity).
  assert (forall j, 0 <= j < 1 -> streq [0x55] (name (mode_info_at p j)) = false)
    as Hb.
  { intros j Hj. assert (j = 0) as -> by lia. vm_compute. reflexivity. }
  split; [exact Hl|]. split; [exact Hn|]. split; [exact H1|]. split; [exact Hs|].
  split; [exact Hb|]. split; [|split].
  - exact (proj2 (@store_mode_first_match ev3 streq true sends p [0x55] 2 Hl Hn)
                 1 H1 Hs Hb).
  - exact (proj2 (@store_mode_first_match ev3 streq true fails p [0x55] 2 Hl Hn)
                 1 H1 Hs Hb).
  - exact (proj2 (@store_mode_first_match ev3 streq false sends p [0x55] 2 Hl Hn)
                 1 H1 Hs Hb).
Defined.

Lemma show_mode_loop_spec (p : port_data) (n : nat) (i : Z) (out : list Z) :
  Forall (fun m => Z.of_nat (length (name m)) <= LEGOEV3_UART_NAME_SIZE) (mode_info p) ->
  exists text,
    show_mode_loop n i p out = out ++ text
    /\ (n <> O -> exists body, text = body ++ [32])
    /\ Z.of_nat (length text)
       <= 12 * Z.of_nat n + (if (i <=? mode p) && (mode p <? i + Z.of_nat n) then 2 else 0).
Proof.
  intros Hfit. revert i out. induction n as [|n IH]; intros i out.
  - exists []. cbn [show_mode_loop]. rewrite app_nil_r.
    split; [reflexivity|]. split; [congruence|]. simpl length.
    destruct (_ && _); lia.
  - cbn [show_mode_loop].
    assert (Z.of_nat (length (name (mode_info_at p i))) <= LEGOEV3_UART_NAME_SIZE) as Hni.
    { apply (mode_info_at_Forall
               (fun m => Z.of_nat (length (name m)) <= LEGOEV3_UART_NAME_SIZE));
        [exact Hfit|]. simpl. unfold LEGOEV3_UART_NAME_SIZE. lia. }
    unfold LEGOEV3_UART_NAME_SIZE in *.
    set (nm := name (mode_info_at p i)) in *.
    assert (forall pre,
              exists text,
                show_mode_loop n (i + 1) p (out ++ pre ++ [32]) = out ++ (pre ++ [32]) ++ text
                /\ (exists body, (pre ++ [32]) ++ text = body ++ [32])
                /\ Z.of_nat (length text)
                   <= 12 * Z.of_nat n
                      + (if (i + 1 <=? mode p) && (mode p <? i + 1 + Z.of_nat n)
                         then 2 else 0)) as Hrest.
    { intros pre.
      destruct (IH (i + 1) (out ++ pre ++ [32])) as (text & Heq & Hend & Hlen).
      exists text. split; [rewrite Heq, <- !app_assoc; reflexivity|].
      split; [|exact Hlen].
      destruct n as [|n'].
      - destruct text as [|? ?];
          [|exfalso; change (Z.of_nat 0) with 0 in Hlen; rewrite Z.add_0_r in Hlen;
            cbn [length] in Hlen;
            destruct (Z.leb_spec (i + 1) (mode p)), (Z.ltb_spec (mode p) (i + 1));
            cbn [andb] in Hlen; lia].
        exists pre. rewrite app_nil_r. reflexivity.
      - destruct (Hend ltac:(discriminate)) as (body & ->).
        exists ((pre ++ [32]) ++ body). rewrite <- !app_assoc. reflexivity. }
    destruct (Z.eqb_spec i (mode p)) as [Hm|Hm].
    + destruct (Hrest ([91] ++ nm ++ [93])) as (text & Heq & Hend & Hlen).
      exists (([91] ++ nm ++ [93]) ++ [32] ++ text).
      split; [|split].
      * rewrite <- !app_assoc in *. exact Heq.
      * intros _. rewrite <- !app_assoc in *. exact Hend.
      * rewrite !length_app. cbn [length].
        destruct (Z.leb_spec i (mode p)); [|lia].
        destruct (Z.ltb_spec (mode p) (i + Z.of_nat (S n))); [|lia].
        destruct (Z.leb_spec (i + 1) (mode p)); [lia|].
        cbn [andb] in *. lia.
    + destruct (Hrest nm) as (text & Heq & Hend & Hlen).
      exists (nm ++ [32] ++ text).
      split; [|split].
      * rewrite <- !app_assoc in *. exact Heq.
      * intros _. rewrite <- !app_assoc in *. exact Hend.
      * rewrite !length_app. cbn [length].
        replace ((i <=? mode p) && (mode p <? i + Z.of_nat (S n)))
          with ((i + 1 <=? mode p) && (mode p <? i + 1 + Z.of_nat n)).
        -- lia.
        -- destruct (Z.leb_spec (i + 1) (mode p)), (Z.leb_spec i (mode p));
             try lia; cbn [andb]; try reflexivity.
           destruct (Z.ltb_spec (mode p) (i + 1 + Z.of_nat n)),
                    (Z.ltb_spec (mode p) (i + Z.of_nat (S n))); try lia; reflexivity.
Qed.

(** X22: the text of the mode attribute.  When no stored name is longer
    than [LEGOEV3_UART_NAME_SIZE] and there are at most 8 modes, reading
    the attribute fails with [-ENXIO] exactly when there is no mode; else
    the text is what the loop printed with its last character, a space,
    replaced by a newline, and it has at most 12 characters per mode and 2
    for the brackets: 98 at most. *)
Theorem show_mode_text (p : port_data) :
  0 <= num_modes p <= LEGOEV3_UART_MODE_MAX + 1 ->
  Forall (fun m => Z.of_nat (length (name m)) <= LEGOEV3_UART_NAME_SIZE) (mode_info p) ->
  match legoev3_uart_show_mode p with
  | inr e => e = ENXIO /\ num_modes p = 0
  | inl out =>
    0 < num_modes p
    /\ (exists body, show_mode_loop (Z.to_nat (num_modes p)) 0 p [] = body ++ [32]
                     /\ out = body ++ [10])
    /\ Z.of_nat (length out) <= 12 * num_modes p + 2 <= 98
  end.
Proof.
  unfold LEGOEV3_UART_MODE_MAX. intros Hn Hfit. unfold legoev3_uart_show_mode.
  destruct (show_mode_loop_spec p (Z.to_nat (num_modes p)) 0 [] Hfit)
    as (text & Heq & Hend & Hlen).
  rewrite app_nil_l in Heq. rewrite Heq.
  destruct (Z.to_nat (num_modes p)) as [|n] eqn:Hz.
  - destruct text as [|? ?];
      [|exfalso; change (Z.of_nat 0) with 0 in Hlen; rewrite Z.add_0_r in Hlen;
        cbn [length] in Hlen;
        destruct (Z.leb_spec 0 (mode p)), (Z.ltb_spec (mode p) 0);
        cbn [andb] in Hlen; lia].
    simpl. split; [reflexivity|lia].
  - destruct (Hend ltac:(discriminate)) as (body & ->).
    rewrite length_app. cbn [length].
    destruct (Z.eqb_spec (Z.of_nat (length body + 1)) 0); [lia|].
    split; [lia|]. split.
    + exists body. split; [reflexivity|]. unfold store_at.
      replace (Z.to_nat (Z.of_nat (length body + 1) - 1)) with (length body + 0)%nat
        by lia.
      rewrite insert_app_r. reflexivity.
    + unfold store_at. rewrite length_insert, length_app in *. cbn [length] in *.
      destruct (_ && _) in Hlen; lia.
Qed.

Lemma show_mode_text_witness :
  let p := port_of (after_handshake 16) in
  0 <= num_modes p <= LEGOEV3_UART_MODE_MAX + 1
  /\ Forall (fun m => Z.of_nat (length (name m)) <= LEGOEV3_UART_NAME_SIZE) (mode_info p)
  /\ legoev3_uart_show_mode p = inl [91; 0x54; 93; 32; 0x55; 10]
  /\ match legoev3_uart_show_mode p with
     | inl out => Z.of_nat (length out) <= 98
     | inr _ => False
     end.
Proof.
  intros p.
  assert (0 <= num_modes p <= LEGOEV3_UART_MODE_MAX + 1) as Hn
    by (vm_compute; split; discriminate).
  assert (all_names : forallb (fun m => Z.of_nat (length (name m)) <=? LEGOEV3_UART_NAME_SIZE)
                              (mode_info p) = true) by (vm_compute; reflexivity).
  assert (Forall (fun m => Z.of_nat (length (name m)) <= LEGOEV3_UART_NAME_SIZE)
                 (mode_info p)) as Hfit.
  { apply Forall_forall. intros m Hm. apply list_elem_of_In in Hm.
    rewrite forallb_forall in all_names. apply Z.leb_le, all_names, Hm. }
  split; [exact Hn|]. split; [exact Hfit|]. split; [vm_compute; reflexivity|].
  pose proof (show_mode_text p Hn Hfit) as Hs.
  destruct (legoev3_uart_show_mode p) as [out|e].
  - destruct Hs as (_ & _ & Hlen). apply (Z.le_trans _ _ _ (proj1 Hlen) (proj2 Hlen)).
  - destruct Hs as [_ Hz]. vm_compute in Hz. discriminate Hz.
Defined.

(** X23: the format attribute and the value attributes agree.  For an
    index below the number of data sets of the current mode, a value
    attribute prints a number exactly when [bin_data_format] prints a
    format name; both fail with [-ENXIO] for a format other than the four
    the driver knows. *)
Theorem bin_data_format_agrees_with_value (ftoi : Z -> Z -> Z) (p : port_data) (i : Z) :
  i < data_sets (mode_info_at p (mode p)) ->
  ((exists s, legoev3_uart_show_bin_data_format p = inl s)
   <-> (exists v, legoev3_uart_show_value ftoi p i = Printed v))
  /\ (legoev3_uart_show_bin_data_format p = inr ENXIO
      <-> legoev3_uart_show_value ftoi p i = Errno ENXIO).
Proof.
  intros Hi. unfold legoev3_uart_show_bin_data_format, legoev3_uart_show_value.
  destruct (Z.geb_spec i (data_sets (mode_info_at p (mode p)))); [lia|].
  repeat match goal with
         | |- context [if ?b then _ else _] => destruct b
         end;
    (split; split; intros Hx; try (eexists; reflexivity); try reflexivity;
     try (destruct Hx; discriminate); try discriminate).
Qed.

Lemma bin_data_format_agrees_with_value_witness :
  let p := port_of (after_handshake 16) in
  0 < data_sets (mode_info_at p (mode p))
  /\ legoev3_uart_show_bin_data_format p = inl "s8"%string
  /\ exists v, legoev3_uart_show_value Z.add p 0 = Printed v.
Proof.
  intros p.
  assert (0 < data_sets (mode_info_at p (mode p))) as Hi by (vm_compute; reflexivity).
  split; [exact Hi|]. split; [vm_compute; reflexivity|].
  apply (proj1 (@bin_data_format_agrees_with_value Z.add p 0 Hi)).
  eexists. vm_compute. reflexivity.
Defined.

(** ** The SPEED command *)

(** A frame built with [with_chksum] gets past the checksum test. *)
Lemma with_chksum_passes (p : port_data) (body : list Z) :
  body <> [] ->
  chksum_refused (framed p (with_chksum body))
                 (Z.of_nat (length (with_chksum body))) = false.
Proof.
  intros Hne. unfold chksum_refused, with_chksum.
  replace (buffer (framed p (body ++ [msg_chksum body (Z.of_nat (length body))])))
    with ((body ++ [msg_chksum body (Z.of_nat (length body))])
            ++ drop (length (body ++ [msg_chksum body (Z.of_nat (length body))]))
                    (buffer p)) by reflexivity.
  rewrite length_app. cbn [length].
  replace (Z.of_nat (length body + 1) - 1) with (Z.of_nat (length body)) by lia.
  assert (0 < length body)%nat by (destruct body; [congruence|simpl; lia]).
  unfold msg_chksum at 1.
  rewrite chksum_loop_app by (rewrite ?length_app; cbn [length]; lia).
  rewrite chksum_loop_app by lia.
  fold (msg_chksum body (Z.of_nat (length body))).
  rewrite byte_at_app_l by (rewrite length_app; cbn [length]; lia).
  unfold byte_at at 1.
  replace (Z.to_nat (Z.of_nat (length body))) with (length body + 0)%nat by lia.
  rewrite lookup_app_r by lia.
  replace (length body + 0 - length body)%nat with 0%nat by lia.
  cbn [lookup list_lookup default]. rewrite Z.eqb_refl. cbn [negb].
  rewrite andb_false_r. reflexivity.
Qed.

Lemma byte_of_word_bit (s k n : Z) :
  0 <= k -> 0 <= n ->
  Z.testbit (Z.shiftl (Z.land (Z.shiftr s k) 255) k) n
  = Z.testbit s n && (k <=? n) && (n <? k + 8).
Proof.
  intros Hk Hn. rewrite Z.shiftl_spec by lia.
  destruct (Z.leb_spec k n) as [Hle|Hlt].
  - rewrite Z.land_spec, Z.shiftr_spec by lia.
    replace (n - k + k) with n by lia.
    change 255 with (Z.ones 8). rewrite Z.testbit_ones_nonneg by lia.
    rewrite andb_true_r. f_equal.
    destruct (Z.ltb_spec (n - k) 8), (Z.ltb_spec n (k + 8)); try lia; reflexivity.
  - rewrite Z.testbit_neg_r by lia. rewrite andb_false_r. reflexivity.
Qed.

(** The four bytes of a 32-bit word, read back as [load_u32] does. *)
Lemma load_u32_of_bytes (s : Z) (rest : list Z) (h : Z) :
  0 <= s < 2 ^ 32 ->
  load_u32 (h :: Z.land s 255 :: Z.land (Z.shiftr s 8) 255
              :: Z.land (Z.shiftr s 16) 255 :: Z.land (Z.shiftr s 24) 255 :: rest) 1
  = s.
Proof.
  intros Hs. unfold load_u32.
  change (byte_at _ 1) with (Z.land s 255).
  change (byte_at _ (1 + 1)) with (Z.land (Z.shiftr s 8) 255).
  change (byte_at _ (1 + 2)) with (Z.land (Z.shiftr s 16) 255).
  change (byte_at _ (1 + 3)) with (Z.land (Z.shiftr s 24) 255).
  apply Z.bits_inj'. intros n Hn.
  rewrite !Z.lor_spec, !byte_of_word_bit by lia.
  rewrite Z.land_spec. change 255 with (Z.ones 8).
  rewrite Z.testbit_ones_nonneg by lia.
  destruct (Z.ltb_spec n 32) as [Hlt|Hge].
  - destruct (Z.testbit s n); cbn [andb orb]; [|reflexivity].
    destruct (Z.ltb_spec n 8), (Z.leb_spec 8 n), (Z.ltb_spec n (8 + 8)),
             (Z.leb_spec 16 n), (Z.ltb_spec n (16 + 8)), (Z.leb_spec 24 n),
             (Z.ltb_spec n (24 + 8)); try lia; reflexivity.
  - assert (Z.testbit s n = false) as ->.
    { destruct (Z.eq_dec s 0) as [->|]; [apply Z.bits_0|].
      apply Z.bits_above_log2; [lia|].
      assert (Z.log2 s < 32) by (apply Z.log2_lt_pow2; lia). lia. }
    reflexivity.
Qed.

Lemma process_speed_frame `{Target} (p : port_data) (s : Z) :
  test_bit LEGOEV3_UART_INFO_BIT_CMD_SPEED (info_flags p) = false ->
  0 <= s < 2 ^ 31 ->
  process_msg (framed p (speed_frame s)) 6
  = let p1 := set_info_flags (set_bit LEGOEV3_UART_INFO_BIT_CMD_SPEED (info_flags p))
                             (framed p (speed_frame s)) in
    if (s <? LEGOEV3_UART_SPEED_MIN) || (s >? LEGOEV3_UART_SPEED_MAX)
    then Invalid (set_last_err "Speed is out of range." p1)
    else Next (set_new_baud_rate s p1) 6.
Proof.
  intros Hbit Hs. unfold process_msg.
  assert (whole_message (speed_frame s)) as Hf by reflexivity.
  rewrite whole_message_byte0 by exact Hf.
  change (byte_at (speed_frame s) 0) with 0x52.
  change (0x52 =? 0xFF) with false. cbv iota.
  change 6 with (Z.of_nat (length (speed_frame s))) at 1.
  unfold speed_frame at 1 2. rewrite with_chksum_passes by discriminate.
  change (Z.land 0x52 LEGOEV3_UART_MSG_TYPE_MASK =? LEGOEV3_UART_MSG_TYPE_SYS) with false.
  change (Z.land 0x52 LEGOEV3_UART_MSG_TYPE_MASK =? LEGOEV3_UART_MSG_TYPE_CMD) with true.
  cbv iota. unfold msg_cmd.
  change (Z.land 0x52 LEGOEV3_UART_MSG_CMD_MASK =? LEGOEV3_UART_CMD_MODES) with false.
  change (Z.land 0x52 LEGOEV3_UART_MSG_CMD_MASK =? LEGOEV3_UART_CMD_SPEED) with true.
  cbv iota zeta.
  replace (info_flags (framed p _)) with (info_flags p) by reflexivity.
  rewrite Hbit.
  match goal with
  | |- context [load_u32 ?b 1] =>
    replace (load_u32 b 1) with s
  end.
  2:{ symmetry. unfold set_info_flags, framed, set_write_ptr, set_buffer, with_chksum.
      cbn [buffer app]. apply load_u32_of_bytes. lia. }
  assert (to_signed 32 s = s) as ->.
  { unfold to_signed. destruct (Z.ltb_spec s (2 ^ (32 - 1))); [reflexivity|].
    change (2 ^ (32 - 1)) with (2 ^ 31) in *. lia. }
  reflexivity.
Qed.

Lemma test_bit_set_bit (k f : Z) : 0 <= k -> test_bit k (set_bit k f) = true.
Proof.
  intros Hk. unfold test_bit, set_bit, BIT. rewrite Z.lor_spec.
  rewrite Z.shiftl_spec by lia. rewrite Z.sub_diag. apply orb_true_r.
Qed.

(** X24: the SPEED command, from the baud rate to the bytes and back.  On
    a synced port with an empty buffer whose handshake is not done and
    that has had no SPEED command, the command that carries [s] as a
    little-endian 32-bit word makes [s] the new baud rate when [s] is
    between 2400 and 460800, and the session goes on; for any other [s]
    below [2 ^ 31] it ends the session with the baud rate back at 2400.
    Either way the flag of the command is set. *)
Theorem speed_command_roundtrip `{Target} (p : port_data) (s : Z) :
  synced p = true -> info_done p = false -> empty_buffer p ->
  test_bit LEGOEV3_UART_INFO_BIT_CMD_SPEED (info_flags p) = false ->
  0 <= s < 2 ^ 31 ->
  exists q, legoev3_uart_receive_buf p (speed_frame s) = Done q
    /\ test_bit LEGOEV3_UART_INFO_BIT_CMD_SPEED (info_flags q) = true
    /\ mode_info q = mode_info p /\ num_modes q = num_modes p /\ type q = type p
    /\ if (LEGOEV3_UART_SPEED_MIN <=? s) && (s <=? LEGOEV3_UART_SPEED_MAX)
       then new_baud_rate q = s /\ synced q = true /\ write_ptr q = 0
            /\ last_err q = last_err p
       else new_baud_rate q = LEGOEV3_UART_SPEED_MIN /\ synced q = false
            /\ last_err q = Some "Speed is out of range."%string.
Proof.
  intros Hs Hi He Hbit Hr.
  pose proof (process_speed_frame p s Hbit Hr) as Hm. cbv zeta in Hm.
  assert (whole_message (speed_frame s)) as Hf by reflexivity.
  destruct (receive_whole_message p (speed_frame s) Hs He Hf) as (Hnext & Hinv & _).
  change (Z.of_nat (length (speed_frame s))) with 6 in Hnext, Hinv.
  unfold LEGOEV3_UART_SPEED_MIN, LEGOEV3_UART_SPEED_MAX in *.
  destruct (Z.ltb_spec s 2400), (Z.gtb_spec s 460800), (Z.leb_spec 2400 s),
           (Z.leb_spec s 460800); try lia; cbn [orb andb] in *.
  - rewrite (Hinv _ Hm). eexists. split; [reflexivity|].
    split; [apply test_bit_set_bit; discriminate|]. repeat split.
  - rewrite (Hinv _ Hm). eexists. split; [reflexivity|].
    split; [apply test_bit_set_bit; discriminate|]. repeat split.
  - destruct (Hnext _ _ Hm) as [-> Hw].
    unfold over_threshold.
    replace (info_done (set_new_baud_rate _ _)) with (info_done p) by reflexivity.
    rewrite Hi. cbn [andb]. eexists. split; [reflexivity|].
    split; [apply test_bit_set_bit; discriminate|].
    split; [reflexivity|]. split; [reflexivity|]. split; [reflexivity|].
    split; [reflexivity|]. split; [exact Hs|]. split; [exact Hw|reflexivity].
Qed.

Lemma speed_command_roundtrip_witness :
  let p := port_of (@receive_all ev3 legoev3_uart_open
                                 [with_chksum [0x40; 16]; with_chksum [0x49; 1; 1]]) in
  synced p = true /\ info_done p = false /\ empty_buffer p
  /\ test_bit LEGOEV3_UART_INFO_BIT_CMD_SPEED (info_flags p) = false
  /\ 0 <= 57600 < 2 ^ 31
  /\ speed_frame 57600 = with_chksum [0x52; 0x00; 0xE1; 0x00; 0x00]
  /\ exists q, @legoev3_uart_receive_buf ev3 p (speed_frame 57600) = Done q
               /\ new_baud_rate q = 57600.
Proof.
  intros p.
  assert (empty_buffer p) as He by (split; reflexivity).
  assert (0 <= 57600 < 2 ^ 31) as Hr by lia.
  destruct (@speed_command_roundtrip ev3 p 57600 eq_refl eq_refl He eq_refl Hr)
    as (q & Hq & _ & _ & _ & _ & Hn).
  split; [reflexivity|]. split; [reflexivity|]. split; [exact He|].
  split; [reflexivity|]. split; [exact Hr|]. split; [reflexivity|].
  exists q. split; [exact Hq|]. apply Hn.
Defined.

(** ** A TYPE command on a synced port *)

(** X25: a sensor that starts its handshake again is picked up at its
    second TYPE command.  On a synced port with an empty buffer the TYPE
    command is an unknown command: it ends the session, with the type and
    the mode table as they were.  Delivered once more, the same command
    (of an admissible type) syncs the port on that type: one mode, the
    handshake not done, no error counted, nothing buffered. *)
Theorem type_command_restarts `{Target} (p : port_data) (t : Z) :
  synced p = true -> empty_buffer p ->
  t <> 0 -> t <= LEGOEV3_UART_TYPE_MAX ->
  exists q q',
    legoev3_uart_receive_buf p (type_triplet t) = Done q
    /\ synced q = false
    /\ last_err q = Some "Unknown command."%string
    /\ new_baud_rate q = LEGOEV3_UART_SPEED_MIN
    /\ type q = type p /\ mode_info q = mode_info p /\ info_done q = info_done p
    /\ legoev3_uart_receive_buf q (type_triplet t) = Done q'
    /\ synced q' = true /\ type q' = t /\ num_modes q' = 1
    /\ info_done q' = false /\ num_data_err q' = 0 /\ write_ptr q' = 0
    /\ info_flags q' = LEGOEV3_UART_INFO_FLAG_CMD_TYPE
    /\ last_err q' = Some "Unknown command."%string.
Proof.
  intros Hs He Hne Hle.
  assert (whole_message (type_triplet t)) as Hf by reflexivity.
  assert (process_msg (framed p (type_triplet t)) 3
          = Invalid (set_last_err "Unknown command." (framed p (type_triplet t))))
    as Hm.
  { unfold process_msg. rewrite whole_message_byte0 by exact Hf.
    change (byte_at (type_triplet t) 0) with 0x40.
    change (0x40 =? 0xFF) with false. cbv iota.
    change (type_triplet t) with (with_chksum [0x40; t]).
    change 3 with (Z.of_nat (length (with_chksum [0x40; t]))) at 1.
    rewrite with_chksum_passes by discriminate. reflexivity. }
  destruct (receive_whole_message p (type_triplet t) Hs He Hf) as (_ & Hinv & _).
  change (Z.of_nat (length (type_triplet t))) with 3 in Hinv.
  rewrite (Hinv _ Hm).
  eexists. eexists. split; [reflexivity|].
  split; [reflexivity|]. split; [reflexivity|]. split; [reflexivity|].
  split; [reflexivity|]. split; [reflexivity|]. split; [reflexivity|].
  split.
  - unfold legoev3_uart_receive_buf.
    replace (synced (err_invalid_state _)) with false by reflexivity.
    rewrite <- (app_nil_r (type_triplet t)).
    rewrite sync_scan_triplet by assumption.
    cbn [append_loop]. apply process_loop_empty. reflexivity.
  - repeat split.
Qed.

Lemma type_command_restarts_witness :
  let p := port_of (after_handshake 16) in
  synced p = true /\ empty_buffer p /\ 33 <> 0 /\ 33 <= @LEGOEV3_UART_TYPE_MAX ev3
  /\ ends_with (@receive_all ev3 p [type_triplet 33; type_triplet 33])
       (fun q => synced q = true /\ type q = 33 /\ info_done q = false).
Proof.
  intros p.
  assert (empty_buffer p) as He by (split; reflexivity).
  assert (33 <> 0) as Hne by discriminate.
  assert (33 <= @LEGOEV3_UART_TYPE_MAX ev3) as Hle by (vm_compute; discriminate).
  destruct (@type_command_restarts ev3 p 33 eq_refl He Hne Hle)
    as (q & q' & Hq & _ & _ & _ & _ & _ & _ & Hq' & Hs' & Ht' & _ & Hi' & _).
  split; [reflexivity|]. split; [exact He|]. split; [exact Hne|]. split; [exact Hle|].
  cbn [receive_all]. rewrite Hq, Hq'. cbn [ends_with]. auto.
Defined.

(** ** The NAME of a mode *)

Lemma c_string_app_nul (a b : list Z) : c_string (a ++ 0 :: b) = c_string a.
Proof.
  induction a as [|c a IH]; cbn [app c_string]; [reflexivity|].
  destruct (c =? 0); [reflexivity|]. rewrite IH. reflexivity.
Qed.

(** X26: the name of a mode, from the wire to the table.  On a synced port
    with an empty buffer whose handshake is not done, an INFO NAME message
    for mode [m] with a right checksum, whose payload starts with a
    character from 'A' to 'z' and holds at most 11 characters before its
    first NUL (or in all, when it has none), stores exactly those
    characters as the name of mode [m], whatever was left in the receive
    buffer behind the message, and makes [m] the current mode.  The flags
    of the INFO messages are cleared and the one of the NAME is set. *)
Theorem name_stored `{Target} (p : port_data) (hdr m : Z) (pl : list Z) :
  synced p = true -> info_done p = false -> empty_buffer p ->
  length (mode_info p) = 8%nat ->
  decode_header hdr = (LEGOEV3_UART_MSG_TYPE_INFO, Z.of_nat (length pl), m) ->
  65 <= byte_at pl 0 <= 122 ->
  Z.of_nat (length (c_string pl)) <= LEGOEV3_UART_NAME_SIZE ->
  exists q,
    legoev3_uart_receive_buf p (with_chksum (hdr :: LEGOEV3_UART_INFO_NAME :: pl)) = Done q
    /\ name (mode_info_at q m) = c_string pl
    /\ mode q = m
    /\ info_flags q
       = Z.lor (Z.land (info_flags p) (Z.lnot LEGOEV3_UART_INFO_FLAG_ALL_INFO))
               LEGOEV3_UART_INFO_FLAG_INFO_NAME
    /\ synced q = true /\ write_ptr q = 0 /\ last_err q = last_err p
    /\ (forall m', 0 <= m' -> m' <> m -> mode_info_at q m' = mode_info_at p m').
Proof.
  intros Hs Hi He Hlen Hdec Hc0 Hfit.
  unfold decode_header in Hdec. injection Hdec as Hty Hsz Hm.
  pose proof (land_7_range hdr) as Hm7.
  change (Z.land hdr 7) with (Z.land hdr LEGOEV3_UART_MSG_CMD_MASK) in Hm7.
  rewrite Hm in Hm7.
  set (f := with_chksum (hdr :: LEGOEV3_UART_INFO_NAME :: pl)).
  assert (Z.of_nat (length f) = Z.of_nat (length pl) + 3) as Hlf.
  { unfold f, with_chksum. rewrite length_app. cbn [length]. lia. }
  assert (byte_at f 0 = hdr) as Hf0 by reflexivity.
  assert (whole_message f) as Hf.
  { unfold whole_message. rewrite Hf0, Hlf. unfold legoev3_uart_msg_size.
    rewrite Hty, Hsz. cbn [Z.eqb LEGOEV3_UART_MSG_TYPE_INFO Pos.eqb]. lia. }
  assert (hdr <> 0xFF) as Hff by (intros ->; discriminate Hty).
  assert (pl <> []) as Hpl.
  { intros ->. change (byte_at [] 0) with 0 in Hc0. lia. }
  set (stale := drop (length f) (buffer p)).
  assert (process_msg (framed p f) (Z.of_nat (length f))
          = info_name (framed p f) m (Z.of_nat (length f))) as Hpm.
  { unfold process_msg. rewrite whole_message_byte0 by exact Hf. rewrite Hf0.
    apply Z.eqb_neq in Hff. rewrite Hff.
    unfold f at 1 2. rewrite with_chksum_passes by discriminate.
    rewrite Hty, Hm. reflexivity. }
  assert (buffer (framed p f)
          = hdr :: 0 :: pl ++ msg_chksum (hdr :: 0 :: pl) (Z.of_nat (length (hdr :: 0 :: pl)))
                :: stale) as Hbuf.
  { unfold framed. cbn [buffer set_write_ptr set_buffer]. fold stale.
    unfold f, with_chksum, LEGOEV3_UART_INFO_NAME. cbn [app].
    rewrite <- app_assoc. reflexivity. }
  assert (drop 2 (store_at (buffer (framed p f)) (Z.of_nat (length f) - 1) 0)
          = pl ++ 0 :: stale) as Hdrop.
  { rewrite Hbuf, Hlf. unfold store_at.
    replace (Z.to_nat (Z.of_nat (length pl) + 3 - 1)) with (S (S (length pl + 0)))
      by lia.
    assert (forall (a b v : Z) (l : list Z) (n : nat),
               drop 2 (<[S (S n) := v]> (a :: b :: l)) = <[n := v]> l) as Hcons
      by reflexivity.
    rewrite Hcons, insert_app_r. reflexivity. }
  assert (info_name (framed p f) m (Z.of_nat (length f))
          = let p1 := set_info_flags
                        (Z.land (info_flags p) (Z.lnot LEGOEV3_UART_INFO_FLAG_ALL_INFO))
                        (framed p f) in
            let p2 := set_buffer (store_at (buffer p1) (Z.of_nat (length f) - 1) 0) p1 in
            Next (set_info_flags
                    (Z.lor (Z.land (info_flags p) (Z.lnot LEGOEV3_UART_INFO_FLAG_ALL_INFO))
                           LEGOEV3_UART_INFO_FLAG_INFO_NAME)
                    (set_mode m (upd_mode_info m (set_name (c_string pl)) p2)))
                 (Z.of_nat (length f))) as Hin.
  { unfold info_name. cbv zeta.
    replace (buffer (set_info_flags _ (framed p f))) with (buffer (framed p f))
      by reflexivity.
    assert (byte_at (buffer (framed p f)) 2 = byte_at pl 0) as ->.
    { rewrite Hbuf. destruct pl as [|c pl']; [congruence|]. reflexivity. }
    destruct (Z.ltb_spec (byte_at pl 0) 65); [lia|].
    destruct (Z.gtb_spec (byte_at pl 0) 122); [lia|]. cbn [orb].
    replace (buffer (set_buffer _ _))
      with (store_at (buffer (framed p f)) (Z.of_nat (length f) - 1) 0) by reflexivity.
    rewrite Hdrop. unfold strlen, snprintf_s. rewrite c_string_app_nul.
    destruct (Z.gtb_spec (Z.of_nat (length (c_string pl))) LEGOEV3_UART_NAME_SIZE);
      [lia|].
    rewrite take_ge by (unfold LEGOEV3_UART_NAME_SIZE in *; lia).
    reflexivity. }
  rewrite Hin in Hpm. cbv zeta in Hpm.
  destruct (receive_whole_message p f Hs He Hf) as (Hnext & _ & _).
  destruct (Hnext _ _ Hpm) as [Hr Hw]. rewrite Hr.
  unfold over_threshold.
  replace (info_done (set_info_flags _ _)) with (info_done p) by reflexivity.
  rewrite Hi. cbn [andb].
  eexists. split; [reflexivity|].
  split.
  { unfold drop_msg, mode_info_at.
    cbn [mode_info set_write_ptr set_buffer set_info_flags set_mode upd_mode_info
         set_mode_info].
    change (mode_info (framed p f)) with (mode_info p).
    rewrite list_lookup_insert_eq by lia. reflexivity. }
  split; [reflexivity|]. split; [reflexivity|]. split; [exact Hs|].
  split; [exact Hw|]. split; [reflexivity|].
  intros m' Hm0 Hne. unfold drop_msg, mode_info_at.
  cbn [mode_info set_write_ptr set_buffer set_info_flags set_mode upd_mode_info
       set_mode_info].
  change (mode_info (framed p f)) with (mode_info p).
  rewrite list_lookup_insert_ne by lia. reflexivity.
Qed.

Lemma name_stored_witness :
  let p := port_of (@receive_all ev3 legoev3_uart_open
                                 [with_chksum [0x40; 16]; with_chksum [0x49; 1; 1]]) in
  let pl := [0x41; 0x42] in
  synced p = true /\ info_done p = false /\ empty_buffer p
  /\ length (mode_info p) = 8%nat
  /\ decode_header 0x88 = (LEGOEV3_UART_MSG_TYPE_INFO, Z.of_nat (length pl), 0)
  /\ 65 <= byte_at pl 0 <= 122
  /\ Z.of_nat (length (c_string pl)) <= LEGOEV3_UART_NAME_SIZE
  /\ exists q,
       @legoev3_uart_receive_buf ev3 p (with_chksum (0x88 :: LEGOEV3_UART_INFO_NAME :: pl))
       = Done q
       /\ name (mode_info_at q 0) = [0x41; 0x42].
Proof.
  intros p pl.
  assert (empty_buffer p) as He by (split; reflexivity).
  assert (65 <= byte_at pl 0 <= 122) as Hc by (vm_compute; split; discriminate).
  assert (Z.of_nat (length (c_string pl)) <= LEGOEV3_UART_NAME_SIZE) as Hfit
    by (vm_compute; discriminate).
  destruct (@name_stored ev3 p 0x88 0 pl eq_refl eq_refl He eq_refl eq_refl Hc Hfit)
    as (q & Hq & Hn & _).
  split; [reflexivity|]. split; [reflexivity|]. split; [exact He|].
  split; [reflexivity|]. split; [reflexivity|]. split; [exact Hc|].
  split; [exact Hfit|].
  exists q. split; [exact Hq|exact Hn].
Defined.
